(** * The backlog store, the session board and the WebSocket manager

    A shallow embedding of
    - [Local_AI_Automation/data/backlog/schema.sql]: the tables
      [backlog_items], [backlog_events] and [clarifications], the views
      [v_active_by_priority] and [v_needs_clarification], and the four
      triggers on [backlog_items];
    - [static/js/core/websocket-manager.js]: the class [WebSocketManager];
    - [static/js/core/event-bus.js]: the class [EventBus], with the
      listeners that [static/js/core/app.js] subscribes for routing;
    - the single-page dashboard: its WebSocket service, its toasts, its
      session cards and the session detail dialog;
    - the table [system_metrics] with its cleanup trigger.

    The item state machine, the clarification coordinator, the session
    state machine and the broadcast hub are in no source file; they are
    modelled from the specification, each definition saying so.

    SQL statements are modelled as functions on the database state, run
    under SQLite's defaults: a failing constraint aborts the statement
    and leaves the database as it was, and [recursive_triggers] is off,
    so a trigger never fires itself. *)

From Stdlib Require Import ZArith String List Lia.
From Stdlib Require QArith_base Qminmax Qreduction Qpower.
From Stdlib Require DecimalString.
From Corelib Require SpecFloat.
From stdpp Require Import base option list gmap strings sorting.

Local Open Scope string_scope.
Local Open Scope list_scope.
Local Open Scope Z_scope.

(** ** Results of fallible operations *)

Inductive result (E A : Type) : Type :=
| Ok (a : A)
| Err (e : E).
Arguments Ok {E A} a.
Arguments Err {E A} e.

(** ** SQL values *)

Module Sql.

(** [x IN (v1, ..., vn)] in SQL's three-valued logic: NULL ([None]) when
    [x] is NULL, true on a match, NULL when there is no match but the
    list holds a NULL, false otherwise. *)
Definition sql_in (x : option string) (l : list (option string)) : option bool :=
  match x with
  | None => None
  | Some s =>
      if existsb (fun v => match v with Some t => String.eqb s t | None => false end) l
      then Some true
      else if existsb (fun v => match v with None => true | Some _ => false end) l
           then None
           else Some false
  end.

(** A CHECK constraint is violated only when its expression is false;
    NULL passes. *)
Definition check_passes (v : option bool) : bool :=
  match v with
  | Some false => false
  | _ => true
  end.

(** DATETIME values are kept as seconds since 1970, the resolution of
    CURRENT_TIMESTAMP; NULL sorts first under ORDER BY ... ASC. *)
Definition datetime := Z.

Definition null_first_leb (a b : option Z) : bool :=
  match a, b with
  | None, _ => true
  | Some _, None => false
  | Some x, Some y => x <=? y
  end.

Definition null_first_ltb (a b : option Z) : bool :=
  match a, b with
  | _, None => false
  | None, Some _ => true
  | Some x, Some y => x <? y
  end.

Inductive sql_error : Type :=
| SQLITE_CONSTRAINT_CHECK
| SQLITE_CONSTRAINT_UNIQUE.

End Sql.
Export Sql.

(** ** The tables of schema.sql *)

(** A row of [backlog_items]; the INTEGER PRIMARY KEY [id] is the key
    under which the row is stored. *)
Record backlog_item : Type := {
  external_id : string;
  title : string;
  description : option string;
  category : string;
  secondary_tags : option string;
  priority : string;
  item_type : string;
  status : string;
  next_action : option string;
  estimated_effort : option string;
  dependencies : option string;
  source_channel : option string;
  source_message_ts : option string;
  source_user : option string;
  created_at : option datetime;
  updated_at : option datetime;
  completed_at : option datetime;
  llm_confidence : option QArith_base.Q;
  raw_input : option string
}.

(** A row of [backlog_events]. [event_data] is the JSON object built by
    [json_object], kept as its list of members. *)
Record backlog_event : Type := {
  ev_id : Z;
  item_id : Z;
  ev_external_id : string;
  event_type : string;
  event_data : option (list (string * string));
  actor_type : string;
  actor_id : option string;
  ev_created_at : option datetime
}.

(** A row of [clarifications], stored under its [id]. *)
Record clarification : Type := {
  c_item_id : Z;
  question : string;
  answer : option string;
  asked_at : option datetime;
  answered_at : option datetime;
  thread_ts : option string
}.

(** The database: each AUTOINCREMENT table carries the largest rowid it
    has handed out. [backlog_events] is kept in insertion order. *)
Record db : Type := {
  backlog_items : gmap Z backlog_item;
  backlog_items_seq : Z;
  backlog_events : list backlog_event;
  clarifications : gmap Z clarification;
  clarifications_seq : Z
}.

Definition empty_db : db :=
  {| backlog_items := ∅; backlog_items_seq := 0; backlog_events := [];
     clarifications := ∅; clarifications_seq := 0 |}.

Definition with_items (f : gmap Z backlog_item → gmap Z backlog_item) (d : db) : db :=
  {| backlog_items := f (backlog_items d);
     backlog_items_seq := backlog_items_seq d;
     backlog_events := backlog_events d;
     clarifications := clarifications d;
     clarifications_seq := clarifications_seq d |}.


Definition set_updated_at (v : option datetime) (r : backlog_item) : backlog_item :=
  {| external_id := external_id r; title := title r; description := description r;
     category := category r; secondary_tags := secondary_tags r;
     priority := priority r; item_type := item_type r; status := status r;
     next_action := next_action r; estimated_effort := estimated_effort r;
     dependencies := dependencies r; source_channel := source_channel r;
     source_message_ts := source_message_ts r; source_user := source_user r;
     created_at := created_at r; updated_at := v; completed_at := completed_at r;
     llm_confidence := llm_confidence r; raw_input := raw_input r |}.

Definition set_completed_at (v : option datetime) (r : backlog_item) : backlog_item :=
  {| external_id := external_id r; title := title r; description := description r;
     category := category r; secondary_tags := secondary_tags r;
     priority := priority r; item_type := item_type r; status := status r;
     next_action := next_action r; estimated_effort := estimated_effort r;
     dependencies := dependencies r; source_channel := source_channel r;
     source_message_ts := source_message_ts r; source_user := source_user r;
     created_at := created_at r; updated_at := updated_at r; completed_at := v;
     llm_confidence := llm_confidence r; raw_input := raw_input r |}.

(** The CHECK constraints of [backlog_items] (NOT NULL is in the types). *)
Definition check_item (r : backlog_item) : bool :=
  check_passes (sql_in (Some (priority r)) [Some "P0"; Some "P1"; Some "P2"; Some "P3"])
  && check_passes (sql_in (Some (item_type r)) [Some "personal"; Some "work"; Some "mixed"])
  && check_passes (sql_in (Some (status r))
       [Some "open"; Some "needs_clarification"; Some "in_progress";
        Some "blocked"; Some "done"; Some "cancelled"])
  && check_passes (sql_in (estimated_effort r) [Some "S"; Some "M"; Some "L"; None]).

(** [external_id TEXT UNIQUE]: no row other than [rid] carries [x]. *)
Definition external_id_free (rid : Z) (x : string) (t : gmap Z backlog_item) : bool :=
  forallb (fun kr => (fst kr =? rid) || negb (String.eqb (external_id (snd kr)) x))
          (map_to_list t).

(** INSERT INTO backlog_events (item_id, external_id, event_type,
    event_data, actor_type): the id comes from AUTOINCREMENT, [actor_id]
    stays NULL and [created_at] defaults to CURRENT_TIMESTAMP. *)
Definition insert_event (now : datetime) (iid : Z) (ext ty : string)
    (data : option (list (string * string))) (actor : string) (d : db) : db :=
  {| backlog_items := backlog_items d;
     backlog_items_seq := backlog_items_seq d;
     backlog_events :=
       backlog_events d ++
       [{| ev_id := Z.of_nat (length (backlog_events d)) + 1;
           item_id := iid; ev_external_id := ext; event_type := ty;
           event_data := data; actor_type := actor; actor_id := None;
           ev_created_at := Some now |}];
     clarifications := clarifications d;
     clarifications_seq := clarifications_seq d |}.

(** ** The triggers *)

(** trg_backlog_updated: UPDATE backlog_items SET updated_at =
    CURRENT_TIMESTAMP WHERE id = NEW.id. *)
Definition trg_backlog_updated (now : datetime) (new_id : Z) (d : db) : db :=
  with_items (alter (set_updated_at (Some now)) new_id) d.

(** trg_log_status_change, fired by UPDATE OF status
    WHEN OLD.status != NEW.status. *)
Definition trg_log_status_change (now : datetime) (new_id : Z)
    (old new : backlog_item) (d : db) : db :=
  if String.eqb (status old) (status new) then d
  else insert_event now new_id (external_id new) "status_changed"
         (Some [("old_status", status old); ("new_status", status new)])
         "system" d.

(** trg_log_priority_change, fired by UPDATE OF priority
    WHEN OLD.priority != NEW.priority. *)
Definition trg_log_priority_change (now : datetime) (new_id : Z)
    (old new : backlog_item) (d : db) : db :=
  if String.eqb (priority old) (priority new) then d
  else insert_event now new_id (external_id new) "priority_changed"
         (Some [("old_priority", priority old); ("new_priority", priority new)])
         "system" d.

(** trg_set_completed_at, fired by UPDATE OF status
    WHEN NEW.status = 'done' AND OLD.status != 'done'. Its UPDATE of
    [completed_at] is itself an UPDATE of the row, so it fires
    trg_backlog_updated. *)
Definition trg_set_completed_at (now : datetime) (new_id : Z)
    (old new : backlog_item) (d : db) : db :=
  if String.eqb (status new) "done" && negb (String.eqb (status old) "done")
  then trg_backlog_updated now new_id
         (with_items (alter (set_completed_at (Some now)) new_id) d)
  else d.

(** The AFTER UPDATE triggers of one updated row. SQLite runs the
    triggers of a table latest created first: trg_set_completed_at,
    trg_log_priority_change, trg_log_status_change, trg_backlog_updated.
    [of_status] and [of_priority] say whether the statement's SET list
    names the column. *)
Definition after_update (now : datetime) (rid : Z) (of_status of_priority : bool)
    (old new : backlog_item) (d : db) : db :=
  let d1 := if of_status then trg_set_completed_at now rid old new d else d in
  let d2 := if of_priority then trg_log_priority_change now rid old new d1 else d1 in
  let d3 := if of_status then trg_log_status_change now rid old new d2 else d2 in
  trg_backlog_updated now rid d3.

(** ** UPDATE and INSERT on backlog_items *)

(** The SET list of an UPDATE: [None] leaves the column out, [Some v]
    assigns [v] (for a nullable column, [Some None] assigns NULL). The
    rowid is not reassigned. *)
Record item_patch : Type := {
  p_external_id : option string;
  p_title : option string;
  p_description : option (option string);
  p_category : option string;
  p_secondary_tags : option (option string);
  p_priority : option string;
  p_item_type : option string;
  p_status : option string;
  p_next_action : option (option string);
  p_estimated_effort : option (option string);
  p_dependencies : option (option string);
  p_source_channel : option (option string);
  p_source_message_ts : option (option string);
  p_source_user : option (option string);
  p_created_at : option (option datetime);
  p_updated_at : option (option datetime);
  p_completed_at : option (option datetime);
  p_llm_confidence : option (option QArith_base.Q);
  p_raw_input : option (option string)
}.

Definition apply_patch (p : item_patch) (r : backlog_item) : backlog_item :=
  {| external_id := default (external_id r) (p_external_id p);
     title := default (title r) (p_title p);
     description := default (description r) (p_description p);
     category := default (category r) (p_category p);
     secondary_tags := default (secondary_tags r) (p_secondary_tags p);
     priority := default (priority r) (p_priority p);
     item_type := default (item_type r) (p_item_type p);
     status := default (status r) (p_status p);
     next_action := default (next_action r) (p_next_action p);
     estimated_effort := default (estimated_effort r) (p_estimated_effort p);
     dependencies := default (dependencies r) (p_dependencies p);
     source_channel := default (source_channel r) (p_source_channel p);
     source_message_ts := default (source_message_ts r) (p_source_message_ts p);
     source_user := default (source_user r) (p_source_user p);
     created_at := default (created_at r) (p_created_at p);
     updated_at := default (updated_at r) (p_updated_at p);
     completed_at := default (completed_at r) (p_completed_at p);
     llm_confidence := default (llm_confidence r) (p_llm_confidence p);
     raw_input := default (raw_input r) (p_raw_input p) |}.

Definition is_set {A} (o : option A) : bool :=
  match o with Some _ => true | None => false end.

(** UPDATE backlog_items SET ... WHERE id = rid. A statement that matches
    no row succeeds and changes nothing. *)
Definition sql_update_item (now : datetime) (rid : Z) (p : item_patch) (d : db)
    : result sql_error db :=
  match backlog_items d !! rid with
  | None => Ok d
  | Some old =>
      let new := apply_patch p old in
      if negb (check_item new) then Err SQLITE_CONSTRAINT_CHECK
      else if negb (external_id_free rid (external_id new) (backlog_items d))
      then Err SQLITE_CONSTRAINT_UNIQUE
      else Ok (after_update now rid (is_set (p_status p)) (is_set (p_priority p))
                 old new (with_items (insert rid new) d))
  end.

(** The VALUES of an INSERT: the NOT NULL columns without default are
    given, the others are optional and fall back to their DEFAULT (NULL
    where the schema names none). *)
Record item_insert : Type := {
  i_external_id : string;
  i_title : string;
  i_description : option string;
  i_category : option string;
  i_secondary_tags : option string;
  i_priority : option string;
  i_item_type : option string;
  i_status : option string;
  i_next_action : option string;
  i_estimated_effort : option string;
  i_dependencies : option string;
  i_source_channel : option string;
  i_source_message_ts : option string;
  i_source_user : option string;
  i_created_at : option (option datetime);
  i_updated_at : option (option datetime);
  i_completed_at : option datetime;
  i_llm_confidence : option QArith_base.Q;
  i_raw_input : option string
}.

Definition inserted_row (now : datetime) (v : item_insert) : backlog_item :=
  {| external_id := i_external_id v;
     title := i_title v;
     description := i_description v;
     category := default "Personal" (i_category v);
     secondary_tags := i_secondary_tags v;
     priority := default "P2" (i_priority v);
     item_type := default "personal" (i_item_type v);
     status := default "open" (i_status v);
     next_action := i_next_action v;
     estimated_effort := i_estimated_effort v;
     dependencies := i_dependencies v;
     source_channel := i_source_channel v;
     source_message_ts := i_source_message_ts v;
     source_user := i_source_user v;
     created_at := default (Some now) (i_created_at v);
     updated_at := default (Some now) (i_updated_at v);
     completed_at := i_completed_at v;
     llm_confidence := i_llm_confidence v;
     raw_input := i_raw_input v |}.

(** INSERT INTO backlog_items: the new rowid is one more than the largest
    handed out so far. No trigger of the schema is on INSERT. *)
Definition sql_insert_item (now : datetime) (v : item_insert) (d : db)
    : result sql_error (Z * db) :=
  let r := inserted_row now v in
  let rid := backlog_items_seq d + 1 in
  if negb (check_item r) then Err SQLITE_CONSTRAINT_CHECK
  else if negb (external_id_free rid (external_id r) (backlog_items d))
  then Err SQLITE_CONSTRAINT_UNIQUE
  else Ok (rid,
           {| backlog_items := <[rid := r]> (backlog_items d);
              backlog_items_seq := rid;
              backlog_events := backlog_events d;
              clarifications := clarifications d;
              clarifications_seq := clarifications_seq d |}).

(** A script of statements on [backlog_items]; a statement that fails is
    rolled back and the script goes on. *)
Inductive stmt : Type :=
| InsertItem (now : datetime) (v : item_insert)
| UpdateItem (now : datetime) (rid : Z) (p : item_patch).

Definition exec (d : db) (s : stmt) : db :=
  match s with
  | InsertItem now v =>
      match sql_insert_item now v d with Ok (_, d') => d' | Err _ => d end
  | UpdateItem now rid p =>
      match sql_update_item now rid p d with Ok d' => d' | Err _ => d end
  end.

Definition run (l : list stmt) (d : db) : db := fold_left exec l d.

(** Statements of the shape clients send: an INSERT that gives the two
    required columns (and perhaps priority and status), an UPDATE of the
    status alone, an UPDATE of the title alone. *)
Definition new_item (ext ttl : string) : item_insert :=
  {| i_external_id := ext; i_title := ttl; i_description := None;
     i_category := None; i_secondary_tags := None; i_priority := None;
     i_item_type := None; i_status := None; i_next_action := None;
     i_estimated_effort := None; i_dependencies := None; i_source_channel := None;
     i_source_message_ts := None; i_source_user := None; i_created_at := None;
     i_updated_at := None; i_completed_at := None; i_llm_confidence := None;
     i_raw_input := None |}.

Definition new_item_with (ext ttl : string) (prio st : option string) : item_insert :=
  {| i_external_id := ext; i_title := ttl; i_description := None;
     i_category := None; i_secondary_tags := None; i_priority := prio;
     i_item_type := None; i_status := st; i_next_action := None;
     i_estimated_effort := None; i_dependencies := None; i_source_channel := None;
     i_source_message_ts := None; i_source_user := None; i_created_at := None;
     i_updated_at := None; i_completed_at := None; i_llm_confidence := None;
     i_raw_input := None |}.

Definition set_status_to (s : string) : item_patch :=
  {| p_external_id := None; p_title := None; p_description := None;
     p_category := None; p_secondary_tags := None; p_priority := None;
     p_item_type := None; p_status := Some s; p_next_action := None;
     p_estimated_effort := None; p_dependencies := None;
     p_source_channel := None; p_source_message_ts := None;
     p_source_user := None; p_created_at := None; p_updated_at := None;
     p_completed_at := None; p_llm_confidence := None; p_raw_input := None |}.

Definition set_title_to (t : string) : item_patch :=
  {| p_external_id := None; p_title := Some t; p_description := None;
     p_category := None; p_secondary_tags := None; p_priority := None;
     p_item_type := None; p_status := None; p_next_action := None;
     p_estimated_effort := None; p_dependencies := None;
     p_source_channel := None; p_source_message_ts := None;
     p_source_user := None; p_created_at := None; p_updated_at := None;
     p_completed_at := None; p_llm_confidence := None; p_raw_input := None |}.

(** ** Reading the event log *)

Definition events_for (rid : Z) (d : db) : list backlog_event :=
  filter (λ e, item_id e = rid) (backlog_events d).

Definition events_of_type (ty : string) (l : list backlog_event) : list backlog_event :=
  filter (λ e, event_type e = ty) l.

Fixpoint json_get (k : string) (o : list (string * string)) : option string :=
  match o with
  | [] => None
  | (k', v) :: o' => if String.eqb k k' then Some v else json_get k o'
  end.

Definition event_field (k : string) (e : backlog_event) : option string :=
  match event_data e with
  | Some o => json_get k o
  | None => None
  end.

(** Replay as the specification words it (section 6): the events of an
    item applied in sequence order to a state, here the two columns the
    triggers log. A [status_changed] event sets the status to its
    [new_status], a [priority_changed] event the priority to its
    [new_priority], any other event leaves both alone. *)
Definition apply_event (st : string * string) (e : backlog_event) : string * string :=
  if String.eqb (event_type e) "status_changed"
  then (default (fst st) (event_field "new_status" e), snd st)
  else if String.eqb (event_type e) "priority_changed"
  then (fst st, default (snd st) (event_field "new_priority" e))
  else st.

Definition replay (l : list backlog_event) (st : string * string) : string * string :=
  fold_left apply_event l st.

Definition logged_state (r : backlog_item) : string * string := (status r, priority r).

(** ** ORDER BY *)

Section OrderBy.
Context {A : Type} (leb : A → A → bool).

(** [x] goes in front of the first row that does not sort before it,
    so rows that compare equal keep the order they arrive in. *)
Fixpoint insert_sorted (x : A) (l : list A) : list A :=
  match l with
  | [] => [x]
  | y :: l' => if leb x y then x :: l else y :: insert_sorted x l'
  end.

Definition order_by (l : list A) : list A := foldr insert_sorted [] l.
End OrderBy.

(** Rows of a table in rowid order, the order of a full scan. *)
Definition table_scan {V : Type} (t : gmap Z V) : list (Z * V) :=
  order_by (λ a b, fst a <=? fst b) (map_to_list t).

(** ** The views *)

(** CASE priority WHEN 'P0' THEN 1 ... WHEN 'P3' THEN 4 END: NULL for any
    other text. *)
Definition priority_rank (p : string) : option Z :=
  if String.eqb p "P0" then Some 1
  else if String.eqb p "P1" then Some 2
  else if String.eqb p "P2" then Some 3
  else if String.eqb p "P3" then Some 4
  else None.

(** The ORDER BY key of v_active_by_priority: the CASE, then created_at. *)
Definition order_key (r : backlog_item) : option Z * option Z :=
  (priority_rank (priority r), created_at r).

Definition key_leb (a b : option Z * option Z) : bool :=
  null_first_ltb (fst a) (fst b)
  || (negb (null_first_ltb (fst b) (fst a)) && null_first_leb (snd a) (snd b)).

(** WHERE status NOT IN ('done', 'cancelled'). *)
Definition is_active (r : backlog_item) : bool :=
  match sql_in (Some (status r)) [Some "done"; Some "cancelled"] with
  | Some false => true
  | _ => false
  end.

(** The rows v_active_by_priority selects, in the order it lists them. *)
Definition active_rows (d : db) : list (Z * backlog_item) :=
  order_by (λ a b, key_leb (order_key (snd a)) (order_key (snd b)))
           (List.filter (λ kr, is_active (snd kr)) (table_scan (backlog_items d))).

(** JULIANDAY of a time given in milliseconds since 1970: SQLite keeps a
    time as the whole number of milliseconds since noon of 24 November
    4714 BC and returns that number divided by 86400000.0, a double;
    a time outside the years it accepts gives NULL. *)
Definition double_of_Z (z : Z) : SpecFloat.spec_float :=
  SpecFloat.binary_normalize 53 1024 z 0 false.

Definition julianday (ms : Z) : option SpecFloat.spec_float :=
  let iJD := ms + 210866760000000 in
  if (0 <=? iJD) && (iJD <=? 464269060799999)
  then Some (SpecFloat.SFdiv 53 1024 (double_of_Z iJD) (double_of_Z 86400000))
  else None.

(** A row of v_active_by_priority. [days_old] is the REAL that
    JULIANDAY('now') - JULIANDAY(created_at) gives, a subtraction of
    doubles. *)
Record active_row : Type := {
  v_external_id : string;
  v_title : string;
  v_category : string;
  v_priority : string;
  v_status : string;
  v_next_action : option string;
  v_created_at : option datetime;
  days_old : option SpecFloat.spec_float
}.

(** The columns of the view for one row; [now] is the time of the
    query, which SQLite reads to the millisecond, in milliseconds since
    1970, and [created_at] is in seconds since 1970. *)
Definition active_columns (now : Z) (r : backlog_item) : active_row :=
  {| v_external_id := external_id r; v_title := title r; v_category := category r;
     v_priority := priority r; v_status := status r; v_next_action := next_action r;
     v_created_at := created_at r;
     days_old :=
       match julianday now, created_at r with
       | Some j, Some c =>
           match julianday (c * 1000) with
           | Some jc => Some (SpecFloat.SFsub 53 1024 j jc)
           | None => None
           end
       | _, _ => None
       end |}.

Definition v_active_by_priority (now : Z) (d : db) : list active_row :=
  map (λ kr, active_columns now (snd kr)) (active_rows d).

Record needs_clarification_row : Type := {
  n_external_id : string;
  n_title : string;
  n_raw_input : option string;
  n_question : string;
  n_asked_at : option datetime
}.

(** v_needs_clarification: backlog_items JOIN clarifications ON b.id =
    c.item_id WHERE b.status = 'needs_clarification' AND c.answer IS NULL
    ORDER BY c.asked_at. *)
Definition v_needs_clarification (d : db) : list needs_clarification_row :=
  order_by (λ a b, null_first_leb (n_asked_at a) (n_asked_at b))
    (omap (λ kc : Z * clarification,
             match backlog_items d !! c_item_id (snd kc) with
             | Some b =>
                 if String.eqb (status b) "needs_clarification"
                    && negb (is_set (answer (snd kc)))
                 then Some {| n_external_id := external_id b; n_title := title b;
                              n_raw_input := raw_input b;
                              n_question := question (snd kc);
                              n_asked_at := asked_at (snd kc) |}
                 else None
             | None => None
             end)
          (table_scan (clarifications d))).

(** ** WebSocketManager (websocket-manager.js) *)

Module Ws.

Inductive ready_state : Type := CONNECTING | OPEN | CLOSING | CLOSED.

(** The fields of the manager, and the WebSocket objects it has made.
    [sockets] holds the [readyState] of every socket that connect() has
    created, in the order of their creation, a socket being known by its
    place in the list; [ws] is [None] for [null], else the socket that
    [this.ws] refers to; [wire] lists what was handed to [ws.send], in
    order; [pingInterval] says whether the interval timer is set. *)
Record WebSocketManager : Type := {
  sockets : list ready_state;
  ws : option nat;
  reconnectAttempts : Z;
  maxReconnectAttempts : Z;
  reconnectDelay : Z;
  maxReconnectDelay : Z;
  isConnecting : bool;
  shouldReconnect : bool;
  pingInterval : bool;
  messageQueue : list string;
  wire : list string
}.

(** The constructor. *)
Definition constructor : WebSocketManager :=
  {| sockets := []; ws := None; reconnectAttempts := 0; maxReconnectAttempts := 10;
     reconnectDelay := 1000; maxReconnectDelay := 30000;
     isConnecting := false; shouldReconnect := true; pingInterval := false;
     messageQueue := []; wire := [] |}.

(** this.ws?.readyState *)
Definition readyState (m : WebSocketManager) : option ready_state :=
  match ws m with
  | Some s => sockets m !! s
  | None => None
  end.

(** this.ws?.readyState === WebSocket.OPEN *)
Definition isConnected (m : WebSocketManager) : bool :=
  match readyState m with Some OPEN => true | _ => false end.

Definition put_sockets (v : list ready_state) (m : WebSocketManager) : WebSocketManager :=
  {| sockets := v; ws := ws m; reconnectAttempts := reconnectAttempts m;
     maxReconnectAttempts := maxReconnectAttempts m;
     reconnectDelay := reconnectDelay m; maxReconnectDelay := maxReconnectDelay m;
     isConnecting := isConnecting m; shouldReconnect := shouldReconnect m;
     pingInterval := pingInterval m; messageQueue := messageQueue m;
     wire := wire m |}.

Definition put_ws (v : option nat) (m : WebSocketManager) : WebSocketManager :=
  {| sockets := sockets m; ws := v; reconnectAttempts := reconnectAttempts m;
     maxReconnectAttempts := maxReconnectAttempts m;
     reconnectDelay := reconnectDelay m; maxReconnectDelay := maxReconnectDelay m;
     isConnecting := isConnecting m; shouldReconnect := shouldReconnect m;
     pingInterval := pingInterval m; messageQueue := messageQueue m;
     wire := wire m |}.

Definition put_attempts (v : Z) (m : WebSocketManager) : WebSocketManager :=
  {| sockets := sockets m; ws := ws m; reconnectAttempts := v;
     maxReconnectAttempts := maxReconnectAttempts m;
     reconnectDelay := reconnectDelay m; maxReconnectDelay := maxReconnectDelay m;
     isConnecting := isConnecting m; shouldReconnect := shouldReconnect m;
     pingInterval := pingInterval m; messageQueue := messageQueue m;
     wire := wire m |}.

Definition put_connecting (v : bool) (m : WebSocketManager) : WebSocketManager :=
  {| sockets := sockets m; ws := ws m; reconnectAttempts := reconnectAttempts m;
     maxReconnectAttempts := maxReconnectAttempts m;
     reconnectDelay := reconnectDelay m; maxReconnectDelay := maxReconnectDelay m;
     isConnecting := v; shouldReconnect := shouldReconnect m;
     pingInterval := pingInterval m; messageQueue := messageQueue m;
     wire := wire m |}.

Definition put_should_reconnect (v : bool) (m : WebSocketManager) : WebSocketManager :=
  {| sockets := sockets m; ws := ws m; reconnectAttempts := reconnectAttempts m;
     maxReconnectAttempts := maxReconnectAttempts m;
     reconnectDelay := reconnectDelay m; maxReconnectDelay := maxReconnectDelay m;
     isConnecting := isConnecting m; shouldReconnect := v;
     pingInterval := pingInterval m; messageQueue := messageQueue m;
     wire := wire m |}.

Definition put_ping (v : bool) (m : WebSocketManager) : WebSocketManager :=
  {| sockets := sockets m; ws := ws m; reconnectAttempts := reconnectAttempts m;
     maxReconnectAttempts := maxReconnectAttempts m;
     reconnectDelay := reconnectDelay m; maxReconnectDelay := maxReconnectDelay m;
     isConnecting := isConnecting m; shouldReconnect := shouldReconnect m;
     pingInterval := v; messageQueue := messageQueue m; wire := wire m |}.

Definition put_queue (q w : list string) (m : WebSocketManager) : WebSocketManager :=
  {| sockets := sockets m; ws := ws m; reconnectAttempts := reconnectAttempts m;
     maxReconnectAttempts := maxReconnectAttempts m;
     reconnectDelay := reconnectDelay m; maxReconnectDelay := maxReconnectDelay m;
     isConnecting := isConnecting m; shouldReconnect := shouldReconnect m;
     pingInterval := pingInterval m; messageQueue := q; wire := w |}.

(** connect(): nothing to do when [this.ws] is open or while an attempt
    is running; otherwise a new socket is created, in state CONNECTING,
    and [this.ws] refers to it from then on. The socket that [this.ws]
    referred to before is left as it is, with its handlers. *)
Definition connect (m : WebSocketManager) : WebSocketManager :=
  if isConnected m then m
  else if isConnecting m then m
  else put_ws (Some (length (sockets m)))
         (put_sockets (sockets m ++ [CONNECTING]) (put_connecting true m)).

(** The loop of flushQueue(): shift and send while the queue is not empty
    and the socket is open. *)
Fixpoint flush_loop (open : bool) (q w : list string) : list string * list string :=
  match q with
  | [] => ([], w)
  | msg :: q' => if open then flush_loop open q' (w ++ [msg]) else (q, w)
  end.

Definition flushQueue (m : WebSocketManager) : WebSocketManager :=
  let qw := flush_loop (isConnected m) (messageQueue m) (wire m) in
  put_queue (fst qw) (snd qw) m.

Definition stopPing (m : WebSocketManager) : WebSocketManager :=
  if pingInterval m then put_ping false m else m.

Definition startPing (m : WebSocketManager) : WebSocketManager := put_ping true (stopPing m).

(** send(type, payload), on the serialized message. *)
Definition send (msg : string) (m : WebSocketManager) : WebSocketManager :=
  if isConnected m then put_queue (messageQueue m) (wire m ++ [msg]) m
  else
    let m1 := put_queue (messageQueue m ++ [msg]) (wire m) m in
    if negb (isConnecting m1) then connect m1 else m1.

(** The handler ws.onopen that connect() gives to every socket. It reads
    and writes the manager, not the socket it belongs to: flushQueue
    sends through [this.ws], whichever socket has opened. *)
Definition onopen (m : WebSocketManager) : WebSocketManager :=
  startPing (flushQueue (put_should_reconnect true (put_attempts 0 (put_connecting false m)))).

(** The delay attemptReconnect() computes, the number
    min(reconnectDelay * 2^reconnectAttempts, maxReconnectDelay); a
    negative exponent gives a fraction. *)
Definition reconnect_delay (m : WebSocketManager) : QArith_base.Q :=
  Qreduction.Qred
    (Qminmax.Qmin
       (QArith_base.Qmult (QArith_base.inject_Z (reconnectDelay m))
          (QArith_base.Qpower (QArith_base.inject_Z 2) (reconnectAttempts m)))
       (QArith_base.inject_Z (maxReconnectDelay m))).

(** attemptReconnect(): [None] when the attempts are used up, else the
    delay of the timer it sets. *)
Definition attemptReconnect (m : WebSocketManager) : option QArith_base.Q :=
  if maxReconnectAttempts m <=? reconnectAttempts m then None
  else Some (reconnect_delay m).

(** The handler ws.onclose of every socket; the result holds the delay
    of the reconnect timer, if one was set. *)
Definition onclose (wasClean : bool) (m : WebSocketManager)
    : WebSocketManager * option QArith_base.Q :=
  let m1 := stopPing (put_connecting false m) in
  if shouldReconnect m1 && negb wasClean then (m1, attemptReconnect m1)
  else (m1, None).

(** The handler ws.onerror of every socket. *)
Definition onerror (m : WebSocketManager) : WebSocketManager := put_connecting false m.

(** The callback of the reconnect timer. *)
Definition reconnect_timer (m : WebSocketManager) : WebSocketManager :=
  connect (put_attempts (reconnectAttempts m + 1) m).

(** ws.close(): a socket that is connecting or open starts to close. *)
Definition close (r : ready_state) : ready_state :=
  match r with
  | CONNECTING | OPEN => CLOSING
  | CLOSING | CLOSED => r
  end.

(** disconnect() *)
Definition disconnect (m : WebSocketManager) : WebSocketManager :=
  let m1 := stopPing (put_should_reconnect false m) in
  match ws m1 with
  | Some s => put_ws None (put_sockets (alter close s (sockets m1)) m1)
  | None => m1
  end.

(** The browser gives socket [s] the readyState [r]. *)
Definition set_ready (s : nat) (r : ready_state) (m : WebSocketManager)
    : WebSocketManager :=
  put_sockets (<[s := r]> (sockets m)) m.

(** What can happen to a manager: calls of its methods, the reconnect
    timer, and what the browser does to a socket [s] it has created. A
    socket opens only while it is connecting, and its handler runs as it
    becomes OPEN; the peer starts to close only a socket that is open;
    a socket is closed once, from any state, and its handler runs as it
    becomes CLOSED; an error on a socket runs its handler. *)
Inductive event : Type :=
| Send (msg : string)
| Connect
| Opened (s : nat)
| Closing (s : nat)
| Closed (s : nat) (wasClean : bool)
| Errored (s : nat)
| TimerFired
| Disconnect.

Definition step (m : WebSocketManager) (e : event) : WebSocketManager :=
  match e with
  | Send msg => send msg m
  | Connect => connect m
  | Opened s =>
      match sockets m !! s with
      | Some CONNECTING => onopen (set_ready s OPEN m)
      | _ => m
      end
  | Closing s =>
      match sockets m !! s with
      | Some OPEN => set_ready s CLOSING m
      | _ => m
      end
  | Closed s c =>
      match sockets m !! s with
      | Some CLOSED | None => m
      | Some _ => fst (onclose c (set_ready s CLOSED m))
      end
  | Errored s =>
      match sockets m !! s with
      | Some _ => onerror m
      | None => m
      end
  | TimerFired => reconnect_timer m
  | Disconnect => disconnect m
  end.

Definition steps (l : list event) (m : WebSocketManager) : WebSocketManager := fold_left step l m.

End Ws.

(** ** The session dialog of the dashboard *)

Module Board.

Inductive action : Type :=
| Start | Pause | Resume | Approve | Deny | Complete | Fail.

(** The buttons of the session detail dialog, each under its [v-if]. *)
Definition modal_actions (state : string) : list action :=
  (if String.eqb state "idle" then [Start] else [])
  ++ (if String.eqb state "working" then [Pause] else [])
  ++ (if String.eqb state "paused" then [Resume] else [])
  ++ (if String.eqb state "waiting_for_approval" then [Approve] else [])
  ++ (if String.eqb state "waiting_for_approval" then [Deny] else [])
  ++ (if String.eqb state "working" then [Complete] else [])
  ++ (if existsb (String.eqb state) ["working"; "paused"] then [Fail] else []).

End Board.

(** ** The item transition table, as the specification words it *)

Module Lifecycle.

(** The six values the CHECK constraint of [status] lists. *)
Inductive item_status : Type :=
| Open | NeedsClarification | InProgress | Blocked | Done | Cancelled.

Definition status_name (s : item_status) : string :=
  match s with
  | Open => "open"
  | NeedsClarification => "needs_clarification"
  | InProgress => "in_progress"
  | Blocked => "blocked"
  | Done => "done"
  | Cancelled => "cancelled"
  end.

Definition all_statuses : list item_status :=
  [Open; NeedsClarification; InProgress; Blocked; Done; Cancelled].

Definition parse_status (s : string) : option item_status :=
  find (λ t, String.eqb (status_name t) s) all_statuses.

Definition terminal (s : item_status) : bool :=
  match s with Done | Cancelled => true | _ => false end.

(** Modelled from the spec: the transition table of section 4.1, which no
    source file holds. open → needs_clarification → in_progress → blocked
    → done, blocked ⇄ in_progress, cancelled from any non-terminal state,
    and cancelled → open as the one way out of a terminal state. *)
Definition legal_transition (from to : item_status) : bool :=
  match from, to with
  | Open, NeedsClarification
  | NeedsClarification, InProgress
  | InProgress, Blocked
  | Blocked, Done
  | Blocked, InProgress => true
  | Cancelled, Open => true
  | _, Cancelled => negb (terminal from)
  | _, _ => false
  end.

End Lifecycle.

(** ** Operations of the engine that no source file holds *)

Module Engine.

(** Modelled from the spec: the error taxonomy of section 7, which no
    source file declares. *)
Inductive error : Type :=
| NotFound
| Conflict
| InvalidTransition
| ValidationError
| StoreUnavailable.

(** Modelled from the spec: an operation returns its outcome and the
    database it leaves; a failed one leaves it as it was (section 7). *)
Definition op (A : Type) : Type := db → result error A * db.













End Engine.

(** ** The session state machine, which no source file holds *)

Module Session.

(** Modelled from the spec: the session states of section 4.4; the
    dashboard shows them as text. *)
Inductive state : Type :=
| idle | working | waiting_for_approval | waiting_for_input | paused
| completed | failed.

Definition state_name (s : state) : string :=
  match s with
  | idle => "idle"
  | working => "working"
  | waiting_for_approval => "waiting_for_approval"
  | waiting_for_input => "waiting_for_input"
  | paused => "paused"
  | completed => "completed"
  | failed => "failed"
  end.

Definition terminal (s : state) : bool :=
  match s with completed | failed => true | _ => false end.

(** Modelled from the spec: the Session of section 3, with the fields the
    contract of section 4.4 reads or writes. *)
Record session : Type := {
  project_id : string;
  agent_type : string;
  goal : string;
  session_state : state;
  session_result : option string;
  session_error : option string
}.

(** Modelled from the spec: a transition writes the new state and, when
    given, the result or the error. *)
Definition move (s : state) (res err : option string) (x : session) : session :=
  {| project_id := project_id x; agent_type := agent_type x; goal := goal x;
     session_state := s;
     session_result := match res with Some _ => res | None => session_result x end;
     session_error := match err with Some _ => err | None => session_error x end |}.

(** Modelled from the spec: the operations of the contract of section
    4.4. *)
Inductive request : Type :=
| StartSession
| RequestApproval (reason : string)
| ResolveApproval (approved : bool) (reason : option string)
| PauseSession
| ResumeSession
| CompleteSession (res : option string)
| FailSession (err : option string).

(** Modelled from the spec: the contract of section 4.4, whose handlers
    (/kanban/sessions/{id}/start, /pause, /resume, /approval, /complete,
    /fail) are not among the source files; the dashboard only calls them.
    start is legal only from idle; requestApproval moves working to
    waiting_for_approval; resolveApproval is legal only from
    waiting_for_approval and moves to working or to failed; pause and
    resume toggle between working and paused; complete and fail are legal
    from any non-terminal state. *)
Definition transition (x : session) (r : request) : result Engine.error session :=
  match r, session_state x with
  | StartSession, idle => Ok (move working None None x)
  | RequestApproval _, working => Ok (move waiting_for_approval None None x)
  | ResolveApproval true _, waiting_for_approval => Ok (move working None None x)
  | ResolveApproval false reason, waiting_for_approval => Ok (move failed None reason x)
  | PauseSession, working => Ok (move paused None None x)
  | ResumeSession, paused => Ok (move working None None x)
  | CompleteSession res, s =>
      if terminal s then Err Engine.InvalidTransition
      else Ok (move completed res None x)
  | FailSession err, s =>
      if terminal s then Err Engine.InvalidTransition
      else Ok (move failed None err x)
  | _, _ => Err Engine.InvalidTransition
  end.

(** Modelled from the spec: create(session_id, project_id, goal,
    agent_type) fails with Conflict when the id exists. *)
Definition create (sid pid g agent : string) (t : gmap string session)
    : result Engine.error (gmap string session) :=
  match t !! sid with
  | Some _ => Err Engine.Conflict
  | None =>
      Ok (<[sid := {| project_id := pid; agent_type := agent; goal := g;
                      session_state := idle; session_result := None;
                      session_error := None |}]> t)
  end.

(** Modelled from the spec: a request on the session stored under [sid],
    one write of the row or none (section 4.4); the handler is not among
    the source files. *)
Definition handle (sid : string) (r : request) (t : gmap string session)
    : result Engine.error (gmap string session) :=
  match t !! sid with
  | None => Err Engine.NotFound
  | Some x =>
      match transition x r with
      | Ok x' => Ok (<[sid := x']> t)
      | Err e => Err e
      end
  end.

(** Modelled from the spec: the table after a request, left as it was
    when the request fails (section 7). *)
Definition after (sid : string) (r : request) (t : gmap string session)
    : gmap string session :=
  match handle sid r t with
  | Ok t' => t'
  | Err _ => t
  end.

(** The request a button of the session dialog sends. *)
Definition request_of (a : Board.action) : request :=
  match a with
  | Board.Start => StartSession
  | Board.Pause => PauseSession
  | Board.Resume => ResumeSession
  | Board.Approve => ResolveApproval true None
  | Board.Deny => ResolveApproval false (Some "Denied by user")
  | Board.Complete => CompleteSession None
  | Board.Fail => FailSession None
  end.

End Session.

(** ** The Broadcast Hub, which no source file holds *)

Module Hub.

Section Hub.

(** Modelled from the spec: the bound of an observer's queue. Section 5
    says the queue is bounded and names no number, so the number is
    left open. *)
Variable bound : nat.

(** Modelled from the spec: the change notifications of section 4.5, the
    store that writes act on, the writes, what a write does to the store
    ([None] when it fails), and the notification of a successful write,
    which carries a snapshot of what it wrote. *)
Context {N S W : Type}.
Variable write : W → S → option S.
Variable notification : W → S → N.

(** Modelled from the spec: the hub keeps, for each connected observer,
    the queue of the notifications not yet delivered to it, oldest
    first (section 5); the hub itself is no source file. *)
#[local] Abbreviation hub := (gmap nat (list N)).

(** Modelled from the spec: no observer is connected at the start. *)
Definition empty : hub := ∅.

(** Modelled from the spec: an observer that connects is handed a full
    snapshot at once and receives notifications from then on (section
    4.5), so its queue starts empty; connecting again starts afresh. *)
Definition connect (o : nat) (h : hub) : hub := <[o := []]> h.

(** Modelled from the spec: a notification is pushed to an observer's
    queue while the queue has room; an observer whose queue is full is
    slow and is dropped, not waited for (section 5). *)
Definition offer (n : N) (q : list N) : option (list N) :=
  if (length q <? bound)%nat then Some (q ++ [n]) else None.

(** Modelled from the spec: a notification is pushed to all currently
    connected observers (section 4.5). *)
Definition publish (n : N) (h : hub) : hub := omap (offer n) h.

(** Modelled from the spec: the oldest notification of an observer's
    queue is delivered to it. *)
Definition deliver (o : nat) (h : hub) : hub := alter (drop 1) o h.

(** Modelled from the spec: an observer disconnects. *)
Definition disconnect (o : nat) (h : hub) : hub := delete o h.

(** Modelled from the spec: a write is applied to the store and, when it
    succeeds, produces one notification for the hub (section 4.5); it
    reads nothing of the hub. A failed write changes nothing. *)
Definition commit (w : W) (st : S * hub) : S * hub :=
  match write w (fst st) with
  | Some s' => (s', publish (notification w s') (snd st))
  | None => st
  end.

(** Modelled from the spec: what happens to the store and the hub, in
    any order: writes, and observers that connect, take a notification
    or disconnect. *)
Inductive event : Type :=
| Write (w : W)
| Connect (o : nat)
| Deliver (o : nat)
| Disconnect (o : nat).

(** Modelled from the spec: one such happening, acting on the store
    and the hub. *)
Definition step (st : S * hub) (e : event) : S * hub :=
  match e with
  | Write w => commit w st
  | Connect o => (fst st, connect o (snd st))
  | Deliver o => (fst st, deliver o (snd st))
  | Disconnect o => (fst st, disconnect o (snd st))
  end.

(** Modelled from the spec: a run, the happenings in the order in which
    they take place. *)
Definition run (l : list event) (st : S * hub) : S * hub := fold_left step l st.

(** Modelled from the spec: the store after the writes of a run alone,
    with no hub and no observer. *)
Definition apply_write (s : S) (e : event) : S :=
  match e with
  | Write w => default s (write w s)
  | _ => s
  end.

(** Modelled from the spec: the store that the writes of a run make when
    nothing else takes place. *)
Definition writes_only (l : list event) (s : S) : S := fold_left apply_write l s.

End Hub.

End Hub.

(** ** Notions the properties are stated with *)

(** The row an UPDATE stores once its triggers have run. *)
Definition stored_row (now : datetime) (p : item_patch) (old : backlog_item)
    : backlog_item :=
  let new := apply_patch p old in
  set_updated_at (Some now)
    (if is_set (p_status p)
        && (String.eqb (status new) "done" && negb (String.eqb (status old) "done"))
     then set_completed_at (Some now) new
     else new).

(** The events the two logging triggers append for one updated row,
    trg_log_priority_change running before trg_log_status_change. *)
Definition logged_events (now : datetime) (rid : Z) (p : item_patch)
    (old : backlog_item) (base : list backlog_event) : list backlog_event :=
  let new := apply_patch p old in
  let d0 := {| backlog_items := ∅; backlog_items_seq := 0; backlog_events := base;
               clarifications := ∅; clarifications_seq := 0 |} in
  let d1 := if is_set (p_priority p) then trg_log_priority_change now rid old new d0 else d0 in
  let d2 := if is_set (p_status p) then trg_log_status_change now rid old new d1 else d1 in
  drop (length base) (backlog_events d2).

(** [r'] is [r] in every column but [updated_at]. *)
Definition same_but_updated_at (r r' : backlog_item) : Prop :=
  external_id r' = external_id r ∧ title r' = title r
  ∧ description r' = description r ∧ category r' = category r
  ∧ secondary_tags r' = secondary_tags r ∧ priority r' = priority r
  ∧ item_type r' = item_type r ∧ status r' = status r
  ∧ next_action r' = next_action r ∧ estimated_effort r' = estimated_effort r
  ∧ dependencies r' = dependencies r ∧ source_channel r' = source_channel r
  ∧ source_message_ts r' = source_message_ts r ∧ source_user r' = source_user r
  ∧ created_at r' = created_at r ∧ completed_at r' = completed_at r
  ∧ llm_confidence r' = llm_confidence r ∧ raw_input r' = raw_input r.

(** What the constraints of [backlog_items] keep true of the table: the
    rowids handed out lie in 1..seq, every row passes the CHECKs, and no
    two rows share an external id. *)
Record consistent (d : db) : Prop := {
  seq_nonneg : 0 ≤ backlog_items_seq d;
  keys_in_range : ∀ k r, backlog_items d !! k = Some r → 1 ≤ k ≤ backlog_items_seq d;
  rows_checked : ∀ k r, backlog_items d !! k = Some r → check_item r = true;
  ext_unique : ∀ k1 k2 r1 r2,
    backlog_items d !! k1 = Some r1 → backlog_items d !! k2 = Some r2 →
    external_id r1 = external_id r2 → k1 = k2
}.

(** No item is done with [completed_at] unset. *)
Definition done_dated (d : db) : Prop :=
  ∀ k r, backlog_items d !! k = Some r → status r = "done" → is_Some (completed_at r).

(** Statements that leave [completed_at] to the trigger: an INSERT does
    not create an item in status done without it, an UPDATE does not
    name it in its SET list. *)
Definition tidy (s : stmt) : bool :=
  match s with
  | InsertItem _ v =>
      negb (String.eqb (default "open" (i_status v)) "done") || is_set (i_completed_at v)
  | UpdateItem _ _ p => negb (is_set (p_completed_at p))
  end.

(** The rows the two logging triggers insert, under the id [i]. *)
Definition status_changed_event (now : datetime) (rid : Z) (old new : backlog_item)
    (i : Z) : backlog_event :=
  {| ev_id := i; item_id := rid; ev_external_id := external_id new;
     event_type := "status_changed";
     event_data := Some [("old_status", status old); ("new_status", status new)];
     actor_type := "system"; actor_id := None; ev_created_at := Some now |}.

Definition priority_changed_event (now : datetime) (rid : Z) (old new : backlog_item)
    (i : Z) : backlog_event :=
  {| ev_id := i; item_id := rid; ev_external_id := external_id new;
     event_type := "priority_changed";
     event_data := Some [("old_priority", priority old); ("new_priority", priority new)];
     actor_type := "system"; actor_id := None; ev_created_at := Some now |}.

(** The session of the scenario of section 8, once created, started and
    waiting for approval. *)
Definition scenario_session (s : Session.state) : Session.session :=
  {| Session.project_id := "proj-x"; Session.agent_type := "code";
     Session.goal := "Refactor auth"; Session.session_state := s;
     Session.session_result := None; Session.session_error := None |}.

Definition scenario_sessions : gmap string Session.session :=
  Session.after "s1" (Session.RequestApproval "destructive rename")
    (Session.after "s1" Session.StartSession
       (<["s1" := scenario_session Session.idle]> ∅)).

(** Every status that a status_changed event records as the old one is
    one of the six of the CHECK constraint. *)
Definition status_log_valid (d : db) : Prop :=
  ∀ e s, e ∈ backlog_events d → event_type e = "status_changed" →
         event_field "old_status" e = Some s →
         is_set (Lifecycle.parse_status s) = true.

Definition sound (d : db) : Prop := consistent d ∧ status_log_valid d.

(** [d'] follows [d] with every row of [backlog_items] still in place
    and the constraints of the table still true. *)
Definition keeps_items (d d' : db) : Prop :=
  (sound d → sound d')
  ∧ (∀ k, is_Some (backlog_items d !! k) → is_Some (backlog_items d' !! k)).

(** * More of the schema *)

(** UPDATE backlog_items SET priority = q, and SET estimated_effort = v. *)
Definition set_priority_to (q : string) : item_patch :=
  {| p_external_id := None; p_title := None; p_description := None;
     p_category := None; p_secondary_tags := None; p_priority := Some q;
     p_item_type := None; p_status := None; p_next_action := None;
     p_estimated_effort := None; p_dependencies := None;
     p_source_channel := None; p_source_message_ts := None;
     p_source_user := None; p_created_at := None; p_updated_at := None;
     p_completed_at := None; p_llm_confidence := None; p_raw_input := None |}.

Definition set_effort_to (v : option string) : item_patch :=
  {| p_external_id := None; p_title := None; p_description := None;
     p_category := None; p_secondary_tags := None; p_priority := None;
     p_item_type := None; p_status := None; p_next_action := None;
     p_estimated_effort := Some v; p_dependencies := None;
     p_source_channel := None; p_source_message_ts := None;
     p_source_user := None; p_created_at := None; p_updated_at := None;
     p_completed_at := None; p_llm_confidence := None; p_raw_input := None |}.

(** ** The view v_daily_stats *)

Module DailyStats.

(** DATE(created_at), as the number of the day; NULL for NULL. *)
Definition date_of (t : option datetime) : option Z := (λ x, x / 86400) <$> t.

(** SUM(CASE WHEN cond THEN 1 ELSE 0 END) over the rows of a group. *)
Definition sum_case (cond : backlog_item → bool) (rows : list backlog_item) : Z :=
  foldr (λ r acc, (if cond r then 1 else 0) + acc) 0 rows.

Record daily_stats_row : Type := {
  date : option Z;
  items_created : Z;
  items_completed : Z;
  p0_items : Z;
  p1_items : Z
}.

(** The rows of one group of GROUP BY DATE(created_at). *)
Definition group_of (g : option Z) (rows : list backlog_item) : list backlog_item :=
  List.filter (λ r, bool_decide (date_of (created_at r) = g)) rows.

Definition stats_of (g : option Z) (rows : list backlog_item) : daily_stats_row :=
  {| date := g;
     items_created := Z.of_nat (length (group_of g rows));
     items_completed := sum_case (λ r, String.eqb (status r) "done") (group_of g rows);
     p0_items := sum_case (λ r, String.eqb (priority r) "P0") (group_of g rows);
     p1_items := sum_case (λ r, String.eqb (priority r) "P1") (group_of g rows) |}.

(** SELECT ... FROM backlog_items GROUP BY DATE(created_at) ORDER BY date
    DESC: one row for each date that occurs, NULL last. *)
Definition v_daily_stats (d : db) : list daily_stats_row :=
  let rows := map snd (table_scan (backlog_items d)) in
  order_by (λ a b, null_first_leb (date b) (date a))
    (map (λ g, stats_of g rows)
         (remove_dups (map (λ r, date_of (created_at r)) rows))).

Definition total (f : daily_stats_row → Z) (l : list daily_stats_row) : Z :=
  foldr (λ r acc, f r + acc) 0 l.

End DailyStats.

(** ** The table system_metrics and its cleanup trigger *)

Module Metrics.

Record system_metric : Type := {
  cpu_percent : QArith_base.Q;
  memory_percent : QArith_base.Q;
  memory_used_gb : option QArith_base.Q;
  disk_percent : QArith_base.Q;
  disk_used_gb : option QArith_base.Q;
  gpu_percent : option QArith_base.Q;
  gpu_memory_percent : option QArith_base.Q;
  gpu_temp : option Z;
  recorded_at : option datetime
}.

Record table : Type := {
  system_metrics : gmap Z system_metric;
  system_metrics_seq : Z
}.

Definition empty_table : table := {| system_metrics := ∅; system_metrics_seq := 0 |}.

(** The VALUES of an INSERT; [recorded_at] falls back to
    CURRENT_TIMESTAMP when it is left out. *)
Record metric_insert : Type := {
  m_cpu_percent : QArith_base.Q;
  m_memory_percent : QArith_base.Q;
  m_memory_used_gb : option QArith_base.Q;
  m_disk_percent : QArith_base.Q;
  m_disk_used_gb : option QArith_base.Q;
  m_gpu_percent : option QArith_base.Q;
  m_gpu_memory_percent : option QArith_base.Q;
  m_gpu_temp : option Z;
  m_recorded_at : option (option datetime)
}.

Definition inserted_metric (now : datetime) (v : metric_insert) : system_metric :=
  {| cpu_percent := m_cpu_percent v; memory_percent := m_memory_percent v;
     memory_used_gb := m_memory_used_gb v; disk_percent := m_disk_percent v;
     disk_used_gb := m_disk_used_gb v; gpu_percent := m_gpu_percent v;
     gpu_memory_percent := m_gpu_memory_percent v; gpu_temp := m_gpu_temp v;
     recorded_at := default (Some now) (m_recorded_at v) |}.

(** recorded_at < datetime('now', '-24 hours'); NULL compares as NULL, so
    a row without timestamp is not selected. *)
Definition older_than_a_day (now : datetime) (r : system_metric) : bool :=
  match recorded_at r with
  | Some t => t <? now - 86400
  | None => false
  end.

(** trg_cleanup_old_metrics: DELETE FROM system_metrics WHERE recorded_at
    < datetime('now', '-24 hours'). *)
Definition trg_cleanup_old_metrics (now : datetime) (t : table) : table :=
  {| system_metrics :=
       filter (λ kr, older_than_a_day now (snd kr) = false) (system_metrics t);
     system_metrics_seq := system_metrics_seq t |}.

(** INSERT INTO system_metrics, followed by its AFTER INSERT trigger. *)
Definition sql_insert_metric (now : datetime) (v : metric_insert) (t : table) : table :=
  trg_cleanup_old_metrics now
    {| system_metrics :=
         <[system_metrics_seq t + 1 := inserted_metric now v]> (system_metrics t);
       system_metrics_seq := system_metrics_seq t + 1 |}.

(** A script of inserts, each at its time. *)
Definition record_all (l : list (datetime * metric_insert)) (t : table) : table :=
  fold_left (λ acc nv, sql_insert_metric (fst nv) (snd nv) acc) l t.

End Metrics.

(** The ids of the logged events count up from 1 in the order of the
    log. *)
Definition ids_consecutive (d : db) : Prop :=
  ∀ (i : nat) e, backlog_events d !! i = Some e → ev_id e = Z.of_nat i + 1.

(** Every logged event was written by a trigger for an item that is
    stored. *)
Definition log_refers_to_items (d : db) : Prop :=
  ∀ e, e ∈ backlog_events d →
       is_Some (backlog_items d !! item_id e)
       ∧ actor_type e = "system"
       ∧ (event_type e = "status_changed" ∨ event_type e = "priority_changed")
       ∧ ev_created_at e ≠ None.

(** A sample of the monitor: the required columns, the timestamp left to
    its default. *)
Definition sample_metric (cpu : Z) : Metrics.metric_insert :=
  {| Metrics.m_cpu_percent := QArith_base.Qmake cpu 1;
     Metrics.m_memory_percent := QArith_base.Qmake 40 1;
     Metrics.m_memory_used_gb := None;
     Metrics.m_disk_percent := QArith_base.Qmake 70 1;
     Metrics.m_disk_used_gb := None; Metrics.m_gpu_percent := None;
     Metrics.m_gpu_memory_percent := None; Metrics.m_gpu_temp := None;
     Metrics.m_recorded_at := None |}.

(** * EventBus (event-bus.js) *)

Module Bus.

(** A callback is a function object, known by its identity. [Fn f] is a
    function handed to the bus from outside. [OnceWrapper w event f] is
    the [w]-th wrapper that once(event, f) has created: it unsubscribes
    itself from [event] and calls [f]. *)
Inductive callback : Type :=
| Fn (f : nat)
| OnceWrapper (w : nat) (event : string) (f : nat).

#[global] Instance callback_eq_dec : EqDecision callback := ltac:(solve_decision).

(** [listeners] is the Map from event names to Sets of callbacks. A Set
    is an object: the Map holds a reference to it, and a forEach that is
    running keeps its Set when the Map has dropped it. [sets] is the
    store of the Set objects. A Set is kept as ECMAScript keeps it, the
    list of its entries in insertion order in which a deleted entry
    stays as an empty one. [closures] counts the wrappers created so
    far. *)
Record EventBus : Type := {
  listeners : gmap string nat;
  sets : gmap nat (list (option callback));
  closures : nat
}.

Definition new_bus : EventBus := {| listeners := ∅; sets := ∅; closures := 0 |}.

(** The entries of a Set object, and the values among them. *)
Definition entries (s : nat) (b : EventBus) : list (option callback) :=
  default [] (sets b !! s).

Definition values (l : list (option callback)) : list callback := omap id l.

(** The callbacks in the Set stored under [event], none when the Map has
    no such key. *)
Definition subscribers (event : string) (b : EventBus) : list callback :=
  match listeners b !! event with
  | Some s => values (entries s b)
  | None => []
  end.

(** Set.prototype.add appends a value that is not in the Set;
    Set.prototype.delete empties the entry of the value. *)
Definition set_add (c : callback) (l : list (option callback)) : list (option callback) :=
  if decide (Some c ∈ l) then l else l ++ [Some c].

Definition set_delete (c : callback) (l : list (option callback)) : list (option callback) :=
  map (λ x, if decide (x = Some c) then None else x) l.

(** new Set(): an object that nothing refers to yet. *)
Definition new_set (b : EventBus) : nat :=
  fresh (dom (sets b) ∪ map_img (listeners b) : gset nat).

(** on(event, callback) *)
Definition on (event : string) (c : callback) (b : EventBus) : EventBus :=
  let b1 := match listeners b !! event with
            | Some _ => b
            | None => {| listeners := <[event := new_set b]> (listeners b);
                         sets := <[new_set b := []]> (sets b);
                         closures := closures b |}
            end in
  match listeners b1 !! event with
  | Some s => {| listeners := listeners b1;
                 sets := <[s := set_add c (entries s b1)]> (sets b1);
                 closures := closures b1 |}
  | None => b1
  end.

(** off(event, callback) *)
Definition off (event : string) (c : callback) (b : EventBus) : EventBus :=
  match listeners b !! event with
  | Some s => {| listeners := listeners b;
                 sets := <[s := set_delete c (entries s b)]> (sets b);
                 closures := closures b |}
  | None => b
  end.

(** once(event, callback) *)
Definition once (event : string) (f : nat) (b : EventBus) : EventBus :=
  on event (OnceWrapper (closures b) event f)
     {| listeners := listeners b; sets := sets b; closures := S (closures b) |}.

(** A JavaScript string is truthy unless it is empty; undefined is not. *)
Definition truthy (s : option string) : bool :=
  match s with
  | Some x => negb (String.eqb x "")
  | None => false
  end.

(** clear(event): the Map drops its references, the Sets stay as they
    are. *)
Definition clear (event : option string) (b : EventBus) : EventBus :=
  if truthy event
  then {| listeners := delete (default "" event) (listeners b);
          sets := sets b;
          closures := closures b |}
  else {| listeners := ∅; sets := sets b; closures := closures b |}.

(** listenerCount(event) *)
Definition listenerCount (event : string) (b : EventBus) : nat :=
  match listeners b !! event with
  | Some s => length (values (entries s b))
  | None => 0%nat
  end.

(** What a callback is called with: the data of the event, or, for a
    listener of '*', the object { event, data }. *)
Inductive argument (D : Type) : Type :=
| Data (d : D)
| EventAndData (event : string) (d : D).
Arguments Data {D} d.
Arguments EventAndData {D} event d.

(** The calls on the bus; the function that on returns for unsubscribing
    is [Off] with the same arguments. *)
Inductive request (D : Type) : Type :=
| On (event : string) (f : nat)
| Off (event : string) (f : nat)
| Once (event : string) (f : nat)
| Emit (event : string) (data : D)
| Clear (event : option string).
Arguments On {D} event f.
Arguments Off {D} event f.
Arguments Once {D} event f.
Arguments Emit {D} event data.
Arguments Clear {D} event.

(** What is running: a call on the bus, a sequence of such calls, the
    call of a callback, or the rest of a forEach over the Set object [s]
    from the entry [i] on. *)
Inductive task (D : Type) : Type :=
| Request (r : request D)
| Script (l : list (request D))
| Invoke (c : callback) (a : argument D)
| ForEach (s : nat) (i : nat) (a : argument D).
Arguments Request {D} r.
Arguments Script {D} l.
Arguments Invoke {D} c a.
Arguments ForEach {D} s i a.

Section Listeners.

Context {D : Type}.

(** A function that is subscribed may call the bus while it runs, as
    the routers of app.js do: [body f a] is the sequence of calls that
    the function [f] makes on the bus when it is called with [a]. A
    function that throws has made the calls before the throw, and emit
    catches what it throws. *)
Variable body : nat → argument D → list (request D).

(** The bus that a task leaves and the functions that ran, each with its
    argument, in the order in which they were entered. [fuel] bounds the
    depth of the calls: listeners that emit to one another without end
    run out of it.

    Set.prototype.forEach reads the entries by index and reads the
    length anew after every call, so it skips a callback that was
    deleted before its turn and reaches one that was added during the
    loop. emit looks up the Set of '*' after the listeners of the event
    have run. *)
Fixpoint run (fuel : nat) (t : task D) (b : EventBus)
    : option (EventBus * list (nat * argument D)) :=
  match fuel with
  | O => None
  | S n =>
      match t with
      | Request (On event f) => Some (on event (Fn f) b, [])
      | Request (Off event f) => Some (off event (Fn f) b, [])
      | Request (Once event f) => Some (once event f b, [])
      | Request (Clear event) => Some (clear event b, [])
      | Request (Emit event data) =>
          r1 ← match listeners b !! event with
               | Some s => run n (ForEach s 0 (Data data)) b
               | None => Some (b, [])
               end;
          r2 ← match listeners (fst r1) !! "*" with
               | Some s => run n (ForEach s 0 (EventAndData event data)) (fst r1)
               | None => Some (fst r1, [])
               end;
          Some (fst r2, snd r1 ++ snd r2)
      | Script [] => Some (b, [])
      | Script (r :: l) =>
          r1 ← run n (Request r) b;
          r2 ← run n (Script l) (fst r1);
          Some (fst r2, snd r1 ++ snd r2)
      | Invoke (Fn f) a =>
          r ← run n (Script (body f a)) b;
          Some (fst r, (f, a) :: snd r)
      | Invoke (OnceWrapper w event f) a =>
          run n (Invoke (Fn f) a) (off event (OnceWrapper w event f) b)
      | ForEach s i a =>
          match entries s b !! i with
          | None => Some (b, [])
          | Some None => run n (ForEach s (S i) a) b
          | Some (Some c) =>
              r1 ← run n (Invoke c a) b;
              r2 ← run n (ForEach s (S i) a) (fst r1);
              Some (fst r2, snd r1 ++ snd r2)
          end
      end
  end.

(** emit(event, data) *)
Definition emit (fuel : nat) (event : string) (data : D) (b : EventBus)
    : option (EventBus * list (nat * argument D)) :=
  run fuel (Request (Emit event data)) b.

(** The function that runs in the end when a callback is called. *)
Definition target (c : callback) : nat :=
  match c with Fn f => f | OnceWrapper _ _ f => f end.

(** The callbacks of [l] make no call on the bus when they are called
    with [a]. *)
Definition quiet (a : argument D) (l : list callback) : bool :=
  forallb (λ c, match body (target c) a with [] => true | _ :: _ => false end) l.

End Listeners.

Definition is_wrapper (c : callback) : bool :=
  match c with Fn _ => false | OnceWrapper _ _ _ => true end.

(** In a bus that calls of its methods have built, no two keys of the
    Map share a Set, and a wrapper sits under the event it was created
    for and is one of the wrappers created so far. *)
Definition well_formed (b : EventBus) : Prop :=
  (∀ k1 k2 s, listeners b !! k1 = Some s → listeners b !! k2 = Some s → k1 = k2)
  ∧ ∀ k, NoDup (subscribers k b)
         ∧ ∀ w e f, OnceWrapper w e f ∈ subscribers k b → e = k ∧ (w < closures b)%nat.

(** The callbacks of a Set that are not wrappers of once, and the calls
    that running a Set on one argument makes when no callback calls the
    bus. *)
Definition lasting (l : list callback) : list callback :=
  List.filter (λ c, negb (is_wrapper c)) l.

Definition calls_of {D : Type} (l : list callback) (a : argument D)
    : list (nat * argument D) :=
  map (λ c, (target c, a)) l.

(** The listeners of '*' that are left when the listeners of [event]
    have run and none of them has called the bus: emitting '*' itself
    has used up the wrappers of once by then. *)
Definition wildcards (event : string) (b : EventBus) : list callback :=
  if decide (event = "*") then lasting (subscribers "*" b) else subscribers "*" b.

(** Listeners to run the bus with: the function 9 emits 'routed' with
    the data it is called with, the way the routers of app.js pass a
    message on; no other function calls the bus. *)
Definition sample_listeners (f : nat) (a : argument nat) : list (request nat) :=
  match a with
  | Data d => if (f =? 9)%nat then [Emit "routed" d] else []
  | EventAndData _ _ => []
  end.

Definition sample_history : list (request nat) :=
  [On "x" 1%nat; Once "x" 2%nat; On "*" 3%nat; On "z" 9%nat; On "routed" 4%nat;
   Emit "z" 5%nat; Off "routed" 4%nat].

Definition sample_bus : EventBus :=
  default new_bus (fst <$> run sample_listeners 20 (Script sample_history) new_bus).

End Bus.

(** ** handleMessage of the WebSocket manager *)

Module Incoming.

(** A parsed message, of which handleMessage reads [type] and
    [payload]; either may be missing. *)
Record message : Type := {
  type : option string;
  payload : option string
}.

(** The values handleMessage emits: a payload, or the whole message. *)
Inductive value : Type :=
| Payload (p : option string)
| Message (m : message).

(** handleMessage(data) *)
Definition handleMessage (body : nat → Bus.argument value → list (Bus.request value))
    (fuel : nat) (data : message) (b : Bus.EventBus)
    : option (Bus.EventBus * list (nat * Bus.argument value)) :=
  if bool_decide (type data = Some "pong") then Some (b, [])
  else if Bus.truthy (type data)
  then r1 ← Bus.emit body fuel (String.append "ws:" (default "" (type data)))
                     (Payload (payload data)) b;
       r2 ← Bus.emit body fuel "ws:message" (Message data) (fst r1);
       Some (fst r2, snd r1 ++ snd r2)
  else Some (b, []).

(** The listeners that setupEventListeners of app.js subscribes for
    routing: the function 0 under 'ws:service_status', 1 under
    'ws:metrics' and 2 under 'ws:chat_token', each emitting another
    event with the data it is called with. The other functions are
    taken not to call the bus. *)
Definition routers (f : nat) (a : Bus.argument value) : list (Bus.request value) :=
  match a with
  | Bus.Data d =>
      match f with
      | 0%nat => [Bus.Emit "service:status_update" d]
      | 1%nat => [Bus.Emit "system:metrics_update" d]
      | 2%nat => [Bus.Emit "chat:token" d]
      | _ => []
      end
  | Bus.EventAndData _ _ => []
  end.

Definition setupEventListeners : list (Bus.request value) :=
  [Bus.On "ws:service_status" 0%nat; Bus.On "ws:metrics" 1%nat;
   Bus.On "ws:chat_token" 2%nat].

(** The bus of the dashboard with two more listeners, neither calling
    the bus: 7 under '*' and 8 under 'system:metrics_update'. *)
Definition sample_bus : Bus.EventBus :=
  default Bus.new_bus
    (fst <$> Bus.run routers 10
               (Bus.Script (setupEventListeners
                            ++ [Bus.On "*" 7%nat; Bus.On "system:metrics_update" 8%nat]))
               Bus.new_bus).

End Incoming.

(** ** More of the WebSocket manager *)

(** The messages that the events of a run hand to send, in order. *)
Definition sent_messages (l : list Ws.event) : list string :=
  omap (λ e, match e with Ws.Send msg => Some msg | _ => None end) l.

(** No message waits in the queue while [this.ws] is open. *)
Definition queue_waits (m : Ws.WebSocketManager) : Prop :=
  Ws.isConnected m = false ∨ Ws.messageQueue m = [].

(** One failed round: the socket of the manager closes uncleanly, its
    handler runs and, if attemptReconnect has set its timer, the timer
    fires. *)
Definition failed_round (m : Ws.WebSocketManager) : Ws.WebSocketManager :=
  let m0 := match Ws.ws m with
            | Some s => Ws.set_ready s Ws.CLOSED m
            | None => m
            end in
  match Ws.onclose false m0 with
  | (m1, Some _) => Ws.reconnect_timer m1
  | (m1, None) => m1
  end.

Fixpoint failed_rounds (n : nat) (m : Ws.WebSocketManager) : Ws.WebSocketManager :=
  match n with
  | O => m
  | S n' => failed_rounds n' (failed_round m)
  end.

(** The events of a manager run that are the opening of a socket. *)
Definition socket_opened (e : Ws.event) : bool :=
  match e with Ws.Opened _ => true | _ => false end.

(** * The single-page dashboard (part_005) *)

(** ** WebSocketService *)

Module Service.

(** [listeners] maps an event name to the array of its callbacks, a
    callback being known by its identity; [wire] lists what was handed
    to [ws.send]. The callbacks are taken to return normally. *)
Record WebSocketService : Type := {
  ws : option Ws.ready_state;
  listeners : gmap string (list nat);
  reconnectAttempts : Z;
  maxReconnectAttempts : Z;
  wire : list string
}.

Definition constructor : WebSocketService :=
  {| ws := None; listeners := ∅; reconnectAttempts := 0;
     maxReconnectAttempts := 5; wire := [] |}.

Definition put_ws (v : option Ws.ready_state) (s : WebSocketService) : WebSocketService :=
  {| ws := v; listeners := listeners s; reconnectAttempts := reconnectAttempts s;
     maxReconnectAttempts := maxReconnectAttempts s; wire := wire s |}.

Definition put_attempts (v : Z) (s : WebSocketService) : WebSocketService :=
  {| ws := ws s; listeners := listeners s; reconnectAttempts := v;
     maxReconnectAttempts := maxReconnectAttempts s; wire := wire s |}.

Definition put_listeners (v : gmap string (list nat)) (s : WebSocketService)
    : WebSocketService :=
  {| ws := ws s; listeners := v; reconnectAttempts := reconnectAttempts s;
     maxReconnectAttempts := maxReconnectAttempts s; wire := wire s |}.

(** connect(): a new socket, whatever the old one does. *)
Definition connect (s : WebSocketService) : WebSocketService :=
  put_ws (Some Ws.CONNECTING) s.

(** The array under [event], empty when the Map has no such key. *)
Definition callbacks (event : string) (s : WebSocketService) : list nat :=
  default [] (listeners s !! event).

(** on(event, callback) *)
Definition on (event : string) (cb : nat) (s : WebSocketService) : WebSocketService :=
  put_listeners (<[event := callbacks event s ++ [cb]]> (listeners s)) s.

(** indexOf and splice(index, 1): the first occurrence goes. *)
Fixpoint remove_first (cb : nat) (l : list nat) : list nat :=
  match l with
  | [] => []
  | x :: l' => if Nat.eqb x cb then l' else x :: remove_first cb l'
  end.

(** off(event, callback) *)
Definition off (event : string) (cb : nat) (s : WebSocketService) : WebSocketService :=
  match listeners s !! event with
  | Some l => put_listeners (<[event := remove_first cb l]> (listeners s)) s
  | None => s
  end.

(** emit(event, data): the callbacks that are called, each with its
    argument. *)
Definition emit {D : Type} (event : string) (data : D) (s : WebSocketService)
    : list (nat * D) :=
  map (λ cb, (cb, data)) (callbacks event s).

(** send(data), on the serialized data. *)
Definition send (data : string) (s : WebSocketService) : WebSocketService :=
  match ws s with
  | Some Ws.OPEN =>
      {| ws := ws s; listeners := listeners s; reconnectAttempts := reconnectAttempts s;
         maxReconnectAttempts := maxReconnectAttempts s; wire := wire s ++ [data] |}
  | _ => s
  end.

(** attemptReconnect(): the delay of the timer it sets, if it sets one. *)
Definition attemptReconnect (s : WebSocketService) : WebSocketService * option Z :=
  if reconnectAttempts s <? maxReconnectAttempts s
  then (put_attempts (reconnectAttempts s + 1) s, Some (2000 * (reconnectAttempts s + 1)))
  else (s, None).

(** ws.onopen and ws.onclose, run when the socket has become OPEN and
    CLOSED. *)
Definition onopen (s : WebSocketService) : WebSocketService :=
  put_attempts 0 (put_ws ((λ _, Ws.OPEN) <$> ws s) s).

Definition onclose (s : WebSocketService) : WebSocketService * option Z :=
  attemptReconnect (put_ws ((λ _, Ws.CLOSED) <$> ws s) s).

Inductive event : Type :=
| Send (data : string)
| Connect
| Opened
| Closed
| TimerFired
| On (event : string) (cb : nat)
| Off (event : string) (cb : nat).

Definition step (s : WebSocketService) (e : event) : WebSocketService :=
  match e with
  | Send data => send data s
  | Connect => connect s
  | Opened => onopen s
  | Closed => fst (onclose s)
  | TimerFired => connect s
  | On ev cb => on ev cb s
  | Off ev cb => off ev cb s
  end.

Definition steps (l : list event) (s : WebSocketService) : WebSocketService :=
  fold_left step l s.

Definition is_opened (e : event) : bool :=
  match e with Opened => true | _ => false end.

(** [n] closes in a row, the timer firing after each one that set it. *)
Definition failed_round (s : WebSocketService) : WebSocketService :=
  match onclose s with
  | (s1, Some _) => connect s1
  | (s1, None) => s1
  end.

Fixpoint failed_rounds (n : nat) (s : WebSocketService) : WebSocketService :=
  match n with
  | O => s
  | S n' => failed_rounds n' (failed_round s)
  end.

End Service.

(** ** Toast notifications *)

Module Toasts.

Record toast : Type := {
  id : Z;
  message : string;
  type : string
}.

(** The state of setup(): the array [toasts] and the counter
    [toastId]. *)
Record state : Type := {
  toasts : list toast;
  toastId : Z
}.

Definition setup : state := {| toasts := []; toastId := 0 |}.

(** addToast(message, type, duration); the timer it sets for a positive
    duration runs removeToast(id) later. *)
Definition addToast (message type : string) (s : state) : state :=
  let id := toastId s + 1 in
  {| toasts := toasts s ++ [{| id := id; message := message; type := type |}];
     toastId := id |}.

(** findIndex and splice(index, 1) *)
Fixpoint remove_first (i : Z) (l : list toast) : list toast :=
  match l with
  | [] => []
  | t :: l' => if id t =? i then l' else t :: remove_first i l'
  end.

(** removeToast(id) *)
Definition removeToast (i : Z) (s : state) : state :=
  {| toasts := remove_first i (toasts s); toastId := toastId s |}.

Inductive event : Type :=
| AddToast (message type : string)
| RemoveToast (i : Z).

Definition step (s : state) (e : event) : state :=
  match e with
  | AddToast message type => addToast message type s
  | RemoveToast i => removeToast i s
  end.

Definition steps (l : list event) (s : state) : state := fold_left step l s.

(** The toasts shown that do not have the id [i]. *)
Definition others (i : Z) (l : list toast) : list toast :=
  List.filter (λ t, negb (id t =? i)) l.

(** The ids shown increase along the array, and every one of them has
    been given out by the counter. *)
Definition in_order (s : state) : Prop :=
  StronglySorted Z.lt (map id (toasts s))
  ∧ Forall (λ t, 0 < id t ≤ toastId s) (toasts s)
  ∧ 0 ≤ toastId s.

End Toasts.

(** ** The session cards of the board *)

(** The quick actions of a session card, each under its [v-if]. *)
Definition card_actions (state : string) : list Board.action :=
  (if String.eqb state "idle" then [Board.Start] else [])
  ++ (if String.eqb state "waiting_for_approval" then [Board.Approve] else [])
  ++ (if String.eqb state "waiting_for_approval" then [Board.Deny] else [])
  ++ (if String.eqb state "working" then [Board.Pause] else [])
  ++ (if String.eqb state "paused" then [Board.Resume] else []).

Definition on_card (a : Board.action) : bool :=
  match a with Board.Complete | Board.Fail => false | _ => true end.

(** truncate(text, length) of the board; [None] is a text that is null
    or undefined. *)
Definition truncate (text : option string) (length : Z) : string :=
  match text with
  | None => ""
  | Some t =>
      if String.eqb t "" then ""
      else if length <? Z.of_nat (String.length t)
           then String.append (substring 0 (Z.to_nat length) t) "..."
           else t
  end.

(** truncate(text, length) of the backlog, which has no guard. *)
Definition backlog_truncate (text : string) (length : Z) : string :=
  if length <? Z.of_nat (String.length text)
  then String.append (substring 0 (Z.to_nat length) text) "..."
  else text.

(** What [new Date(timestamp)] gives for the timestamp of formatTime:
    nothing for a timestamp that is falsy (null, undefined, empty), an
    invalid date, or a time in milliseconds. *)
Inductive timestamp : Type :=
| Missing
| Invalid
| At (ms : Z).

Definition number (n : Z) : string :=
  DecimalString.NilZero.string_of_int (Z.to_int n).

(** formatTime(timestamp), [now] being the time of the call in
    milliseconds. On an invalid date every number is NaN and every
    comparison fails. *)
Definition formatTime (t : timestamp) (now : Z) : string :=
  match t with
  | Missing => ""
  | Invalid => "NaNd ago"
  | At date =>
      let diffMs := now - date in
      let diffMins := diffMs / 60000 in
      let diffHours := diffMins / 60 in
      let diffDays := diffHours / 24 in
      if diffMins <? 1 then "just now"
      else if diffMins <? 60 then String.append (number diffMins) "m ago"
      else if diffHours <? 24 then String.append (number diffHours) "h ago"
      else String.append (number diffDays) "d ago"
  end.

(** * Properties *)

(** ** What an UPDATE leaves behind *)

Lemma trg_log_status_change_events now rid old new d :
  backlog_events (trg_log_status_change now rid old new d) =
  backlog_events d ++
  (if String.eqb (status old) (status new) then []
   else [{| ev_id := Z.of_nat (length (backlog_events d)) + 1; item_id := rid;
            ev_external_id := external_id new; event_type := "status_changed";
            event_data := Some [("old_status", status old); ("new_status", status new)];
            actor_type := "system"; actor_id := None; ev_created_at := Some now |}]).
Proof.
  unfold trg_log_status_change.
  destruct (String.eqb (status old) (status new)); simpl; [by rewrite app_nil_r | done].
Qed.

Lemma trg_log_priority_change_events now rid old new d :
  backlog_events (trg_log_priority_change now rid old new d) =
  backlog_events d ++
  (if String.eqb (priority old) (priority new) then []
   else [{| ev_id := Z.of_nat (length (backlog_events d)) + 1; item_id := rid;
            ev_external_id := external_id new; event_type := "priority_changed";
            event_data := Some [("old_priority", priority old);
                                ("new_priority", priority new)];
            actor_type := "system"; actor_id := None; ev_created_at := Some now |}]).
Proof.
  unfold trg_log_priority_change.
  destruct (String.eqb (priority old) (priority new)); simpl; [by rewrite app_nil_r | done].
Qed.

Lemma trg_log_status_change_frame now rid old new d :
  backlog_items (trg_log_status_change now rid old new d) = backlog_items d
  ∧ backlog_items_seq (trg_log_status_change now rid old new d) = backlog_items_seq d
  ∧ clarifications (trg_log_status_change now rid old new d) = clarifications d
  ∧ clarifications_seq (trg_log_status_change now rid old new d) = clarifications_seq d.
Proof. unfold trg_log_status_change. by destruct (String.eqb _ _). Qed.

Lemma trg_log_priority_change_frame now rid old new d :
  backlog_items (trg_log_priority_change now rid old new d) = backlog_items d
  ∧ backlog_items_seq (trg_log_priority_change now rid old new d) = backlog_items_seq d
  ∧ clarifications (trg_log_priority_change now rid old new d) = clarifications d
  ∧ clarifications_seq (trg_log_priority_change now rid old new d) = clarifications_seq d.
Proof. unfold trg_log_priority_change. by destruct (String.eqb _ _). Qed.

Lemma trg_set_completed_at_frame now rid old new d :
  backlog_events (trg_set_completed_at now rid old new d) = backlog_events d
  ∧ backlog_items_seq (trg_set_completed_at now rid old new d) = backlog_items_seq d
  ∧ clarifications (trg_set_completed_at now rid old new d) = clarifications d
  ∧ clarifications_seq (trg_set_completed_at now rid old new d) = clarifications_seq d.
Proof. unfold trg_set_completed_at. by destruct (_ && _). Qed.

(** The tables other than [backlog_items] and [backlog_events] are out
    of reach of the triggers. *)
Lemma after_update_frame now rid os op old new d :
  backlog_items_seq (after_update now rid os op old new d) = backlog_items_seq d
  ∧ clarifications (after_update now rid os op old new d) = clarifications d
  ∧ clarifications_seq (after_update now rid os op old new d) = clarifications_seq d.
Proof.
  unfold after_update.
  destruct os, op; simpl;
    repeat match goal with
    | |- context [trg_set_completed_at ?a ?b ?c ?e ?f] =>
        destruct (trg_set_completed_at_frame a b c e f) as (_ & -> & -> & ->)
    | |- context [trg_log_priority_change ?a ?b ?c ?e ?f] =>
        destruct (trg_log_priority_change_frame a b c e f) as (_ & -> & -> & ->)
    | |- context [trg_log_status_change ?a ?b ?c ?e ?f] =>
        destruct (trg_log_status_change_frame a b c e f) as (_ & -> & -> & ->)
    end; done.
Qed.

(** The item table after the triggers of an UPDATE that stored [new]
    under [rid]. *)
Lemma after_update_items now rid (p : item_patch) old d :
  backlog_items
    (after_update now rid (is_set (p_status p)) (is_set (p_priority p)) old
       (apply_patch p old) (with_items (insert rid (apply_patch p old)) d))
  = <[rid := stored_row now p old]> (backlog_items d).
Proof.
  unfold after_update, stored_row.
  set (new := apply_patch p old).
  assert (Hs : ∀ b e, backlog_items
             (if b : bool then trg_log_status_change now rid old new e else e)
             = backlog_items e).
  { intros [] e; [apply trg_log_status_change_frame | done]. }
  assert (Hp : ∀ b e, backlog_items
             (if b : bool then trg_log_priority_change now rid old new e else e)
             = backlog_items e).
  { intros [] e; [apply trg_log_priority_change_frame | done]. }
  cbv zeta. cbn [trg_backlog_updated with_items backlog_items].
  rewrite Hs, Hp.
  destruct (is_set (p_status p)) eqn:Hos; cbn [andb].
  - unfold trg_set_completed_at.
    destruct (String.eqb (status new) "done" && negb (String.eqb (status old) "done")).
    + cbn [trg_backlog_updated with_items backlog_items].
      by rewrite !alter_insert_eq.
    + cbn [with_items backlog_items]. by rewrite alter_insert_eq.
  - cbn [with_items backlog_items]. by rewrite alter_insert_eq.
Qed.

Lemma after_update_events now rid (p : item_patch) old d :
  backlog_events
    (after_update now rid (is_set (p_status p)) (is_set (p_priority p)) old
       (apply_patch p old) (with_items (insert rid (apply_patch p old)) d))
  = backlog_events d ++ logged_events now rid p old (backlog_events d).
Proof.
  unfold after_update, logged_events.
  set (new := apply_patch p old).
  destruct (is_set (p_status p)), (is_set (p_priority p)); simpl;
    repeat first [ rewrite trg_log_priority_change_events
                 | rewrite trg_log_status_change_events
                 | rewrite (proj1 (trg_set_completed_at_frame _ _ _ _ _)) ];
    simpl;
    rewrite <- ?app_assoc, ?drop_app_length, ?drop_all, ?app_nil_r; done.
Qed.

(** A successful UPDATE of an existing row, spelled out. *)
Lemma sql_update_item_Ok now rid p d d' old :
  backlog_items d !! rid = Some old →
  sql_update_item now rid p d = Ok d' →
  check_item (apply_patch p old) = true
  ∧ external_id_free rid (external_id (apply_patch p old)) (backlog_items d) = true
  ∧ backlog_items d' = <[rid := stored_row now p old]> (backlog_items d)
  ∧ backlog_events d' = backlog_events d ++ logged_events now rid p old (backlog_events d)
  ∧ backlog_items_seq d' = backlog_items_seq d
  ∧ clarifications d' = clarifications d
  ∧ clarifications_seq d' = clarifications_seq d.
Proof.
  intros Hold. unfold sql_update_item. rewrite Hold.
  destruct (check_item (apply_patch p old)); simpl; [| done].
  destruct (external_id_free rid _ _); simpl; [| done].
  intros [= <-].
  destruct (after_update_frame now rid (is_set (p_status p)) (is_set (p_priority p))
              old (apply_patch p old) (with_items (insert rid (apply_patch p old)) d))
    as (Hq & Hc & Hcq).
  split_and!; try done.
  - apply after_update_items.
  - apply after_update_events.
Qed.

Lemma sql_update_item_missing now rid p d :
  backlog_items d !! rid = None → sql_update_item now rid p d = Ok d.
Proof. intros H. unfold sql_update_item. by rewrite H. Qed.

(** An UPDATE whose checks pass succeeds. *)
Lemma sql_update_item_succeeds now rid p d old :
  backlog_items d !! rid = Some old →
  check_item (apply_patch p old) = true →
  external_id_free rid (external_id (apply_patch p old)) (backlog_items d) = true →
  ∃ d', sql_update_item now rid p d = Ok d'.
Proof.
  intros Hold Hc Hu. unfold sql_update_item. rewrite Hold, Hc, Hu. simpl. eauto.
Qed.

(** ** The constraints hold in every state a script can reach *)

Lemma external_id_free_spec rid x (t : gmap Z backlog_item) :
  external_id_free rid x t = true ↔
  ∀ k r, t !! k = Some r → k = rid ∨ external_id r ≠ x.
Proof.
  unfold external_id_free. rewrite forallb_forall. split.
  - intros H k r Hk.
    specialize (H (k, r)). simpl in H.
    assert (Hin : In (k, r) (map_to_list t)).
    { apply list_elem_of_In, elem_of_map_to_list, Hk. }
    apply H in Hin. apply orb_true_iff in Hin as [Hin | Hin].
    + left. by apply Z.eqb_eq.
    + right. apply negb_true_iff, String.eqb_neq in Hin. done.
  - intros H [k r] Hin. simpl.
    apply list_elem_of_In, elem_of_map_to_list in Hin.
    destruct (H k r Hin) as [-> | Hne].
    + by rewrite Z.eqb_refl.
    + apply String.eqb_neq in Hne. rewrite Hne. by rewrite orb_true_r.
Qed.

Lemma check_item_stored_row now p old :
  check_item (stored_row now p old) = check_item (apply_patch p old).
Proof. unfold stored_row. by destruct (_ && _). Qed.

Lemma external_id_stored_row now p old :
  external_id (stored_row now p old) = external_id (apply_patch p old).
Proof. unfold stored_row. by destruct (_ && _). Qed.

Lemma consistent_empty : consistent empty_db.
Proof. split; simpl; [lia | intros *; by rewrite lookup_empty ..]. Qed.

Lemma consistent_update now rid p d d' :
  consistent d → sql_update_item now rid p d = Ok d' → consistent d'.
Proof.
  intros [Hq Hk Hc Hu] Hupd.
  destruct (backlog_items d !! rid) as [old |] eqn:Hold.
  2:{ rewrite sql_update_item_missing in Hupd by done. by injection Hupd as <-. }
  destruct (sql_update_item_Ok _ _ _ _ _ _ Hold Hupd)
    as (Hchk & Hfree & Hi & _ & Hs & _ & _).
  rewrite external_id_free_spec in Hfree.
  split; rewrite ?Hi, ?Hs.
  - done.
  - intros k r. rewrite lookup_insert. case_decide; [subst; eauto | eauto].
  - intros k r. rewrite lookup_insert. case_decide.
    + intros [= <-]. by rewrite check_item_stored_row.
    + eauto.
  - intros k1 k2 r1 r2. rewrite !lookup_insert.
    repeat case_decide; subst; try done.
    + intros [= <-] H2. rewrite external_id_stored_row. intros E.
      destruct (Hfree _ _ H2) as [-> | Hne]; [done | by rewrite E in Hne].
    + intros H1 [= <-]. rewrite external_id_stored_row. intros E.
      destruct (Hfree _ _ H1) as [-> | Hne]; [done | by rewrite E in Hne].
    + eauto.
Qed.

Lemma consistent_insert now v d rid d' :
  consistent d → sql_insert_item now v d = Ok (rid, d') → consistent d'.
Proof.
  intros [Hq Hk Hc Hu]. unfold sql_insert_item.
  destruct (check_item (inserted_row now v)) eqn:Hchk; simpl; [| done].
  destruct (external_id_free _ _ _) eqn:Hfree; simpl; [| done].
  intros [= <- <-]. rewrite external_id_free_spec in Hfree.
  assert (Hfresh : backlog_items d !! (backlog_items_seq d + 1) = None).
  { destruct (backlog_items d !! (backlog_items_seq d + 1)) eqn:E; [| done].
    apply Hk in E. lia. }
  split; simpl.
  - lia.
  - intros k r. rewrite lookup_insert. case_decide; [lia |].
    intros Hr%Hk. lia.
  - intros k r. rewrite lookup_insert. case_decide; [by intros [= <-] | eauto].
  - intros k1 k2 r1 r2. rewrite !lookup_insert.
    repeat case_decide; subst; try done.
    + intros [= <-] H2 E.
      destruct (Hfree _ _ H2) as [-> | Hne]; [done |].
      exfalso. apply Hne. symmetry. exact E.
    + intros H1 [= <-] E.
      destruct (Hfree _ _ H1) as [-> | Hne]; [done |].
      exfalso. exact (Hne E).
    + eauto.
Qed.

Lemma consistent_exec d s : consistent d → consistent (exec d s).
Proof.
  intros H. destruct s as [now v | now rid p]; simpl.
  - destruct (sql_insert_item now v d) as [[rid d'] |] eqn:E; [| done].
    eapply consistent_insert; eauto.
  - destruct (sql_update_item now rid p d) as [d' |] eqn:E; [| done].
    eapply consistent_update; eauto.
Qed.

Lemma consistent_run l d : consistent d → consistent (run l d).
Proof.
  revert d. induction l as [| s l IH]; intros d H; [done |].
  apply IH, consistent_exec, H.
Qed.

(** ** The triggers trg_backlog_updated and trg_set_completed_at *)

Lemma status_stored_row now p old :
  status (stored_row now p old) = default (status old) (p_status p).
Proof. unfold stored_row. by destruct (_ && _). Qed.

Lemma priority_stored_row now p old :
  priority (stored_row now p old) = default (priority old) (p_priority p).
Proof. unfold stored_row. by destruct (_ && _). Qed.

Lemma updated_at_stored_row now p old : updated_at (stored_row now p old) = Some now.
Proof. unfold stored_row. by destruct (_ && _). Qed.

Lemma completed_at_stored_row now p old :
  completed_at (stored_row now p old) =
  if is_set (p_status p)
     && (String.eqb (default (status old) (p_status p)) "done"
         && negb (String.eqb (status old) "done"))
  then Some now
  else default (completed_at old) (p_completed_at p).
Proof. unfold stored_row. simpl. by destruct (_ && _). Qed.

(** C10. Every UPDATE that is applied to a row of backlog_items leaves
    the row's [updated_at] at the current timestamp, whatever its SET
    list; the rows it does not address are as before; and the refresh
    itself, trg_backlog_updated, changes [updated_at] of the row NEW.id
    and nothing else: no other column of that row, no other row, no
    other table. *)
Theorem updated_at_refresh_frame now rid p d d' old :
  backlog_items d !! rid = Some old →
  sql_update_item now rid p d = Ok d' →
  (∃ r', backlog_items d' !! rid = Some r' ∧ updated_at r' = Some now)
  ∧ (∀ k, k ≠ rid → backlog_items d' !! k = backlog_items d !! k)
  ∧ (∀ t : db,
       (∀ k, k ≠ rid →
          backlog_items (trg_backlog_updated now rid t) !! k = backlog_items t !! k)
       ∧ (∀ r, backlog_items t !! rid = Some r →
            ∃ r', backlog_items (trg_backlog_updated now rid t) !! rid = Some r'
                  ∧ updated_at r' = Some now ∧ same_but_updated_at r r')
       ∧ (backlog_items t !! rid = None →
            backlog_items (trg_backlog_updated now rid t) !! rid = None)
       ∧ backlog_events (trg_backlog_updated now rid t) = backlog_events t
       ∧ clarifications (trg_backlog_updated now rid t) = clarifications t
       ∧ backlog_items_seq (trg_backlog_updated now rid t) = backlog_items_seq t
       ∧ clarifications_seq (trg_backlog_updated now rid t) = clarifications_seq t).
Proof.
  intros Hold Hupd.
  destruct (sql_update_item_Ok _ _ _ _ _ _ Hold Hupd) as (_ & _ & Hi & _).
  split_and!.
  - exists (stored_row now p old). rewrite Hi, lookup_insert_eq.
    split; [done | apply updated_at_stored_row].
  - intros k Hk. by rewrite Hi, lookup_insert_ne.
  - intros t. unfold trg_backlog_updated. simpl. split_and!; try done.
    + intros k Hk. by rewrite lookup_alter_ne.
    + intros r Hr. exists (set_updated_at (Some now) r).
      rewrite lookup_alter_eq, Hr. unfold same_but_updated_at. by split_and!.
    + intros Hr. by rewrite lookup_alter_eq, Hr.
Qed.

Lemma updated_at_refresh_frame_witness :
  ∃ r', backlog_items
          (run [InsertItem 10 (new_item "a" "Fix login bug");
                UpdateItem 20 1 (set_title_to "Fix the login bug")] empty_db) !! 1
        = Some r'
        ∧ updated_at r' = Some 20.
Proof.
  destruct (updated_at_refresh_frame 20 1 (set_title_to "Fix the login bug")
              (run [InsertItem 10 (new_item "a" "Fix login bug")] empty_db)
              (run [InsertItem 10 (new_item "a" "Fix login bug");
                    UpdateItem 20 1 (set_title_to "Fix the login bug")] empty_db)
              (inserted_row 10 (new_item "a" "Fix login bug")))
    as (H & _).
  - vm_compute. reflexivity.
  - vm_compute. reflexivity.
  - exact H.
Defined.

Lemma done_dated_exec d s : tidy s = true → done_dated d → done_dated (exec d s).
Proof.
  intros Ht Hd. destruct s as [now v | now rid p]; simpl in *.
  - unfold sql_insert_item.
    destruct (check_item _); simpl; [| done].
    destruct (external_id_free _ _ _); simpl; [| done].
    intros k r. simpl. rewrite lookup_insert. case_decide; [| by apply Hd].
    intros [= <-]. simpl. intros Hdone.
    rewrite Hdone in Ht. simpl in Ht. by destruct (i_completed_at v).
  - destruct (sql_update_item now rid p d) as [d' |] eqn:Hupd; [| done].
    destruct (backlog_items d !! rid) as [old |] eqn:Hold.
    2:{ rewrite sql_update_item_missing in Hupd by done. by injection Hupd as <-. }
    destruct (sql_update_item_Ok _ _ _ _ _ _ Hold Hupd) as (_ & _ & Hi & _).
    intros k r. rewrite Hi, lookup_insert. case_decide; [| by apply Hd].
    intros [= <-]. rewrite status_stored_row, completed_at_stored_row.
    intros Hdone. rewrite Hdone. simpl.
    destruct (p_completed_at p); [done |]. simpl.
    destruct (p_status p) as [s |]; simpl in *.
    + destruct (String.eqb (status old) "done") eqn:E; simpl; [| done].
      apply String.eqb_eq in E. eauto.
    + eauto.
Qed.

(** C3, as the schema has it. trg_set_completed_at assigns [completed_at]
    on every UPDATE of status that takes an item from another status
    into done, to that statement's time; an UPDATE of an item that is
    done already, as a repeated mark-done is, leaves [completed_at] as it
    was unless its own SET list names the column; and in every state
    reached by statements that leave [completed_at] to the trigger, no
    item is done with [completed_at] unset. *)
Theorem completed_at_set_on_entering_done (l : list stmt) :
  forallb tidy l = true →
  done_dated (run l empty_db)
  ∧ (∀ now rid p old d',
       backlog_items (run l empty_db) !! rid = Some old →
       sql_update_item now rid p (run l empty_db) = Ok d' →
       ∃ r', backlog_items d' !! rid = Some r'
             ∧ (is_set (p_status p) = true → status old ≠ "done" →
                status r' = "done" → completed_at r' = Some now)
             ∧ (status old = "done" → p_completed_at p = None →
                completed_at r' = completed_at old)).
Proof.
  intros Ht. split.
  - assert (Hgen : ∀ d, done_dated d → done_dated (run l d)).
    { clear -Ht. induction l as [| s l IH]; intros d Hd; [done |].
      simpl in Ht. apply andb_true_iff in Ht as [Hs Hl].
      apply (IH Hl), done_dated_exec; done. }
    apply Hgen. intros k r. simpl. by rewrite lookup_empty.
  - intros now rid p old d' Hold Hupd.
    destruct (sql_update_item_Ok _ _ _ _ _ _ Hold Hupd) as (_ & _ & Hi & _).
    exists (stored_row now p old). rewrite Hi, lookup_insert_eq.
    split_and!; [done | |].
    + rewrite status_stored_row, completed_at_stored_row.
      intros -> Hnd ->. apply String.eqb_neq in Hnd. by rewrite Hnd.
    + rewrite completed_at_stored_row. intros Hd ->.
      apply String.eqb_eq in Hd. rewrite Hd. simpl.
      by rewrite andb_false_r, andb_false_r.
Qed.

Lemma completed_at_set_on_entering_done_witness :
  ∃ r', backlog_items
          (run [InsertItem 10 (new_item "a" "Fix login bug");
                UpdateItem 20 1 (set_status_to "done");
                UpdateItem 30 1 (set_status_to "done")] empty_db) !! 1 = Some r'
        ∧ completed_at r' = Some 20.
Proof.
  destruct (completed_at_set_on_entering_done
              [InsertItem 10 (new_item "a" "Fix login bug");
               UpdateItem 20 1 (set_status_to "done")])
    as [_ H]; [vm_compute; reflexivity |].
  destruct (H 30 1 (set_status_to "done")
              (stored_row 20 (set_status_to "done")
                 (inserted_row 10 (new_item "a" "Fix login bug")))
              (run [InsertItem 10 (new_item "a" "Fix login bug");
                    UpdateItem 20 1 (set_status_to "done");
                    UpdateItem 30 1 (set_status_to "done")] empty_db))
    as (r' & Hr & _ & Hkeep); [vm_compute; reflexivity .. |].
  exists r'. split; [exact Hr |].
  rewrite Hkeep; reflexivity.
Defined.

(** C3 fails as stated. An item inserted in status done has
    [completed_at] unset, since no trigger is on INSERT; and an item that
    leaves done and enters it again has [completed_at] assigned a second
    time. *)
Lemma completed_at_not_exactly_once :
  (∃ r, backlog_items
          (run [InsertItem 10 (new_item_with "a" "Imported" None (Some "done"))]
               empty_db) !! 1 = Some r
        ∧ status r = "done" ∧ completed_at r = None)
  ∧ (∃ r1 r2,
       backlog_items
         (run [InsertItem 10 (new_item "a" "Fix login bug");
               UpdateItem 20 1 (set_status_to "done")] empty_db) !! 1 = Some r1
       ∧ backlog_items
           (run [InsertItem 10 (new_item "a" "Fix login bug");
                 UpdateItem 20 1 (set_status_to "done");
                 UpdateItem 30 1 (set_status_to "in_progress");
                 UpdateItem 40 1 (set_status_to "done")] empty_db) !! 1 = Some r2
       ∧ completed_at r1 = Some 20 ∧ completed_at r2 = Some 40).
Proof.
  split.
  - eexists. split; [vm_compute; reflexivity |]. split; reflexivity.
  - eexists _, _. split; [vm_compute; reflexivity |].
    split; [vm_compute; reflexivity |]. split; reflexivity.
Qed.

(** ** The logging triggers *)

Lemma logged_events_spec now rid p old base :
  ∃ i j,
    logged_events now rid p old base =
    (if is_set (p_priority p)
        && negb (String.eqb (priority old) (priority (apply_patch p old)))
     then [priority_changed_event now rid old (apply_patch p old) j] else [])
    ++ (if is_set (p_status p)
           && negb (String.eqb (status old) (status (apply_patch p old)))
        then [status_changed_event now rid old (apply_patch p old) i] else []).
Proof.
  unfold logged_events.
  set (new := apply_patch p old).
  destruct (is_set (p_status p)), (is_set (p_priority p)); cbn [andb];
    rewrite ?trg_log_priority_change_events, ?trg_log_status_change_events;
    cbn [backlog_events];
    rewrite ?trg_log_priority_change_events, ?trg_log_status_change_events;
    cbn [backlog_events];
    rewrite <- ?app_assoc, ?drop_app_length, ?drop_all;
    destruct (String.eqb (status old) (status new));
    destruct (String.eqb (priority old) (priority new));
    cbn [negb app]; unshelve (eexists _, _; reflexivity); exact 0.
Qed.

(** C4, as the schema has it. An UPDATE that changes the status of an
    item appends exactly one status_changed event, for that item and
    with the old and the new status; an UPDATE that leaves the status as
    it is appends none, so the same statement run a second time logs no
    status_changed event; and the triggers append no event of type
    completed. *)
Theorem status_change_logged_once now rid p d d' old :
  backlog_items d !! rid = Some old →
  sql_update_item now rid p d = Ok d' →
  ∃ r' new,
    backlog_items d' !! rid = Some r'
    ∧ backlog_events d' = backlog_events d ++ new
    ∧ length (events_of_type "status_changed" new)
      = (if String.eqb (status old) (status r') then 0 else 1)%nat
    ∧ (∀ e, e ∈ events_of_type "status_changed" new →
         item_id e = rid
         ∧ event_field "old_status" e = Some (status old)
         ∧ event_field "new_status" e = Some (status r'))
    ∧ events_of_type "completed" new = []
    ∧ (∀ now2 d'', sql_update_item now2 rid p d' = Ok d'' →
         ∃ new2, backlog_events d'' = backlog_events d' ++ new2
                 ∧ events_of_type "status_changed" new2 = []).
Proof.
  intros Hold Hupd.
  destruct (sql_update_item_Ok _ _ _ _ _ _ Hold Hupd) as (_ & _ & Hi & He & _).
  assert (Hr' : backlog_items d' !! rid = Some (stored_row now p old)).
  { by rewrite Hi, lookup_insert_eq. }
  exists (stored_row now p old), (logged_events now rid p old (backlog_events d)).
  split; [done |]. split; [done |].
  rewrite status_stored_row.
  destruct (logged_events_spec now rid p old (backlog_events d)) as (i & j & ->).
  assert (Hnew : status (apply_patch p old) = default (status old) (p_status p)) by done.
  rewrite Hnew.
  split_and!.
  - destruct (p_status p) as [s |]; simpl.
    + destruct (String.eqb (status old) s); simpl;
        destruct (is_set (p_priority p) && _); reflexivity.
    + rewrite String.eqb_refl. destruct (is_set (p_priority p) && _); reflexivity.
  - intros e. unfold events_of_type.
    destruct (is_set (p_status p) && _), (is_set (p_priority p) && _); simpl;
      rewrite ?filter_cons, ?filter_nil; simpl;
      repeat (case_decide; try done);
      rewrite ?elem_of_cons, ?elem_of_nil; intros H; destruct_or?; subst; try done.
  - unfold events_of_type.
    destruct (is_set (p_status p) && _), (is_set (p_priority p) && _); reflexivity.
  - intros now2 d'' Hupd2.
    destruct (sql_update_item_Ok _ _ _ _ _ _ Hr' Hupd2) as (_ & _ & _ & He2 & _).
    eexists. split; [exact He2 |].
    destruct (logged_events_spec now2 rid p (stored_row now p old) (backlog_events d'))
      as (i2 & j2 & ->).
    assert (Hsame : String.eqb (status (stored_row now p old))
                      (status (apply_patch p (stored_row now p old))) = true).
    { apply String.eqb_eq. change (status (apply_patch p (stored_row now p old)))
        with (default (status (stored_row now p old)) (p_status p)).
      rewrite status_stored_row. by destruct (p_status p). }
    rewrite Hsame, andb_false_r. unfold events_of_type. simpl.
    destruct (is_set (p_priority p) && _); reflexivity.
Qed.

Lemma status_change_logged_once_witness :
  ∃ new,
    backlog_events
      (run [InsertItem 10 (new_item "a" "Fix login bug");
            UpdateItem 20 1 (set_status_to "in_progress")] empty_db)
    = [] ++ new
    ∧ length (events_of_type "status_changed" new) = 1%nat.
Proof.
  destruct (status_change_logged_once 20 1 (set_status_to "in_progress")
              (run [InsertItem 10 (new_item "a" "Fix login bug")] empty_db)
              (run [InsertItem 10 (new_item "a" "Fix login bug");
                    UpdateItem 20 1 (set_status_to "in_progress")] empty_db)
              (inserted_row 10 (new_item "a" "Fix login bug")))
    as (r' & new & Hr & He & Hn & _); [vm_compute; reflexivity .. |].
  exists new. split; [exact He |].
  rewrite Hn.
  assert (Hs : status r' = "in_progress").
  { vm_compute in Hr. injection Hr as <-. reflexivity. }
  rewrite Hs. reflexivity.
Defined.

(** C4 fails as stated: marking an item done, once or twice, leaves one
    status_changed event and no event of type completed in the log. *)
Lemma no_completed_event_on_done :
  events_of_type "status_changed"
    (backlog_events
       (run [InsertItem 10 (new_item "a" "Fix login bug");
             UpdateItem 20 1 (set_status_to "done");
             UpdateItem 20 1 (set_status_to "done")] empty_db))
  = [status_changed_event 20 1
       (inserted_row 10 (new_item "a" "Fix login bug"))
       (apply_patch (set_status_to "done")
          (inserted_row 10 (new_item "a" "Fix login bug"))) 1]
  ∧ events_of_type "completed"
      (backlog_events
         (run [InsertItem 10 (new_item "a" "Fix login bug");
               UpdateItem 20 1 (set_status_to "done");
               UpdateItem 20 1 (set_status_to "done")] empty_db))
    = [].
Proof. split; vm_compute; reflexivity. Qed.

(** ** Replaying the log *)

Lemma apply_event_shape e :
  ∃ os op : option string,
    ∀ st, apply_event st e = (default (fst st) os, default (snd st) op).
Proof.
  unfold apply_event.
  destruct (String.eqb (event_type e) "status_changed").
  - exists (event_field "new_status" e), None. by intros [].
  - destruct (String.eqb (event_type e) "priority_changed").
    + exists None, (event_field "new_priority" e). by intros [].
    + exists None, None. by intros [].
Qed.

Lemma replay_shape l :
  ∃ os op : option string,
    ∀ st, replay l st = (default (fst st) os, default (snd st) op).
Proof.
  induction l as [| e l (os & op & IH)].
  - exists None, None. by intros [].
  - destruct (apply_event_shape e) as (es & ep & He).
    exists (match os with Some _ => os | None => es end),
           (match op with Some _ => op | None => ep end).
    intros st. unfold replay in *. simpl. rewrite IH, He. simpl.
    by destruct os, op.
Qed.

(** Replaying a sequence of events over its own result changes nothing. *)
Lemma replay_idempotent l st : replay l (replay l st) = replay l st.
Proof.
  destruct (replay_shape l) as (os & op & H).
  rewrite !H. simpl. by destruct os, op.
Qed.

Lemma replay_app l1 l2 st : replay (l1 ++ l2) st = replay l2 (replay l1 st).
Proof. unfold replay. apply fold_left_app. Qed.

Lemma replay_logged_events now rid p old base :
  replay (logged_events now rid p old base) (logged_state old)
  = logged_state (stored_row now p old).
Proof.
  destruct (logged_events_spec now rid p old base) as (i & j & ->).
  unfold logged_state. rewrite status_stored_row, priority_stored_row.
  unfold replay, apply_event, status_changed_event, priority_changed_event,
    event_field.
  change (status (apply_patch p old)) with (default (status old) (p_status p)).
  change (priority (apply_patch p old)) with (default (priority old) (p_priority p)).
  destruct (p_status p) as [s |], (p_priority p) as [q |]; simpl;
    repeat match goal with
    | |- context [String.eqb ?a ?b] =>
        let E := fresh "E" in
        destruct (String.eqb a b) eqn:E;
        [apply String.eqb_eq in E; try subst | clear E]
    end; simpl; congruence.
Qed.

Lemma events_for_logged_events now rid p old base k :
  filter (λ e, item_id e = k) (logged_events now rid p old base)
  = if decide (rid = k) then logged_events now rid p old base else [].
Proof.
  destruct (logged_events_spec now rid p old base) as (i & j & ->).
  destruct (is_set (p_status p) && _), (is_set (p_priority p) && _); simpl;
    rewrite ?filter_cons, ?filter_nil; simpl; by repeat case_decide.
Qed.

Lemma replay_exec d s rid r :
  consistent d →
  backlog_items d !! rid = Some r →
  ∃ r' new,
    backlog_items (exec d s) !! rid = Some r'
    ∧ events_for rid (exec d s) = events_for rid d ++ new
    ∧ replay new (logged_state r) = logged_state r'.
Proof.
  intros Hc Hr.
  assert (Hsame : ∃ r' new, backlog_items d !! rid = Some r'
            ∧ events_for rid d = events_for rid d ++ new
            ∧ replay new (logged_state r) = logged_state r').
  { exists r, []. by rewrite app_nil_r. }
  destruct s as [now v | now k p]; simpl.
  - unfold sql_insert_item.
    destruct (check_item _); simpl; [| done].
    destruct (external_id_free _ _ _); simpl; [| done].
    exists r, []. unfold events_for. simpl. rewrite app_nil_r.
    split_and!; try done.
    rewrite lookup_insert_ne; [done |].
    apply (keys_in_range d Hc) in Hr. lia.
  - destruct (sql_update_item now k p d) as [d' |] eqn:Hupd; [| done].
    destruct (backlog_items d !! k) as [old |] eqn:Hold.
    2:{ rewrite sql_update_item_missing in Hupd by done. by injection Hupd as <-. }
    destruct (sql_update_item_Ok _ _ _ _ _ _ Hold Hupd) as (_ & _ & Hi & He & _).
    unfold events_for. rewrite Hi, He, filter_app, events_for_logged_events.
    case_decide as Hk.
    + subst k. rewrite Hr in Hold. injection Hold as <-.
      exists (stored_row now p r), (logged_events now rid p r (backlog_events d)).
      rewrite lookup_insert_eq. split_and!; try done.
      apply replay_logged_events.
    + exists r, []. by rewrite lookup_insert_ne.
Qed.

Lemma replay_run l d rid r :
  consistent d →
  backlog_items d !! rid = Some r →
  ∃ r' new,
    backlog_items (run l d) !! rid = Some r'
    ∧ events_for rid (run l d) = events_for rid d ++ new
    ∧ replay new (logged_state r) = logged_state r'.
Proof.
  revert d r. induction l as [| s l IH]; intros d r Hc Hr.
  - exists r, []. by rewrite app_nil_r.
  - destruct (replay_exec d s rid r Hc Hr) as (r1 & new1 & Hr1 & He1 & Hp1).
    destruct (IH (exec d s) r1 (consistent_exec _ _ Hc) Hr1)
      as (r2 & new2 & Hr2 & He2 & Hp2).
    exists r2, (new1 ++ new2). simpl. split_and!.
    + done.
    + unfold run in *. by rewrite He2, He1, app_assoc.
    + by rewrite replay_app, Hp1.
Qed.

(** C1, as the schema has it. For an item present after a script [l0],
    the events the triggers log for its id while a further script [l]
    runs, replayed in sequence order over the status and priority the
    item had, give the status and priority of its current row; replaying
    them once more over the result changes nothing. *)
Theorem replay_rebuilds_status_and_priority (l0 l : list stmt) rid r :
  backlog_items (run l0 empty_db) !! rid = Some r →
  ∃ r' new,
    backlog_items (run (l0 ++ l) empty_db) !! rid = Some r'
    ∧ events_for rid (run (l0 ++ l) empty_db)
      = events_for rid (run l0 empty_db) ++ new
    ∧ replay new (logged_state r) = logged_state r'
    ∧ replay new (replay new (logged_state r)) = replay new (logged_state r).
Proof.
  intros Hr.
  destruct (replay_run l (run l0 empty_db) rid r
              (consistent_run l0 _ consistent_empty) Hr)
    as (r' & new & H1 & H2 & H3).
  exists r', new. unfold run in *. rewrite fold_left_app.
  split_and!; try done. apply replay_idempotent.
Qed.

Lemma replay_rebuilds_status_and_priority_witness :
  ∃ r' new,
    backlog_items
      (run ([InsertItem 10 (new_item "a" "Fix login bug")]
            ++ [UpdateItem 20 1 (set_status_to "in_progress");
                UpdateItem 30 1 (set_title_to "Fix the login bug")]) empty_db) !! 1
    = Some r'
    ∧ replay new ("open", "P2") = logged_state r'.
Proof.
  destruct (replay_rebuilds_status_and_priority
              [InsertItem 10 (new_item "a" "Fix login bug")]
              [UpdateItem 20 1 (set_status_to "in_progress");
               UpdateItem 30 1 (set_title_to "Fix the login bug")]
              1 (inserted_row 10 (new_item "a" "Fix login bug")))
    as (r' & new & Hr & _ & Hp & _); [vm_compute; reflexivity |].
  exists r', new. split; [exact Hr | exact Hp].
Defined.

(** C1 fails as stated: no function of an item's event sequence gives
    back its row. After an INSERT alone, and after the INSERT and an
    UPDATE of the title, the log holds the same (empty) sequence for the
    item, while the two rows differ. *)
Lemma replay_cannot_rebuild_row :
  ¬ ∃ rebuild : list backlog_event → option backlog_item,
      ∀ (l : list stmt) (rid : Z),
        rebuild (events_for rid (run l empty_db))
        = backlog_items (run l empty_db) !! rid.
Proof.
  intros [rebuild H].
  pose proof (H [InsertItem 10 (new_item "a" "Fix login bug")] 1) as H1.
  pose proof (H [InsertItem 10 (new_item "a" "Fix login bug");
                 UpdateItem 20 1 (set_title_to "Fix the login bug")] 1) as H2.
  assert (E1 : events_for 1 (run [InsertItem 10 (new_item "a" "Fix login bug")]
                               empty_db) = []) by (vm_compute; reflexivity).
  assert (E2 : events_for 1
                 (run [InsertItem 10 (new_item "a" "Fix login bug");
                       UpdateItem 20 1 (set_title_to "Fix the login bug")]
                    empty_db) = []) by (vm_compute; reflexivity).
  rewrite E1 in H1. rewrite E2, H1 in H2.
  vm_compute in H2. discriminate H2.
Qed.

(** ** The CHECK on status *)

Lemma status_check_parse s :
  check_passes (sql_in (Some s)
    [Some "open"; Some "needs_clarification"; Some "in_progress";
     Some "blocked"; Some "done"; Some "cancelled"])
  = is_set (Lifecycle.parse_status s).
Proof.
  unfold Lifecycle.parse_status, Lifecycle.all_statuses, sql_in.
  cbn [find existsb Lifecycle.status_name].
  rewrite (String.eqb_sym "open"), (String.eqb_sym "needs_clarification"),
    (String.eqb_sym "in_progress"), (String.eqb_sym "blocked"),
    (String.eqb_sym "done"), (String.eqb_sym "cancelled").
  destruct (String.eqb s "open"); [done |].
  destruct (String.eqb s "needs_clarification"); [done |].
  destruct (String.eqb s "in_progress"); [done |].
  destruct (String.eqb s "blocked"); [done |].
  destruct (String.eqb s "done"); [done |].
  by destruct (String.eqb s "cancelled").
Qed.

Lemma check_item_set_status s r :
  check_item r = true →
  check_item (apply_patch (set_status_to s) r) = is_set (Lifecycle.parse_status s).
Proof.
  unfold check_item. rewrite !andb_true_iff. intros [[[Hp Ht] _] He].
  cbn [apply_patch set_status_to p_priority p_item_type p_status p_estimated_effort
       priority item_type status estimated_effort default].
  rewrite Hp, Ht, He, status_check_parse. simpl. by rewrite andb_true_r.
Qed.

Lemma external_id_free_own d rid r :
  consistent d → backlog_items d !! rid = Some r →
  external_id_free rid (external_id r) (backlog_items d) = true.
Proof.
  intros Hc Hr. apply external_id_free_spec. intros k r' Hk.
  destruct (decide (external_id r' = external_id r)) as [E | E]; [| by right].
  left. eapply (ext_unique d Hc); eauto.
Qed.

(** C5, as the schema has it. Whatever the current status of an item, an
    UPDATE of its status succeeds exactly when the requested status is
    one of the six values of the CHECK constraint, and then the item has
    that status; for any other text the statement fails on the CHECK
    constraint and the database is left as it was. *)
Theorem status_change_checked_for_membership (l : list stmt) now rid old s :
  backlog_items (run l empty_db) !! rid = Some old →
  (is_Some (Lifecycle.parse_status s) →
     ∃ d' r', sql_update_item now rid (set_status_to s) (run l empty_db) = Ok d'
              ∧ backlog_items d' !! rid = Some r' ∧ status r' = s)
  ∧ (Lifecycle.parse_status s = None →
     sql_update_item now rid (set_status_to s) (run l empty_db)
     = Err SQLITE_CONSTRAINT_CHECK
     ∧ exec (run l empty_db) (UpdateItem now rid (set_status_to s)) = run l empty_db).
Proof.
  intros Hold.
  pose proof (consistent_run l _ consistent_empty) as Hc.
  pose proof (check_item_set_status s old (rows_checked _ Hc _ _ Hold)) as Hchk.
  split.
  - intros [t Ht]. rewrite Ht in Hchk.
    destruct (sql_update_item_succeeds now rid (set_status_to s) _ old Hold Hchk)
      as [d' Hd'].
    { exact (external_id_free_own _ rid old Hc Hold). }
    destruct (sql_update_item_Ok _ _ _ _ _ _ Hold Hd') as (_ & _ & Hi & _).
    exists d', (stored_row now (set_status_to s) old).
    rewrite Hi, lookup_insert_eq, status_stored_row. by split_and!.
  - intros Hn. rewrite Hn in Hchk.
    assert (E : sql_update_item now rid (set_status_to s) (run l empty_db)
                = Err SQLITE_CONSTRAINT_CHECK).
    { unfold sql_update_item. by rewrite Hold, Hchk. }
    split; [done |]. simpl. by rewrite E.
Qed.

Lemma status_change_checked_for_membership_witness :
  (∃ d' r',
     sql_update_item 30 1 (set_status_to "open")
       (run [InsertItem 10 (new_item "a" "Fix login bug");
             UpdateItem 20 1 (set_status_to "done")] empty_db) = Ok d'
     ∧ backlog_items d' !! 1 = Some r' ∧ status r' = "open")
  ∧ sql_update_item 30 1 (set_status_to "backlog")
      (run [InsertItem 10 (new_item "a" "Fix login bug");
            UpdateItem 20 1 (set_status_to "done")] empty_db)
    = Err SQLITE_CONSTRAINT_CHECK.
Proof.
  split.
  - apply (status_change_checked_for_membership
             [InsertItem 10 (new_item "a" "Fix login bug");
              UpdateItem 20 1 (set_status_to "done")] 30 1
             (stored_row 20 (set_status_to "done")
                (inserted_row 10 (new_item "a" "Fix login bug"))) "open").
    + vm_compute. reflexivity.
    + vm_compute. eexists. reflexivity.
  - apply (status_change_checked_for_membership
             [InsertItem 10 (new_item "a" "Fix login bug");
              UpdateItem 20 1 (set_status_to "done")] 30 1
             (stored_row 20 (set_status_to "done")
                (inserted_row 10 (new_item "a" "Fix login bug"))) "backlog").
    + vm_compute. reflexivity.
    + vm_compute. reflexivity.
Defined.

(** C5 fails as stated: an item that is done is moved to in_progress by a
    plain UPDATE, a change the transition table does not allow. *)
Lemma illegal_status_change_accepted :
  ∃ d' r r',
    backlog_items
      (run [InsertItem 10 (new_item "a" "Fix login bug");
            UpdateItem 20 1 (set_status_to "done")] empty_db) !! 1 = Some r
    ∧ sql_update_item 30 1 (set_status_to "in_progress")
        (run [InsertItem 10 (new_item "a" "Fix login bug");
              UpdateItem 20 1 (set_status_to "done")] empty_db) = Ok d'
    ∧ backlog_items d' !! 1 = Some r'
    ∧ Lifecycle.parse_status (status r) = Some Lifecycle.Done
    ∧ Lifecycle.parse_status (status r') = Some Lifecycle.InProgress
    ∧ Lifecycle.legal_transition Lifecycle.Done Lifecycle.InProgress = false.
Proof.
  eexists _, _, _. split; [vm_compute; reflexivity |].
  split; [vm_compute; reflexivity |].
  split; [vm_compute; reflexivity |].
  split_and!; reflexivity.
Qed.

(** ** ORDER BY sorts, and keeps every row *)

Section OrderByFacts.
Context {A : Type} (leb : A → A → bool).

Lemma insert_sorted_Permutation x l : insert_sorted leb x l ≡ₚ x :: l.
Proof.
  induction l as [| y l IH]; simpl; [done |].
  destruct (leb x y); [done |].
  rewrite IH. apply Permutation_swap.
Qed.

Lemma order_by_Permutation l : order_by leb l ≡ₚ l.
Proof.
  induction l as [| x l IH]; simpl; [done |].
  by rewrite insert_sorted_Permutation, IH.
Qed.

Lemma elem_of_order_by x l : x ∈ order_by leb l ↔ x ∈ l.
Proof. by rewrite order_by_Permutation. Qed.

Hypothesis leb_total : ∀ a b, leb a b = true ∨ leb b a = true.
Hypothesis leb_trans : ∀ a b c, leb a b = true → leb b c = true → leb a c = true.

Lemma insert_sorted_StronglySorted x l :
  StronglySorted (λ a b, leb a b = true) l →
  StronglySorted (λ a b, leb a b = true) (insert_sorted leb x l).
Proof.
  induction 1 as [| y l Hl IH Hy]; simpl.
  - repeat constructor.
  - destruct (leb x y) eqn:Hxy.
    + constructor; [by constructor |].
      constructor; [done |].
      eapply Forall_impl; [exact Hy |]. intros z Hz. by eapply leb_trans.
    + constructor; [done |].
      rewrite insert_sorted_Permutation. constructor; [| done].
      destruct (leb_total x y) as [E | E]; [congruence | done].
Qed.

Lemma order_by_StronglySorted l :
  StronglySorted (λ a b, leb a b = true) (order_by leb l).
Proof.
  induction l as [| x l IH]; simpl; [constructor |].
  by apply insert_sorted_StronglySorted.
Qed.
End OrderByFacts.

Lemma key_leb_total a b : key_leb a b = true ∨ key_leb b a = true.
Proof.
  destruct a as [[a1 |] [a2 |]], b as [[b1 |] [b2 |]];
    unfold key_leb, null_first_ltb, null_first_leb; simpl;
    repeat match goal with
    | |- context [?x <? ?y] => destruct (Z.ltb_spec x y)
    | |- context [?x <=? ?y] => destruct (Z.leb_spec x y)
    end; simpl; auto; lia.
Qed.

Lemma key_leb_trans a b c :
  key_leb a b = true → key_leb b c = true → key_leb a c = true.
Proof.
  destruct a as [[a1 |] [a2 |]], b as [[b1 |] [b2 |]], c as [[c1 |] [c2 |]];
    unfold key_leb, null_first_ltb, null_first_leb; simpl;
    repeat match goal with
    | |- context [?x <? ?y] => destruct (Z.ltb_spec x y)
    | |- context [?x <=? ?y] => destruct (Z.leb_spec x y)
    end; simpl; auto; lia.
Qed.

Lemma elem_of_table_scan {V} (t : gmap Z V) k v :
  (k, v) ∈ table_scan t ↔ t !! k = Some v.
Proof. unfold table_scan. by rewrite elem_of_order_by, elem_of_map_to_list. Qed.

Lemma is_active_spec r :
  is_active r = true ↔ status r ≠ "done" ∧ status r ≠ "cancelled".
Proof.
  unfold is_active, sql_in. cbn [existsb].
  destruct (String.eqb_spec (status r) "done") as [E1 | E1];
    destruct (String.eqb_spec (status r) "cancelled") as [E2 | E2]; simpl;
    intuition congruence.
Qed.

(** C7, as the view has it. v_active_by_priority lists exactly the items
    whose status is neither done nor cancelled, each once, ordered by
    priority (P0 first) and, among items of one priority, by created_at
    ascending; the order of the listing depends on the snapshot alone,
    not on the time of the query. *)
Theorem active_items_ranked (d : db) :
  (∀ k r, (k, r) ∈ active_rows d ↔
          backlog_items d !! k = Some r
          ∧ status r ≠ "done" ∧ status r ≠ "cancelled")
  ∧ NoDup (active_rows d)
  ∧ StronglySorted
      (λ a b, key_leb (order_key (snd a)) (order_key (snd b)) = true)
      (active_rows d)
  ∧ (∀ now1 now2,
       map v_external_id (v_active_by_priority now1 d)
       = map v_external_id (v_active_by_priority now2 d)).
Proof.
  split_and!.
  - intros k r. unfold active_rows.
    rewrite elem_of_order_by, list_elem_of_In, filter_In, <- list_elem_of_In,
      elem_of_table_scan, is_active_spec. done.
  - unfold active_rows. rewrite order_by_Permutation.
    apply NoDup_ListNoDup, List.NoDup_filter, NoDup_ListNoDup.
    unfold table_scan. rewrite order_by_Permutation. apply NoDup_map_to_list.
  - apply (order_by_StronglySorted
             (λ a b, key_leb (order_key (snd a)) (order_key (snd b)))).
    + intros a b. apply key_leb_total.
    + intros a b c. apply key_leb_trans.
  - intros now1 now2. unfold v_active_by_priority.
    rewrite !map_map. done.
Qed.

(** C7 fails as stated: two items of one priority created at the same
    time are listed in rowid order, here "b" before "a", not by external
    id. *)
Lemma ties_not_ordered_by_external_id :
  map (λ v, (v_external_id v, v_priority v, v_created_at v))
      (v_active_by_priority 50
         (run [InsertItem 10 (new_item "b" "Renew certificate");
               InsertItem 10 (new_item "a" "Fix login bug")] empty_db))
  = [("b", "P2", Some 10); ("a", "P2", Some 10)]
  ∧ String.compare "a" "b" = Lt.
Proof. split; vm_compute; reflexivity. Qed.

(** ** The message queue of the WebSocket manager *)

Lemma flush_loop_open q w : Ws.flush_loop true q w = ([], w ++ q).
Proof.
  revert w. induction q as [| msg q IH]; intros w; simpl.
  - by rewrite app_nil_r.
  - rewrite IH. by rewrite <- app_assoc.
Qed.

Lemma connect_not_open m :
  Ws.isConnected m = false →
  Ws.isConnected (Ws.connect m) = false
  ∧ Ws.messageQueue (Ws.connect m) = Ws.messageQueue m
  ∧ Ws.wire (Ws.connect m) = Ws.wire m.
Proof.
  intros Hm. unfold Ws.connect. rewrite Hm.
  destruct (Ws.isConnecting m); [done |].
  split; [| done]. unfold Ws.isConnected, Ws.readyState.
  cbn [Ws.put_ws Ws.put_sockets Ws.put_connecting Ws.ws Ws.sockets].
  by rewrite list_lookup_middle.
Qed.

Lemma send_while_not_open msg m :
  Ws.isConnected m = false →
  Ws.isConnected (Ws.send msg m) = false
  ∧ Ws.messageQueue (Ws.send msg m) = Ws.messageQueue m ++ [msg]
  ∧ Ws.wire (Ws.send msg m) = Ws.wire m.
Proof.
  intros Hm. unfold Ws.send. rewrite Hm.
  set (m1 := Ws.put_queue (Ws.messageQueue m ++ [msg]) (Ws.wire m) m).
  assert (Ws.isConnected m1 = false) as H1 by done.
  cbv zeta. destruct (negb (Ws.isConnecting m1)); [| done].
  destruct (connect_not_open m1 H1) as (Hc & Hq & Hw). by rewrite Hc, Hq, Hw.
Qed.

Lemma sends_while_not_open msgs m :
  Ws.isConnected m = false →
  Ws.isConnected (Ws.steps (map Ws.Send msgs) m) = false
  ∧ Ws.messageQueue (Ws.steps (map Ws.Send msgs) m) = Ws.messageQueue m ++ msgs
  ∧ Ws.wire (Ws.steps (map Ws.Send msgs) m) = Ws.wire m.
Proof.
  revert m. induction msgs as [| msg msgs IH]; intros m Hm; simpl.
  - by rewrite app_nil_r.
  - destruct (send_while_not_open msg m Hm) as (Ho & Hq & Hw).
    destruct (IH _ Ho) as (Ho' & Hq' & Hw').
    unfold Ws.steps in *. rewrite Ho', Hq', Hw', Hq, Hw.
    by rewrite <- app_assoc.
Qed.

(** ** Sessions *)

Lemma terminal_session_rejects x r :
  Session.terminal (Session.session_state x) = true →
  Session.transition x r = Err Engine.InvalidTransition.
Proof.
  unfold Session.transition.
  destruct (Session.session_state x); simpl; try done;
    destruct r as [| ? | [] ? | | | ? | ?]; done.
Qed.

(** Every button the session dialog shows in a state sends a request
    that the state machine accepts in that state. *)
Lemma dialog_offers_legal_requests x a :
  a ∈ Board.modal_actions (Session.state_name (Session.session_state x)) →
  ∃ x', Session.transition x (Session.request_of a) = Ok x'.
Proof.
  unfold Session.transition.
  destruct (Session.session_state x); vm_compute;
    intros H; repeat (apply elem_of_cons in H as [-> | H]); try (by eexists);
    by apply elem_of_nil in H.
Qed.

(** C8. A denied approval moves a session that waits for approval to
    failed; in failed, as in completed, every request is refused with
    InvalidTransition and leaves the table of sessions as it was, a
    pause among them; and the session dialog offers no action in either
    state. *)
Theorem denied_session_is_terminal
    (t : gmap string Session.session) sid x reason :
  t !! sid = Some x →
  Session.session_state x = Session.waiting_for_approval →
  (∃ x1, Session.handle sid (Session.ResolveApproval false reason) t
         = Ok (Session.after sid (Session.ResolveApproval false reason) t)
         ∧ Session.after sid (Session.ResolveApproval false reason) t !! sid = Some x1
         ∧ Session.session_state x1 = Session.failed)
  ∧ Session.handle sid Session.PauseSession
      (Session.after sid (Session.ResolveApproval false reason) t)
    = Err Engine.InvalidTransition
  ∧ Session.after sid Session.PauseSession
      (Session.after sid (Session.ResolveApproval false reason) t)
    = Session.after sid (Session.ResolveApproval false reason) t
  ∧ (∀ (t' : gmap string Session.session) y r,
       t' !! sid = Some y →
       Session.terminal (Session.session_state y) = true →
       Session.handle sid r t' = Err Engine.InvalidTransition
       ∧ Session.after sid r t' = t')
  ∧ Board.modal_actions (Session.state_name Session.failed) = []
  ∧ Board.modal_actions (Session.state_name Session.completed) = [].
Proof.
  intros Hx Hs.
  assert (Hterm : ∀ (t' : gmap string Session.session) y r,
            t' !! sid = Some y →
            Session.terminal (Session.session_state y) = true →
            Session.handle sid r t' = Err Engine.InvalidTransition
            ∧ Session.after sid r t' = t').
  { intros t' y r Hy Ht. unfold Session.after, Session.handle.
    by rewrite Hy, (terminal_session_rejects y r Ht). }
  assert (Hdeny : Session.handle sid (Session.ResolveApproval false reason) t
                  = Ok (<[sid := Session.move Session.failed None reason x]> t)).
  { unfold Session.handle, Session.transition. by rewrite Hx, Hs. }
  assert (Hafter : Session.after sid (Session.ResolveApproval false reason) t
                   = <[sid := Session.move Session.failed None reason x]> t).
  { unfold Session.after. by rewrite Hdeny. }
  rewrite Hafter.
  assert (Hl : (<[sid := Session.move Session.failed None reason x]> t) !! sid
               = Some (Session.move Session.failed None reason x))
    by apply lookup_insert_eq.
  split_and!; try done.
  - by exists (Session.move Session.failed None reason x).
  - by apply (Hterm _ _ Session.PauseSession Hl).
  - by apply (Hterm _ _ Session.PauseSession Hl).
Qed.

Lemma denied_session_is_terminal_witness :
  Session.create "s1" "proj-x" "Refactor auth" "code" ∅
  = Ok (<["s1" := scenario_session Session.idle]> ∅)
  ∧ Session.after "s1" Session.PauseSession
      (Session.after "s1" (Session.ResolveApproval false (Some "not now"))
         scenario_sessions)
    = Session.after "s1" (Session.ResolveApproval false (Some "not now"))
        scenario_sessions.
Proof.
  split; [reflexivity |].
  apply (denied_session_is_terminal scenario_sessions "s1"
           (scenario_session Session.waiting_for_approval) (Some "not now")).
  - vm_compute. reflexivity.
  - reflexivity.
Defined.

(** ** The Broadcast Hub *)

Section HubFacts.
Context {N S W : Type} (bound : nat) (write : W → S → option S)
  (notification : W → S → N).

Lemma hub_queues_step (st : S * gmap nat (list N)) (e : Hub.event) :
  (∀ o q, snd st !! o = Some q → (length q ≤ bound)%nat) →
  ∀ o q, snd (Hub.step bound write notification st e) !! o = Some q →
         (length q ≤ bound)%nat.
Proof.
  intros Hst o q. destruct e as [w | o' | o' | o']; cbn [Hub.step snd].
  - unfold Hub.commit. destruct (write w (fst st)) as [s' |]; [| apply Hst].
    cbn [snd]. unfold Hub.publish. rewrite lookup_omap.
    destruct (snd st !! o) as [q0 |] eqn:E; [| done]. cbn.
    unfold Hub.offer. destruct (Nat.ltb_spec (length q0) bound); [| done].
    intros [= <-]. rewrite length_app. cbn. lia.
  - unfold Hub.connect. rewrite lookup_insert. case_decide; [| apply Hst].
    intros [= <-]. cbn. lia.
  - unfold Hub.deliver. rewrite lookup_alter. case_decide; [subst o' | apply Hst].
    destruct (snd st !! o) as [q0 |] eqn:E; [| done]. cbn. intros [= <-].
    rewrite length_drop. specialize (Hst o q0 E). lia.
  - unfold Hub.disconnect. intros Hq. apply lookup_delete_Some in Hq as [_ Hq].
    by apply (Hst o).
Qed.

Lemma hub_store_step (st : S * gmap nat (list N)) (e : Hub.event) :
  fst (Hub.step bound write notification st e) = Hub.apply_write write (fst st) e.
Proof.
  destruct e as [w | o | o | o]; cbn [Hub.step Hub.apply_write fst]; try done.
  unfold Hub.commit. by destruct (write w (fst st)).
Qed.

Lemma hub_run_spec (l : list Hub.event) : ∀ st : S * gmap nat (list N),
  (∀ o q, snd st !! o = Some q → (length q ≤ bound)%nat) →
  (∀ o q, snd (Hub.run bound write notification l st) !! o = Some q →
          (length q ≤ bound)%nat)
  ∧ fst (Hub.run bound write notification l st) = Hub.writes_only write l (fst st).
Proof.
  induction l as [| e l IH]; intros st Hst; [done |].
  change (Hub.run bound write notification (e :: l) st)
    with (Hub.run bound write notification l (Hub.step bound write notification st e)).
  change (Hub.writes_only write (e :: l) (fst st))
    with (Hub.writes_only write l (Hub.apply_write write (fst st) e)).
  rewrite <- hub_store_step. apply IH. by apply hub_queues_step.
Qed.

(** C9. Whatever writes are made and whatever the observers do - connect,
    take their notifications or not, disconnect - no observer has more
    than [bound] notifications queued; the store is what the writes
    alone make of it, so no write waits for, fails because of or is
    changed by an observer; a notification is pushed to every connected
    observer whose queue has room, and an observer whose queue is full
    is dropped by it; and a dropped observer that connects again is
    connected, with an empty queue. *)
Theorem observer_queues_are_bounded (l : list Hub.event) (s0 : S) :
  let st := Hub.run bound write notification l (s0, Hub.empty) in
  (∀ o q, snd st !! o = Some q → (length q ≤ bound)%nat)
  ∧ fst st = Hub.writes_only write l s0
  ∧ (∀ w s' o,
       write w (fst st) = Some s' →
       snd (Hub.step bound write notification st (Hub.Write w)) !! o
       = match snd st !! o with
         | Some q => if (length q <? bound)%nat
                     then Some (q ++ [notification w s']) else None
         | None => None
         end)
  ∧ (∀ o, snd (Hub.step bound write notification st (Hub.Connect o)) !! o = Some []).
Proof.
  intros st. destruct (hub_run_spec l (s0, Hub.empty)) as [Hq Hs]; [done |].
  split_and!; [exact Hq | exact Hs | |].
  - intros w s' o Hw. cbn [Hub.step]. unfold Hub.commit. rewrite Hw. cbn [snd].
    unfold Hub.publish. rewrite lookup_omap. by destruct (snd st !! o).
  - intros o. cbn [Hub.step snd]. unfold Hub.connect. apply lookup_insert_eq.
Qed.

End HubFacts.

(** A witness of C9, with room for two notifications: observer 1
    connects and takes nothing, so the third write finds its queue full
    and drops it; observer 2, which connected before that write, has it
    queued; the store holds the three writes. *)
Lemma observer_queues_are_bounded_witness :
  let write := λ (w : nat) (s : list nat), if (w =? 0)%nat then None else Some (s ++ [w]) in
  let notification := λ (w : nat) (s : list nat), w in
  let st := Hub.run 2 write notification
              [Hub.Connect 1; Hub.Write 5%nat; Hub.Write 0%nat; Hub.Write 6%nat;
               Hub.Connect 2; Hub.Write 7%nat]
              ([], Hub.empty) in
  (∀ o q, snd st !! o = Some q → (length q ≤ 2)%nat)
  ∧ fst st = [5; 6; 7]%nat
  ∧ snd st !! 1%nat = None
  ∧ snd st !! 2%nat = Some [7%nat].
Proof.
  intros write notification st.
  destruct (observer_queues_are_bounded 2 write notification
              [Hub.Connect 1; Hub.Write 5%nat; Hub.Write 0%nat; Hub.Write 6%nat;
               Hub.Connect 2; Hub.Write 7%nat] []) as (Hq & Hs & _).
  split_and!.
  - exact Hq.
  - exact Hs.
  - vm_compute. reflexivity.
  - vm_compute. reflexivity.
Defined.

(** ** No operation removes a row of backlog_items *)


Lemma check_item_status r :
  check_item r = true → is_set (Lifecycle.parse_status (status r)) = true.
Proof.
  unfold check_item. rewrite !andb_true_iff. intros [[_ Hs] _].
  by rewrite <- status_check_parse.
Qed.

Lemma status_log_valid_update now rid p d d' :
  consistent d → status_log_valid d →
  sql_update_item now rid p d = Ok d' → status_log_valid d'.
Proof.
  intros Hc Hv Hupd.
  destruct (backlog_items d !! rid) as [old |] eqn:Hold.
  2:{ rewrite sql_update_item_missing in Hupd by done. by injection Hupd as <-. }
  destruct (sql_update_item_Ok _ _ _ _ _ _ Hold Hupd) as (_ & _ & _ & He & _).
  intros e s. rewrite He, elem_of_app. intros [Hin | Hin]; [by apply Hv |].
  destruct (logged_events_spec now rid p old (backlog_events d)) as (i & j & E).
  rewrite E in Hin. clear E.
  pose proof (check_item_status old (rows_checked d Hc _ _ Hold)) as Hold_ok.
  destruct (is_set (p_status p) && _), (is_set (p_priority p) && _);
    simpl in Hin; rewrite ?elem_of_cons, ?elem_of_nil in Hin;
    destruct_or?; subst; try done;
    unfold event_field; simpl; intros _ [= <-]; done.
Qed.


Lemma keeps_items_refl d : keeps_items d d.
Proof. by split. Qed.





Lemma keeps_items_update now rid p d d' :
  sql_update_item now rid p d = Ok d' → keeps_items d d'.
Proof.
  intros Hupd. split.
  { intros [Hc Hv]. split;
      [eapply consistent_update | eapply status_log_valid_update]; eauto. }
  destruct (backlog_items d !! rid) as [old |] eqn:Hold.
  2:{ rewrite sql_update_item_missing in Hupd by done. by injection Hupd as <-. }
  destruct (sql_update_item_Ok _ _ _ _ _ _ Hold Hupd) as (_ & _ & Hi & _).
  intros k. rewrite Hi, lookup_insert. by case_decide.
Qed.

Lemma keeps_items_exec d s : keeps_items d (exec d s).
Proof.
  destruct s as [now v | now rid p]; simpl.
  - destruct (sql_insert_item now v d) as [[rid d'] |] eqn:E;
      [| apply keeps_items_refl].
    split.
    { intros [Hc Hv]. split; [eapply consistent_insert; eauto |].
      revert E. unfold sql_insert_item.
      destruct (check_item _); simpl; [| done].
      destruct (external_id_free _ _ _); simpl; [| done].
      by intros [= <- <-]. }
    revert E. unfold sql_insert_item.
    destruct (check_item _); simpl; [| done].
    destruct (external_id_free _ _ _); simpl; [| done].
    intros [= <- <-] k. simpl. rewrite lookup_insert. by case_decide.
  - destruct (sql_update_item now rid p d) as [d' |] eqn:E;
      [| apply keeps_items_refl].
    eapply keeps_items_update; eauto.
Qed.














(** ** Answering a clarification *)

















(** * Further properties *)

(** ** The constraints of backlog_items *)

Lemma check_passes_sql_in s (l : list string) :
  check_passes (sql_in (Some s) (map Some l)) = true ↔ s ∈ l.
Proof.
  assert (H : check_passes (sql_in (Some s) (map Some l)) = existsb (String.eqb s) l).
  { unfold sql_in. induction l as [| x l IH]; [done |].
    cbn [map existsb orb] in *.
    destruct (String.eqb s x); [done | exact IH]. }
  rewrite H. split.
  - intros (x & Hx & E)%existsb_exists.
    apply String.eqb_eq in E as ->. by apply list_elem_of_In.
  - intros Hin. apply existsb_exists. exists s.
    split; [by apply list_elem_of_In | apply String.eqb_refl].
Qed.

Lemma effort_check_vacuous (v : option string) :
  check_passes (sql_in v [Some "S"; Some "M"; Some "L"; None]) = true.
Proof.
  destruct v as [s |]; [| done]. unfold sql_in. cbn [existsb].
  destruct (String.eqb s "S"); [done |].
  destruct (String.eqb s "M"); [done |].
  by destruct (String.eqb s "L").
Qed.

Lemma check_item_spec r :
  check_item r = true ↔
  priority r ∈ ["P0"; "P1"; "P2"; "P3"]
  ∧ item_type r ∈ ["personal"; "work"; "mixed"]
  ∧ status r ∈ ["open"; "needs_clarification"; "in_progress"; "blocked";
                "done"; "cancelled"].
Proof.
  unfold check_item. rewrite !andb_true_iff.
  rewrite (check_passes_sql_in (priority r) ["P0"; "P1"; "P2"; "P3"]).
  rewrite (check_passes_sql_in (item_type r) ["personal"; "work"; "mixed"]).
  rewrite (check_passes_sql_in (status r)
             ["open"; "needs_clarification"; "in_progress"; "blocked";
              "done"; "cancelled"]).
  pose proof (effort_check_vacuous (estimated_effort r)). tauto.
Qed.

(** X1. In every state that statements reach, each row of backlog_items
    has a priority, a type and a status from the lists of the CHECK
    constraints, a rowid between 1 and the AUTOINCREMENT counter, and an
    external id that no other row carries. *)
Theorem stored_rows_satisfy_constraints (l : list stmt) k r :
  backlog_items (run l empty_db) !! k = Some r →
  priority r ∈ ["P0"; "P1"; "P2"; "P3"]
  ∧ item_type r ∈ ["personal"; "work"; "mixed"]
  ∧ status r ∈ ["open"; "needs_clarification"; "in_progress"; "blocked";
                "done"; "cancelled"]
  ∧ 1 ≤ k ≤ backlog_items_seq (run l empty_db)
  ∧ (∀ k' r', backlog_items (run l empty_db) !! k' = Some r' →
              external_id r' = external_id r → k' = k).
Proof.
  intros Hr.
  pose proof (consistent_run l _ consistent_empty) as Hc.
  pose proof (proj1 (check_item_spec r) (rows_checked _ Hc _ _ Hr)) as (Hp & Ht & Hs).
  split_and!; try done.
  - apply (keys_in_range _ Hc _ _ Hr).
  - apply (keys_in_range _ Hc _ _ Hr).
  - intros k' r' Hr' E. eapply (ext_unique _ Hc); eauto.
Qed.

Lemma stored_rows_satisfy_constraints_witness :
  priority (inserted_row 10 (new_item "a" "Fix login bug")) ∈ ["P0"; "P1"; "P2"; "P3"].
Proof.
  apply (stored_rows_satisfy_constraints
           [InsertItem 10 (new_item "a" "Fix login bug")] 1
           (inserted_row 10 (new_item "a" "Fix login bug"))).
  vm_compute. reflexivity.
Defined.

(** X2. The CHECK on estimated_effort rejects nothing: its list holds NULL,
    so for a text outside S, M, L the IN is NULL, not false. An UPDATE
    to any text, or to NULL, succeeds on every stored item. *)
Theorem estimated_effort_check_rejects_nothing (l : list stmt) now rid old v :
  backlog_items (run l empty_db) !! rid = Some old →
  ∃ d' r', sql_update_item now rid (set_effort_to v) (run l empty_db) = Ok d'
           ∧ backlog_items d' !! rid = Some r'
           ∧ estimated_effort r' = v.
Proof.
  intros Hold.
  pose proof (consistent_run l _ consistent_empty) as Hc.
  destruct (sql_update_item_succeeds now rid (set_effort_to v) _ old Hold) as [d' Hd'].
  - pose proof (rows_checked _ Hc _ _ Hold) as Hchk.
    unfold check_item in *. rewrite !andb_true_iff in *.
    destruct Hchk as [[[Hp Ht] Hs] _].
    cbn [apply_patch set_effort_to p_priority p_item_type p_status
         p_estimated_effort priority item_type status estimated_effort default].
    rewrite Hp, Ht, Hs. split_and!; try done. apply effort_check_vacuous.
  - exact (external_id_free_own _ rid old Hc Hold).
  - destruct (sql_update_item_Ok _ _ _ _ _ _ Hold Hd') as (_ & _ & Hi & _).
    exists d', (stored_row now (set_effort_to v) old).
    rewrite Hi, lookup_insert_eq. by split_and!.
Qed.

Lemma estimated_effort_check_rejects_nothing_witness :
  ∃ d' r',
    sql_update_item 20 1 (set_effort_to (Some "XL"))
      (run [InsertItem 10 (new_item "a" "Fix login bug")] empty_db) = Ok d'
    ∧ backlog_items d' !! 1 = Some r'
    ∧ estimated_effort r' = Some "XL".
Proof.
  apply (estimated_effort_check_rejects_nothing
           [InsertItem 10 (new_item "a" "Fix login bug")] 20 1
           (inserted_row 10 (new_item "a" "Fix login bug")) (Some "XL")).
  vm_compute. reflexivity.
Defined.

(** X3. An UPDATE of the priority succeeds exactly when the requested value
    is one of P0, P1, P2, P3, whatever the current priority; when it
    differs from the current one, trg_log_priority_change appends one
    priority_changed event with the old and the new priority, and none
    when it is the same; any other text fails on the CHECK constraint
    and leaves the database as it was. *)
Theorem priority_change_checked_and_logged (l : list stmt) now rid old q :
  backlog_items (run l empty_db) !! rid = Some old →
  (q ∈ ["P0"; "P1"; "P2"; "P3"] →
     ∃ d' r' new,
       sql_update_item now rid (set_priority_to q) (run l empty_db) = Ok d'
       ∧ backlog_items d' !! rid = Some r' ∧ priority r' = q
       ∧ backlog_events d' = backlog_events (run l empty_db) ++ new
       ∧ (priority old = q → new = [])
       ∧ (priority old ≠ q →
          ∃ e, new = [e] ∧ item_id e = rid ∧ event_type e = "priority_changed"
               ∧ event_field "old_priority" e = Some (priority old)
               ∧ event_field "new_priority" e = Some q))
  ∧ (q ∉ ["P0"; "P1"; "P2"; "P3"] →
     sql_update_item now rid (set_priority_to q) (run l empty_db)
     = Err SQLITE_CONSTRAINT_CHECK
     ∧ exec (run l empty_db) (UpdateItem now rid (set_priority_to q)) = run l empty_db).
Proof.
  intros Hold.
  pose proof (consistent_run l _ consistent_empty) as Hc.
  pose proof (proj1 (check_item_spec old) (rows_checked _ Hc _ _ Hold))
    as (Hp & Ht & Hs).
  assert (Hchk : check_item (apply_patch (set_priority_to q) old) = true
                 ↔ q ∈ ["P0"; "P1"; "P2"; "P3"]).
  { rewrite check_item_spec. simpl. tauto. }
  split.
  - intros Hq. apply Hchk in Hq.
    destruct (sql_update_item_succeeds now rid (set_priority_to q) _ old Hold Hq)
      as [d' Hd'].
    { exact (external_id_free_own _ rid old Hc Hold). }
    destruct (sql_update_item_Ok _ _ _ _ _ _ Hold Hd') as (_ & _ & Hi & He & _).
    exists d', (stored_row now (set_priority_to q) old),
      (logged_events now rid (set_priority_to q) old (backlog_events (run l empty_db))).
    rewrite Hi, lookup_insert_eq, priority_stored_row.
    split_and!; try done.
    + intros E.
      destruct (logged_events_spec now rid (set_priority_to q) old
                  (backlog_events (run l empty_db))) as (i & j & ->).
      simpl. apply String.eqb_eq in E. by rewrite E.
    + intros E.
      destruct (logged_events_spec now rid (set_priority_to q) old
                  (backlog_events (run l empty_db))) as (i & j & ->).
      simpl. apply String.eqb_neq in E. rewrite E. simpl.
      eexists. split; [reflexivity |]. by split_and!.
  - intros Hq.
    assert (E : sql_update_item now rid (set_priority_to q) (run l empty_db)
                = Err SQLITE_CONSTRAINT_CHECK).
    { unfold sql_update_item. rewrite Hold.
      destruct (check_item (apply_patch (set_priority_to q) old)); [| done].
      exfalso. by apply Hq, Hchk. }
    split; [done |]. simpl. by rewrite E.
Qed.

Lemma priority_change_checked_and_logged_witness :
  (∃ d' r' new,
     sql_update_item 20 1 (set_priority_to "P0")
       (run [InsertItem 10 (new_item "a" "Fix login bug")] empty_db) = Ok d'
     ∧ backlog_items d' !! 1 = Some r' ∧ priority r' = "P0"
     ∧ backlog_events d' = [] ++ new)
  ∧ sql_update_item 20 1 (set_priority_to "P4")
      (run [InsertItem 10 (new_item "a" "Fix login bug")] empty_db)
    = Err SQLITE_CONSTRAINT_CHECK.
Proof.
  destruct (priority_change_checked_and_logged
              [InsertItem 10 (new_item "a" "Fix login bug")] 20 1
              (inserted_row 10 (new_item "a" "Fix login bug")) "P0")
    as [Hin _]; [vm_compute; reflexivity |].
  destruct (priority_change_checked_and_logged
              [InsertItem 10 (new_item "a" "Fix login bug")] 20 1
              (inserted_row 10 (new_item "a" "Fix login bug")) "P4")
    as [_ Hout]; [vm_compute; reflexivity |].
  split.
  - destruct Hin as (d' & r' & new & H1 & H2 & H3 & H4 & _).
    { apply elem_of_cons. by left. }
    exists d', r', new. by split_and!.
  - apply Hout. intros H.
    repeat (apply elem_of_cons in H as [H | H]; [discriminate H |]).
    by apply elem_of_nil in H.
Defined.

(** ** The event log *)

Lemma events_exec d s : ∃ new, backlog_events (exec d s) = backlog_events d ++ new.
Proof.
  destruct s as [now v | now rid p]; simpl.
  - unfold sql_insert_item.
    destruct (check_item _); simpl; [| by exists []; rewrite app_nil_r].
    destruct (external_id_free _ _ _); simpl; exists []; by rewrite app_nil_r.
  - destruct (sql_update_item now rid p d) as [d' |] eqn:Hupd;
      [| by exists []; rewrite app_nil_r].
    destruct (backlog_items d !! rid) as [old |] eqn:Hold.
    + destruct (sql_update_item_Ok _ _ _ _ _ _ Hold Hupd) as (_ & _ & _ & He & _).
      eauto.
    + rewrite sql_update_item_missing in Hupd by done. injection Hupd as <-.
      exists []. by rewrite app_nil_r.
Qed.

Lemma events_run l d : ∃ new, backlog_events (run l d) = backlog_events d ++ new.
Proof.
  revert d. induction l as [| s l IH]; intros d; simpl.
  - exists []. by rewrite app_nil_r.
  - destruct (events_exec d s) as [n1 H1]. destruct (IH (exec d s)) as [n2 H2].
    exists (n1 ++ n2). unfold run in *. by rewrite H2, H1, app_assoc.
Qed.

Lemma ids_consecutive_insert_event now rid ext ty data actor d :
  ids_consecutive d → ids_consecutive (insert_event now rid ext ty data actor d).
Proof.
  intros H i e. simpl. intros Hi.
  apply lookup_app_Some in Hi as [Hi | [Hlen Hi]]; [by apply H |].
  apply list_lookup_singleton_Some in Hi as [Hz <-]. simpl. lia.
Qed.

Lemma ids_consecutive_exec d s : ids_consecutive d → ids_consecutive (exec d s).
Proof.
  intros H. destruct s as [now v | now rid p]; simpl.
  - unfold sql_insert_item.
    destruct (check_item _); simpl; [| done].
    by destruct (external_id_free _ _ _).
  - unfold sql_update_item.
    destruct (backlog_items d !! rid) as [old |]; [| done].
    destruct (check_item _); simpl; [| done].
    destruct (external_id_free _ _ _); simpl; [| done].
    assert (Hs : ∀ e, ids_consecutive e →
              ids_consecutive (trg_log_status_change now rid old (apply_patch p old) e)).
    { intros e He. unfold trg_log_status_change.
      destruct (String.eqb _ _); [done | by apply ids_consecutive_insert_event]. }
    assert (Hp : ∀ e, ids_consecutive e →
              ids_consecutive (trg_log_priority_change now rid old (apply_patch p old) e)).
    { intros e He. unfold trg_log_priority_change.
      destruct (String.eqb _ _); [done | by apply ids_consecutive_insert_event]. }
    assert (Hcmp : ∀ e, ids_consecutive e →
              ids_consecutive (trg_set_completed_at now rid old (apply_patch p old) e)).
    { intros e He. unfold ids_consecutive.
      by rewrite (proj1 (trg_set_completed_at_frame _ _ _ _ _)). }
    assert (Hupd : ∀ e, ids_consecutive e →
              ids_consecutive (trg_backlog_updated now rid e)) by done.
    assert (Hbase : ids_consecutive (with_items (insert rid (apply_patch p old)) d))
      by done.
    unfold after_update.
    destruct (is_set (p_status p)), (is_set (p_priority p));
      cbv beta iota zeta; auto 10.
Qed.

(** X4. No statement alters or removes an event once it is logged: the log
    after a longer script starts with the log after each of its
    beginnings; and the ids of the logged events are 1, 2, 3, ... in the
    order of the log. *)
Theorem event_log_append_only (l0 l : list stmt) :
  (∃ new, backlog_events (run (l0 ++ l) empty_db)
          = backlog_events (run l0 empty_db) ++ new)
  ∧ (∀ (i : nat) e, backlog_events (run l0 empty_db) !! i = Some e →
                    ev_id e = Z.of_nat i + 1).
Proof.
  split.
  - destruct (events_run l (run l0 empty_db)) as [new H]. exists new.
    unfold run in *. by rewrite fold_left_app.
  - assert (Hgen : ∀ d, ids_consecutive d → ids_consecutive (run l0 d)).
    { induction l0 as [| s l1 IH]; intros d Hd; [done |].
      apply IH, ids_consecutive_exec, Hd. }
    apply Hgen. intros i e. simpl. by rewrite lookup_nil.
Qed.

Lemma log_refers_to_items_exec d s :
  consistent d → log_refers_to_items d → log_refers_to_items (exec d s).
Proof.
  intros Hc H.
  destruct (keeps_items_exec d s) as [_ Hkeep].
  assert (Hold : ∀ e, e ∈ backlog_events d →
            is_Some (backlog_items (exec d s) !! item_id e)
            ∧ actor_type e = "system"
            ∧ (event_type e = "status_changed" ∨ event_type e = "priority_changed")
            ∧ ev_created_at e ≠ None).
  { intros e He. destruct (H e He) as (H1 & H2 & H3 & H4). split_and!; auto. }
  destruct s as [now v | now rid p]; simpl in *.
  - intros e He. apply Hold. revert He. unfold sql_insert_item.
    destruct (check_item _); simpl; [| done].
    by destruct (external_id_free _ _ _).
  - destruct (sql_update_item now rid p d) as [d' |] eqn:Hupd; [| done].
    destruct (backlog_items d !! rid) as [old |] eqn:Hrow.
    2:{ rewrite sql_update_item_missing in Hupd by done. by injection Hupd as <-. }
    destruct (sql_update_item_Ok _ _ _ _ _ _ Hrow Hupd) as (_ & _ & Hi & He & _).
    intros e. rewrite He, elem_of_app. intros [Hin | Hin]; [by apply Hold |].
    destruct (logged_events_spec now rid p old (backlog_events d)) as (i & j & E).
    rewrite E in Hin. clear E.
    assert (Hrid : is_Some (backlog_items d' !! rid)).
    { rewrite Hi, lookup_insert_eq. by eexists. }
    destruct (is_set (p_status p) && _), (is_set (p_priority p) && _);
      simpl in Hin; rewrite ?elem_of_cons, ?elem_of_nil in Hin;
      destruct_or?; subst; try done; simpl; split_and!; auto.
Qed.

(** X5. Every event in the log refers to an item that is stored, so the
    foreign key of backlog_events holds though nothing enforces it; it
    was written by a trigger, as actor system, with a timestamp, and is
    of type status_changed or priority_changed. *)
Theorem logged_events_refer_to_stored_items (l : list stmt) e :
  e ∈ backlog_events (run l empty_db) →
  is_Some (backlog_items (run l empty_db) !! item_id e)
  ∧ actor_type e = "system"
  ∧ (event_type e = "status_changed" ∨ event_type e = "priority_changed")
  ∧ ev_created_at e ≠ None.
Proof.
  assert (Hgen : ∀ d, consistent d → log_refers_to_items d →
            log_refers_to_items (run l d)).
  { induction l as [| s l1 IH]; intros d Hc Hd; [done |].
    apply IH; [by apply consistent_exec | by apply log_refers_to_items_exec]. }
  apply (Hgen empty_db consistent_empty).
  intros x Hx. simpl in Hx. by apply elem_of_nil in Hx.
Qed.

Lemma logged_events_refer_to_stored_items_witness :
  is_Some
    (backlog_items
       (run [InsertItem 10 (new_item "a" "Fix login bug");
             UpdateItem 20 1 (set_status_to "done")] empty_db)
     !! item_id (status_changed_event 20 1
                   (inserted_row 10 (new_item "a" "Fix login bug"))
                   (apply_patch (set_status_to "done")
                      (inserted_row 10 (new_item "a" "Fix login bug"))) 1)).
Proof.
  apply (logged_events_refer_to_stored_items
           [InsertItem 10 (new_item "a" "Fix login bug");
            UpdateItem 20 1 (set_status_to "done")]).
  vm_compute. apply elem_of_cons. by left.
Defined.

(** ** INSERT *)

(** X6. A successful INSERT hands out a rowid above every rowid in use,
    stores the row under it (status open, priority P2, type personal and
    category Personal where the statement names none), leaves every
    other row and the AUTOINCREMENT order as they are, and writes no
    event: no trigger is on INSERT. *)
Theorem insert_stores_fresh_row (l : list stmt) now v rid d' :
  sql_insert_item now v (run l empty_db) = Ok (rid, d') →
  backlog_items (run l empty_db) !! rid = None
  ∧ (∀ k, is_Some (backlog_items (run l empty_db) !! k) → k < rid)
  ∧ backlog_items d' !! rid = Some (inserted_row now v)
  ∧ (∀ k, k ≠ rid → backlog_items d' !! k = backlog_items (run l empty_db) !! k)
  ∧ backlog_events d' = backlog_events (run l empty_db)
  ∧ (i_status v = None → i_priority v = None → i_item_type v = None →
     i_category v = None →
     status (inserted_row now v) = "open" ∧ priority (inserted_row now v) = "P2"
     ∧ item_type (inserted_row now v) = "personal"
     ∧ category (inserted_row now v) = "Personal").
Proof.
  pose proof (consistent_run l _ consistent_empty) as Hc.
  unfold sql_insert_item.
  destruct (check_item _); simpl; [| done].
  destruct (external_id_free _ _ _); simpl; [| done].
  intros [= <- <-]. simpl.
  assert (Hlt : ∀ k, is_Some (backlog_items (run l empty_db) !! k) →
            k < backlog_items_seq (run l empty_db) + 1).
  { intros k [r Hr]. apply (keys_in_range _ Hc) in Hr. lia. }
  split_and!.
  - destruct (backlog_items (run l empty_db) !! _) eqn:E; [| done].
    assert (is_Some (backlog_items (run l empty_db)
                     !! (backlog_items_seq (run l empty_db) + 1))) as H%Hlt
      by (by rewrite E). lia.
  - done.
  - apply lookup_insert_eq.
  - intros k Hk. by rewrite lookup_insert_ne.
  - done.
  - intros -> -> -> ->. done.
Qed.

Lemma insert_stores_fresh_row_witness :
  backlog_items (run [InsertItem 10 (new_item "a" "Fix login bug")] empty_db) !! 2
  = None.
Proof.
  apply (insert_stores_fresh_row [InsertItem 10 (new_item "a" "Fix login bug")]
           20 (new_item "b" "Renew certificate") 2
           (run [InsertItem 10 (new_item "a" "Fix login bug");
                 InsertItem 20 (new_item "b" "Renew certificate")] empty_db)).
  vm_compute. reflexivity.
Defined.

(** X7. An INSERT whose external id is carried by a stored item fails, and
    the database is left as it was. *)
Theorem insert_rejects_duplicate_external_id (l : list stmt) now v k r :
  backlog_items (run l empty_db) !! k = Some r →
  i_external_id v = external_id r →
  (∃ e, sql_insert_item now v (run l empty_db) = Err e)
  ∧ exec (run l empty_db) (InsertItem now v) = run l empty_db.
Proof.
  intros Hr Hext.
  assert (H : ∃ e, sql_insert_item now v (run l empty_db) = Err e).
  { unfold sql_insert_item.
    destruct (check_item _); simpl; [| by eexists].
    destruct (external_id_free _ _ _) eqn:Hfree; simpl; [| by eexists].
    exfalso. rewrite external_id_free_spec in Hfree.
    destruct (Hfree k r Hr) as [-> | Hne].
    - pose proof (keys_in_range _ (consistent_run l _ consistent_empty) _ _ Hr). lia.
    - apply Hne. simpl. by rewrite Hext. }
  split; [exact H |]. destruct H as [e He]. simpl. by rewrite He.
Qed.

Lemma insert_rejects_duplicate_external_id_witness :
  exec (run [InsertItem 10 (new_item "a" "Fix login bug")] empty_db)
       (InsertItem 20 (new_item "a" "Another task"))
  = run [InsertItem 10 (new_item "a" "Fix login bug")] empty_db.
Proof.
  apply (insert_rejects_duplicate_external_id
           [InsertItem 10 (new_item "a" "Fix login bug")] 20
           (new_item "a" "Another task") 1
           (inserted_row 10 (new_item "a" "Fix login bug"))).
  - vm_compute. reflexivity.
  - reflexivity.
Defined.

(** ** The views v_needs_clarification and v_daily_stats *)

Lemma null_first_leb_total a b : null_first_leb a b = true ∨ null_first_leb b a = true.
Proof.
  destruct a as [a |], b as [b |]; simpl; auto.
  destruct (Z.leb_spec a b), (Z.leb_spec b a); auto; lia.
Qed.

Lemma null_first_leb_trans a b c :
  null_first_leb a b = true → null_first_leb b c = true → null_first_leb a c = true.
Proof.
  destruct a as [a |], b as [b |], c as [c |]; simpl; try done.
  rewrite !Z.leb_le. lia.
Qed.

(** X8. v_needs_clarification lists exactly the clarifications without an
    answer whose item is stored in status needs_clarification, each with
    the external id, title and raw input of its item, ordered by
    asked_at; an open clarification of an item in any other status is
    not listed, nor is an answered one. *)
Theorem needs_clarification_view_lists_open_questions (d : db) :
  (∀ row, row ∈ v_needs_clarification d ↔
          ∃ k c b,
            clarifications d !! k = Some c ∧ answer c = None
            ∧ backlog_items d !! c_item_id c = Some b
            ∧ status b = "needs_clarification"
            ∧ row = {| n_external_id := external_id b; n_title := title b;
                       n_raw_input := raw_input b; n_question := question c;
                       n_asked_at := asked_at c |})
  ∧ StronglySorted (λ a b, null_first_leb (n_asked_at a) (n_asked_at b) = true)
      (v_needs_clarification d).
Proof.
  split.
  - intros row. unfold v_needs_clarification.
    rewrite elem_of_order_by, list_elem_of_omap. split.
    + intros ([k c] & Hk & Hf). apply elem_of_table_scan in Hk. simpl in Hf.
      destruct (backlog_items d !! c_item_id c) as [b |] eqn:Hb; [| done].
      destruct (String.eqb_spec (status b) "needs_clarification") as [Hs | Hs];
        simpl in Hf; [| done].
      destruct (answer c) eqn:Ha; simpl in Hf; [done |].
      injection Hf as <-. exists k, c, b. by split_and!.
    + intros (k & c & b & Hk & Ha & Hb & Hs & ->).
      exists (k, c). split; [by apply elem_of_table_scan |].
      simpl. rewrite Hb, Ha, Hs. done.
  - apply (order_by_StronglySorted
             (λ a b, null_first_leb (n_asked_at a) (n_asked_at b))).
    + intros a b. apply null_first_leb_total.
    + intros a b c. apply null_first_leb_trans.
Qed.

Lemma total_Permutation f (l1 l2 : list DailyStats.daily_stats_row) :
  l1 ≡ₚ l2 → DailyStats.total f l1 = DailyStats.total f l2.
Proof.
  induction 1; simpl; lia.
Qed.

Lemma one_key_matches {K : Type} `{EqDecision K} (k : K) (ks : list K) :
  NoDup ks → k ∈ ks →
  length (List.filter (λ g, bool_decide (k = g)) ks) = 1%nat.
Proof.
  induction 1 as [| g ks Hg Hnd IH]; intros Hin; [by apply elem_of_nil in Hin |].
  cbn [List.filter]. apply elem_of_cons in Hin as [-> | Hin].
  - rewrite bool_decide_eq_true_2 by done. cbn [length]. f_equal.
    clear IH Hnd. induction ks as [| g' ks IH]; [done |].
    apply not_elem_of_cons in Hg as [Hne Hg]. cbn [List.filter].
    rewrite bool_decide_eq_false_2 by done. by apply IH.
  - rewrite bool_decide_eq_false_2 by (intros ->; done). by apply IH.
Qed.

Lemma group_sizes_add_up {A K : Type} `{EqDecision K} (f : A → K) (l : list A)
    (ks : list K) :
  NoDup ks → (∀ x, x ∈ l → f x ∈ ks) →
  foldr (λ g acc, Z.of_nat (length (List.filter (λ x, bool_decide (f x = g)) l)) + acc)
        0 ks
  = Z.of_nat (length l).
Proof.
  intros Hnd. induction l as [| x l IH]; intros Hks.
  - cbn [List.filter length]. clear. induction ks as [| k ks IH]; simpl; lia.
  - assert (Hstep : ∀ ks',
      foldr (λ g acc, Z.of_nat (length (List.filter
               (λ y, bool_decide (f y = g)) (x :: l))) + acc) 0 ks'
      = foldr (λ g acc, Z.of_nat (length (List.filter
                 (λ y, bool_decide (f y = g)) l)) + acc) 0 ks'
        + Z.of_nat (length (List.filter (λ g, bool_decide (f x = g)) ks'))).
    { clear. induction ks' as [| k ks' IH]; [done |].
      cbn [foldr]. rewrite IH. cbn [List.filter].
      destruct (bool_decide (f x = k)); cbn [length]; lia. }
    rewrite Hstep, IH, one_key_matches.
    + cbn [length]. lia.
    + done.
    + apply Hks, elem_of_cons. by left.
    + intros y Hy. apply Hks, elem_of_cons. by right.
Qed.

Lemma sum_case_bounds c (l : list backlog_item) :
  0 ≤ DailyStats.sum_case c l ≤ Z.of_nat (length l).
Proof.
  induction l as [| r l IH]; simpl; [lia |]. destruct (c r); lia.
Qed.

Lemma sum_case_p0_p1 (l : list backlog_item) :
  DailyStats.sum_case (λ r, String.eqb (priority r) "P0") l
  + DailyStats.sum_case (λ r, String.eqb (priority r) "P1") l
  ≤ Z.of_nat (length l).
Proof.
  induction l as [| r l IH]; simpl; [lia |].
  destruct (String.eqb_spec (priority r) "P0") as [E | E];
    destruct (String.eqb_spec (priority r) "P1") as [E' | E']; try lia.
  congruence.
Qed.

(** X9. v_daily_stats has one row for each day on which a stored item was
    created, latest day first; the items_created of its rows add up to
    the number of stored items, so every item is counted on exactly one
    day; and in each row items_created is at least 1, items_completed
    lies between 0 and items_created, and p0_items and p1_items together
    do not exceed items_created. *)
Theorem daily_stats_count_every_item_once (d : db) :
  DailyStats.total DailyStats.items_created (DailyStats.v_daily_stats d)
  = Z.of_nat (size (backlog_items d))
  ∧ NoDup (map DailyStats.date (DailyStats.v_daily_stats d))
  ∧ StronglySorted
      (λ a b, null_first_leb (DailyStats.date b) (DailyStats.date a) = true)
      (DailyStats.v_daily_stats d)
  ∧ (∀ row, row ∈ DailyStats.v_daily_stats d →
       1 ≤ DailyStats.items_created row
       ∧ 0 ≤ DailyStats.items_completed row ≤ DailyStats.items_created row
       ∧ 0 ≤ DailyStats.p0_items row ∧ 0 ≤ DailyStats.p1_items row
       ∧ DailyStats.p0_items row + DailyStats.p1_items row
         ≤ DailyStats.items_created row
       ∧ ∃ k r, backlog_items d !! k = Some r
                ∧ DailyStats.date row = DailyStats.date_of (created_at r)).
Proof.
  unfold DailyStats.v_daily_stats.
  set (rows := map snd (table_scan (backlog_items d))).
  set (ks := remove_dups (map (λ r, DailyStats.date_of (created_at r)) rows)).
  assert (Hlen : length rows = size (backlog_items d)).
  { unfold rows, table_scan. rewrite length_map, order_by_Permutation.
    apply length_map_to_list. }
  assert (Hks : ∀ g, g ∈ ks ↔ ∃ r, r ∈ rows ∧ DailyStats.date_of (created_at r) = g).
  { intros g. unfold ks. rewrite elem_of_remove_dups, list_elem_of_In, in_map_iff.
    split; intros (r & H1 & H2); exists r; rewrite ?list_elem_of_In in *; tauto. }
  assert (Hrows : ∀ r, r ∈ rows → ∃ k, backlog_items d !! k = Some r).
  { intros r. unfold rows. rewrite list_elem_of_In, in_map_iff.
    intros ([k r'] & <- & Hin). exists k.
    by apply list_elem_of_In, elem_of_table_scan in Hin. }
  split_and!.
  - rewrite (total_Permutation _ _ _ (order_by_Permutation _ _)).
    rewrite <- Hlen.
    rewrite <- (group_sizes_add_up (λ r, DailyStats.date_of (created_at r)) rows ks).
    + unfold DailyStats.total. clear. induction ks as [| k ks IH]; simpl; [done |].
      by rewrite IH.
    + apply NoDup_remove_dups.
    + intros r Hr. apply Hks. by exists r.
  - rewrite order_by_Permutation, map_map. simpl. rewrite map_id.
    apply NoDup_remove_dups.
  - apply (order_by_StronglySorted
             (λ a b, null_first_leb (DailyStats.date b) (DailyStats.date a))).
    + intros a b. apply null_first_leb_total.
    + intros a b c H1 H2. eapply null_first_leb_trans; eauto.
  - intros row. rewrite elem_of_order_by, list_elem_of_In, in_map_iff.
    intros (g & <- & Hg). apply list_elem_of_In, Hks in Hg as (r & Hr & Hd).
    unfold DailyStats.stats_of. simpl.
    pose proof (sum_case_bounds (λ r, String.eqb (status r) "done")
                  (DailyStats.group_of g rows)).
    pose proof (sum_case_bounds (λ r, String.eqb (priority r) "P0")
                  (DailyStats.group_of g rows)).
    pose proof (sum_case_bounds (λ r, String.eqb (priority r) "P1")
                  (DailyStats.group_of g rows)).
    pose proof (sum_case_p0_p1 (DailyStats.group_of g rows)).
    assert (Hmem : r ∈ DailyStats.group_of g rows).
    { unfold DailyStats.group_of. apply list_elem_of_In, filter_In.
      split; [by apply list_elem_of_In | by apply bool_decide_eq_true_2]. }
    assert (1 ≤ Z.of_nat (length (DailyStats.group_of g rows))).
    { destruct (DailyStats.group_of g rows); [by apply elem_of_nil in Hmem |].
      simpl. lia. }
    split_and!; try lia.
    destruct (Hrows r Hr) as [k Hk]. by exists k, r.
Qed.

(** ** The cleanup of system_metrics *)

Lemma record_all_snoc l nv t :
  Metrics.record_all (l ++ [nv]) t
  = Metrics.sql_insert_metric (fst nv) (snd nv) (Metrics.record_all l t).
Proof. unfold Metrics.record_all. by rewrite fold_left_app. Qed.

Lemma metrics_window l :
  StronglySorted Z.le (map fst l) →
  Forall (λ nv, Metrics.m_recorded_at (snd nv) = None) l →
  Metrics.system_metrics_seq (Metrics.record_all l Metrics.empty_table)
  = Z.of_nat (length l)
  ∧ ∀ k r,
      Metrics.system_metrics (Metrics.record_all l Metrics.empty_table) !! k = Some r ↔
      ∃ (i : nat) tm w,
        k = Z.of_nat i + 1 ∧ l !! i = Some (tm, w)
        ∧ r = Metrics.inserted_metric tm w
        ∧ default 0 (last (map fst l)) - 86400 ≤ tm.
Proof.
  induction l as [| [now v] l IH] using rev_ind; intros Hsorted Hdef.
  - split; [done |]. intros k r. simpl. rewrite lookup_empty. split; [done |].
    intros (i & tm & w & _ & Hi & _). by rewrite lookup_nil in Hi.
  - rewrite map_app in Hsorted. simpl in Hsorted.
    apply StronglySorted_app in Hsorted as (Hle & Hs1 & _).
    rewrite Forall_app, Forall_singleton in Hdef.
    destruct Hdef as [Hd1 Hd2]. simpl in Hd2.
    destruct (IH Hs1 Hd1) as [Hseq Htab]. clear IH.
    rewrite record_all_snoc. simpl fst. simpl snd.
    set (t := Metrics.record_all l Metrics.empty_table) in *.
    assert (Hlast : default 0 (last (map fst (l ++ [(now, v)]))) = now).
    { rewrite map_app. simpl. by rewrite last_snoc. }
    rewrite Hlast.
    assert (Hprev : ∀ (i : nat) tm w, l !! i = Some (tm, w) →
              tm ≤ now ∧ default 0 (last (map fst l)) ≤ now).
    { intros i tm w Hi. split.
      - apply Hle; [| apply elem_of_cons; by left].
        apply list_elem_of_In, in_map_iff. exists (tm, w).
        split; [done |]. apply list_elem_of_In. by eapply list_elem_of_lookup_2.
      - destruct (last (map fst l)) as [x |] eqn:E.
        + simpl. apply Hle; [| apply elem_of_cons; by left].
          by apply last_Some_elem_of.
        + apply last_None in E. destruct l; [by rewrite lookup_nil in Hi | done]. }
    split.
    { simpl. rewrite Hseq, length_app. simpl. lia. }
    intros k r. unfold Metrics.sql_insert_metric, Metrics.trg_cleanup_old_metrics.
    simpl. rewrite map_lookup_filter_Some. simpl. rewrite Hseq.
    rewrite lookup_insert. case_decide as Hk.
    + split.
      * intros [[= <-] Hold]. exists (length l), now, v.
        split_and!; [lia | | done | lia].
        by apply list_lookup_middle.
      * intros (i & tm & w & Hki & Hi & -> & Hwin).
        assert (i = length l) by lia. subst i.
        rewrite list_lookup_middle in Hi by done.
        injection Hi as <- <-. split; [done |].
        unfold Metrics.older_than_a_day, Metrics.inserted_metric. simpl.
        rewrite Hd2. simpl. apply Z.ltb_ge. lia.
    + rewrite Htab. split.
      * intros [(i & tm & w & Hki & Hi & -> & Hwin) Hold].
        exists i, tm, w. split_and!; try done.
        -- rewrite lookup_app_l; [done |]. by eapply lookup_lt_Some.
        -- unfold Metrics.older_than_a_day, Metrics.inserted_metric in Hold.
           simpl in Hold.
           assert (Hdi : Metrics.m_recorded_at w = None).
           { rewrite Forall_forall in Hd1.
             apply (Hd1 (tm, w)). by eapply list_elem_of_lookup_2. }
           rewrite Hdi in Hold. simpl in Hold. apply Z.ltb_ge in Hold. lia.
      * intros (i & tm & w & Hki & Hi & -> & Hwin).
        assert (Hlt : (i < length l)%nat).
        { apply lookup_lt_Some in Hi. rewrite length_app in Hi. simpl in Hi.
          destruct (decide (i = length l)); [lia | lia]. }
        rewrite lookup_app_l in Hi by done.
        destruct (Hprev i tm w Hi) as [Htm Hlt'].
        split.
        -- exists i, tm, w. split_and!; try done. lia.
        -- unfold Metrics.older_than_a_day, Metrics.inserted_metric. simpl.
           assert (Hdi : Metrics.m_recorded_at w = None).
           { rewrite Forall_forall in Hd1.
             apply (Hd1 (tm, w)). by eapply list_elem_of_lookup_2. }
           rewrite Hdi. simpl. apply Z.ltb_ge. lia.
Qed.

(** X10. With a clock that does not run backwards and timestamps left to
    their default, system_metrics is a sliding window of 24 hours: after
    the insert at time [now] the table holds the row just inserted and,
    of the rows inserted before, exactly those recorded at [now] minus
    24 hours or later, each under the rowid of its insert. *)
Theorem metrics_keep_the_last_24_hours
    (l : list (datetime * Metrics.metric_insert)) now v :
  StronglySorted Z.le (map fst l ++ [now]) →
  Forall (λ nv, Metrics.m_recorded_at (snd nv) = None) l →
  Metrics.m_recorded_at v = None →
  Metrics.system_metrics
    (Metrics.record_all (l ++ [(now, v)]) Metrics.empty_table)
    !! (Z.of_nat (length l) + 1) = Some (Metrics.inserted_metric now v)
  ∧ (∀ (i : nat) tm w, l !! i = Some (tm, w) →
       Metrics.system_metrics
         (Metrics.record_all (l ++ [(now, v)]) Metrics.empty_table)
         !! (Z.of_nat i + 1)
       = if decide (now - 86400 ≤ tm) then Some (Metrics.inserted_metric tm w)
         else None)
  ∧ (∀ k, k < 1 ∨ Z.of_nat (length l) + 1 < k →
       Metrics.system_metrics
         (Metrics.record_all (l ++ [(now, v)]) Metrics.empty_table) !! k = None).
Proof.
  intros Hsorted Hdef Hv.
  destruct (metrics_window (l ++ [(now, v)])) as [_ Htab].
  { rewrite map_app. exact Hsorted. }
  { apply Forall_app. split; [done | by apply Forall_singleton]. }
  match type of Htab with
  | context [default 0 ?x] =>
      assert (Hlast : default 0 x = now)
        by (rewrite map_app; simpl; by rewrite last_snoc);
      rewrite Hlast in Htab
  end.
  split_and!.
  - apply Htab. exists (length l), now, v. split_and!; [done | | done | lia].
    by apply list_lookup_middle.
  - intros i tm w Hi. case_decide as Hwin.
    + apply Htab. exists i, tm, w. split_and!; try done.
      rewrite lookup_app_l; [done |]. by eapply lookup_lt_Some.
    + destruct (Metrics.system_metrics _ !! _) as [r |] eqn:E; [| done].
      exfalso. apply Htab in E as (j & tm' & w' & Hk & Hj & _ & Hwin').
      assert (j = i) by lia. subst j.
      rewrite lookup_app_l in Hj by (by eapply lookup_lt_Some).
      pose proof (eq_trans (eq_sym Hi) Hj) as E. injection E as -> ->. lia.
  - intros k Hk.
    destruct (Metrics.system_metrics _ !! _) as [r |] eqn:E; [| done].
    exfalso. apply Htab in E as (j & tm' & w' & Hkj & Hj & _).
    apply lookup_lt_Some in Hj. rewrite length_app in Hj. simpl in Hj. lia.
Qed.

Lemma metrics_keep_the_last_24_hours_witness :
  Metrics.system_metrics
    (Metrics.record_all
       ([(0, sample_metric 10); (90000, sample_metric 20)]
        ++ [(100000, sample_metric 30)]) Metrics.empty_table) !! (Z.of_nat 0 + 1)
  = None
  ∧ Metrics.system_metrics
      (Metrics.record_all
         ([(0, sample_metric 10); (90000, sample_metric 20)]
          ++ [(100000, sample_metric 30)]) Metrics.empty_table) !! (Z.of_nat 1 + 1)
    = Some (Metrics.inserted_metric 90000 (sample_metric 20)).
Proof.
  destruct (metrics_keep_the_last_24_hours
              [(0, sample_metric 10); (90000, sample_metric 20)]
              100000 (sample_metric 30)) as (_ & H & _).
  - simpl. repeat constructor; lia.
  - repeat constructor.
  - reflexivity.
  - split.
    + apply (H 0%nat 0 (sample_metric 10)). reflexivity.
    + apply (H 1%nat 90000 (sample_metric 20)). reflexivity.
Defined.

(** ** The event bus *)

Lemma elem_of_values c l : c ∈ Bus.values l ↔ Some c ∈ l.
Proof.
  unfold Bus.values. rewrite list_elem_of_omap. split.
  - intros ([x|] & Hin & Heq); cbn in Heq; [|done]. by injection Heq as ->.
  - intros Hin. by exists (Some c).
Qed.

Lemma values_app l1 l2 : Bus.values (l1 ++ l2) = Bus.values l1 ++ Bus.values l2.
Proof. apply omap_app. Qed.

Lemma set_delete_app c l1 l2 :
  Bus.set_delete c (l1 ++ l2) = Bus.set_delete c l1 ++ Bus.set_delete c l2.
Proof. apply map_app. Qed.

Lemma set_delete_absent c l : c ∉ Bus.values l → Bus.set_delete c l = l.
Proof.
  induction l as [|x l IH]; [done|]. intros Hc. cbn.
  destruct (decide (x = Some c)) as [->|Hne].
  - exfalso. apply Hc. apply elem_of_values. by left.
  - f_equal. apply IH. intros Hin. apply Hc.
    destruct x; cbn; [by right|done].
Qed.

Lemma values_set_add c l :
  Bus.values (Bus.set_add c l)
  = Bus.values l ++ if decide (c ∈ Bus.values l) then [] else [c].
Proof.
  unfold Bus.set_add. destruct (decide (Some c ∈ l)) as [Hin|Hout].
  - rewrite decide_True by by apply elem_of_values. by rewrite app_nil_r.
  - rewrite decide_False by by rewrite elem_of_values. by rewrite values_app.
Qed.

Lemma values_set_delete c l :
  Bus.values (Bus.set_delete c l) = filter (λ x, x ≠ c) (Bus.values l).
Proof.
  induction l as [|x l IH]; [done|]. cbn.
  destruct (decide (x = Some c)) as [->|Hne]; cbn.
  - destruct (decide (c ≠ c)); [done|apply IH].
  - destruct x as [x|]; cbn; [|apply IH].
    destruct (decide (x ≠ c)); [f_equal; apply IH|]. exfalso. apply Hne. f_equal.
    by destruct (decide (x = c)).
Qed.

Lemma new_set_unused k s b : Bus.listeners b !! k = Some s → s ≠ Bus.new_set b.
Proof.
  intros Hk ->. apply (is_fresh (dom (Bus.sets b) ∪ map_img (Bus.listeners b) : gset nat)).
  apply elem_of_union. right. apply elem_of_map_img. by exists k.
Qed.

(** The Set that on(event, ...) adds to. *)
Lemma listeners_on k e c b :
  Bus.listeners (Bus.on e c b) !! k
  = if decide (k = e) then Some (default (Bus.new_set b) (Bus.listeners b !! e))
    else Bus.listeners b !! k.
Proof.
  unfold Bus.on. destruct (Bus.listeners b !! e) as [s|] eqn:E.
  - rewrite E. cbn. destruct (decide (k = e)) as [->|]; [done|done].
  - cbn [Bus.listeners]. rewrite lookup_insert_eq. cbn [Bus.listeners].
    destruct (decide (k = e)) as [->|Hne].
    + by rewrite lookup_insert_eq.
    + by rewrite lookup_insert_ne.
Qed.

Lemma entries_on s e c b :
  Bus.entries s (Bus.on e c b)
  = if decide (s = default (Bus.new_set b) (Bus.listeners b !! e))
    then Bus.set_add c (match Bus.listeners b !! e with
                        | Some _ => Bus.entries s b
                        | None => []
                        end)
    else Bus.entries s b.
Proof.
  unfold Bus.on, Bus.entries. destruct (Bus.listeners b !! e) as [s0|] eqn:E.
  - rewrite E. cbn. destruct (decide (s = s0)) as [->|Hne].
    + by rewrite lookup_insert_eq.
    + by rewrite lookup_insert_ne.
  - cbn [Bus.listeners]. rewrite lookup_insert_eq. cbn.
    destruct (decide (s = Bus.new_set b)) as [->|Hne].
    + by rewrite !lookup_insert_eq.
    + by rewrite !lookup_insert_ne.
Qed.

Lemma closures_on e c b : Bus.closures (Bus.on e c b) = Bus.closures b.
Proof.
  unfold Bus.on. destruct (Bus.listeners b !! e) as [s0|] eqn:E.
  - by rewrite E.
  - cbn [Bus.listeners]. by rewrite lookup_insert_eq.
Qed.

Lemma listeners_off e c b : Bus.listeners (Bus.off e c b) = Bus.listeners b.
Proof. unfold Bus.off. by destruct (Bus.listeners b !! e). Qed.

Lemma closures_off e c b : Bus.closures (Bus.off e c b) = Bus.closures b.
Proof. unfold Bus.off. by destruct (Bus.listeners b !! e). Qed.

Lemma entries_off s e c b :
  Bus.entries s (Bus.off e c b)
  = if decide (Bus.listeners b !! e = Some s) then Bus.set_delete c (Bus.entries s b)
    else Bus.entries s b.
Proof.
  unfold Bus.off, Bus.entries. destruct (Bus.listeners b !! e) as [s0|] eqn:E.
  - cbn. destruct (decide (Some s0 = Some s)) as [[= ->]|Hne].
    + by rewrite lookup_insert_eq.
    + rewrite lookup_insert_ne; [done|congruence].
  - by rewrite decide_False.
Qed.

Lemma listenerCount_length k b :
  Bus.listenerCount k b = length (Bus.subscribers k b).
Proof.
  unfold Bus.listenerCount, Bus.subscribers. by destruct (Bus.listeners b !! k).
Qed.

Lemma subscribers_on_same e c b :
  Bus.subscribers e (Bus.on e c b)
  = Bus.subscribers e b ++ if decide (c ∈ Bus.subscribers e b) then [] else [c].
Proof.
  unfold Bus.subscribers. rewrite listeners_on, decide_True by done.
  rewrite entries_on, decide_True by done.
  destruct (Bus.listeners b !! e) as [s|]; cbn [default id]; apply values_set_add.
Qed.

Lemma subscribers_clear k ev b :
  Bus.subscribers k (Bus.clear ev b)
  = if Bus.truthy ev
    then if decide (ev = Some k) then [] else Bus.subscribers k b
    else [].
Proof.
  unfold Bus.clear, Bus.subscribers. destruct (Bus.truthy ev) eqn:E; cbn [Bus.listeners].
  - destruct ev as [x|]; [|done]. cbn [default id].
    destruct (decide (Some x = Some k)) as [[= ->]|Hne].
    + by rewrite lookup_delete_eq.
    + rewrite lookup_delete_ne; [done|]. intros Heq. apply Hne. by f_equal.
  - by rewrite lookup_empty.
Qed.

(** X13. The listeners of an event are a Set: subscribing a function that
    is subscribed already changes nothing, and one off removes a
    function however often it was subscribed, leaving the bus as off
    alone would; listenerCount grows by one exactly for a function that
    was not subscribed. *)
Theorem subscribing_twice_registers_once (b : Bus.EventBus) (event : string)
    (c : Bus.callback) :
  Bus.on event c (Bus.on event c b) = Bus.on event c b
  ∧ (∀ k, Bus.subscribers k (Bus.off event c (Bus.on event c b))
          = Bus.subscribers k (Bus.off event c b))
  ∧ Bus.listenerCount event (Bus.on event c b)
    = (Bus.listenerCount event b
       + if decide (c ∈ Bus.subscribers event b) then 0 else 1)%nat.
Proof.
  split_and!.
  - pose proof (listeners_on event event c b) as Hl.
    rewrite decide_True in Hl by done.
    pose proof (entries_on (default (Bus.new_set b) (Bus.listeners b !! event)) event c b) as He.
    rewrite decide_True in He by done.
    set (s := default (Bus.new_set b) (Bus.listeners b !! event)) in *.
    unfold Bus.on at 1. rewrite Hl. cbn zeta. rewrite Hl, He.
    assert (Bus.sets (Bus.on event c b) !! s
            = Some (Bus.entries s (Bus.on event c b))) as Hs.
    { unfold Bus.entries, Bus.on. subst s.
      destruct (Bus.listeners b !! event) as [s0|] eqn:E.
      - rewrite E. cbn. by rewrite lookup_insert_eq.
      - cbn [Bus.listeners]. rewrite lookup_insert_eq. cbn. by rewrite lookup_insert_eq. }
    rewrite He in Hs.
    assert (∀ l, Bus.set_add c (Bus.set_add c l) = Bus.set_add c l) as Hidem.
    { intros l. unfold Bus.set_add at 1. rewrite decide_True; [done|].
      unfold Bus.set_add. destruct (decide (Some c ∈ l)); [done|].
      apply elem_of_app. right. by left. }
    rewrite Hidem, (insert_id _ _ _ Hs). by destruct (Bus.on event c b).
  - intros k. unfold Bus.subscribers.
    rewrite !listeners_off, listeners_on.
    destruct (Bus.listeners b !! event) as [s|] eqn:E; cbn [default id].
    + assert ((if decide (k = event) then Some s else Bus.listeners b !! k)
              = Bus.listeners b !! k) as -> by (by destruct (decide (k = event)) as [->|]).
      destruct (Bus.listeners b !! k) as [s2|] eqn:Ek; [|done].
      rewrite !entries_off, listeners_on, (decide_True (P := event = event)) by done.
      rewrite E. cbn [default id].
      destruct (decide (Some s = Some s2)) as [[= <-]|Hne]; [|].
      * rewrite entries_on, E, decide_True by done.
        rewrite !values_set_delete, values_set_add.
        destruct (decide (c ∈ Bus.values (Bus.entries s b))); [by rewrite app_nil_r|].
        rewrite filter_app, filter_cons_False by (intros H; by apply H).
        by rewrite filter_nil, app_nil_r.
      * rewrite entries_on, E. cbn [default id]. rewrite decide_False; [done|congruence].
    + assert (Bus.off event c b = b) as -> by (unfold Bus.off; by rewrite E).
      destruct (decide (k = event)) as [->|Hne].
      * rewrite E, entries_off, listeners_on, (decide_True (P := event = event)) by done.
        rewrite E. cbn [default id]. rewrite decide_True by done.
        rewrite entries_on, E, decide_True by done. cbn [default id].
        rewrite values_set_delete, values_set_add. cbn.
        destruct (decide (c ∈ [])); [done|]. cbn.
        by destruct (decide (c ≠ c)).
      * destruct (Bus.listeners b !! k) as [s2|] eqn:Ek; [|done].
        pose proof (new_set_unused k s2 b Ek) as Hfresh.
        rewrite entries_off, listeners_on, (decide_True (P := event = event)) by done.
        rewrite E. cbn [default id]. rewrite decide_False by congruence.
        rewrite entries_on, E. cbn [default id].
        by rewrite decide_False.
  - rewrite !listenerCount_length, subscribers_on_same.
    rewrite length_app. by destruct (decide (c ∈ Bus.subscribers event b)).
Qed.

(** X14. clear(event) removes the listeners of that event only when the
    name is a non-empty string: clear('') does what clear() does and
    removes the listeners of every event. *)
Theorem clear_of_empty_name_clears_all (b : Bus.EventBus) (event : option string)
    (k : string) :
  Bus.clear (Some "") b = Bus.clear None b
  ∧ Bus.listenerCount k (Bus.clear event b)
    = if Bus.truthy event
      then if decide (event = Some k) then 0%nat else Bus.listenerCount k b
      else 0%nat.
Proof.
  split; [done|].
  rewrite !listenerCount_length, subscribers_clear.
  destruct (Bus.truthy event); [|done].
  by destruct (decide (event = Some k)).
Qed.

Lemma subscribers_on k e c b :
  Bus.well_formed b →
  Bus.subscribers k (Bus.on e c b)
  = if decide (k = e)
    then Bus.subscribers e b ++ (if decide (c ∈ Bus.subscribers e b) then [] else [c])
    else Bus.subscribers k b.
Proof.
  intros [Hinj _]. destruct (decide (k = e)) as [->|Hne]; [apply subscribers_on_same|].
  unfold Bus.subscribers. rewrite listeners_on, decide_False by done.
  destruct (Bus.listeners b !! k) as [s|] eqn:Ek; [|done].
  rewrite entries_on, decide_False; [done|].
  destruct (Bus.listeners b !! e) as [s0|] eqn:Ee; cbn [default id].
  - intros ->. apply Hne. by apply (Hinj k e s0).
  - by apply (new_set_unused k).
Qed.

Lemma subscribers_off k e c b :
  Bus.well_formed b →
  Bus.subscribers k (Bus.off e c b)
  = if decide (k = e) then filter (λ x, x ≠ c) (Bus.subscribers e b)
    else Bus.subscribers k b.
Proof.
  intros [Hinj _]. unfold Bus.subscribers. rewrite listeners_off.
  destruct (decide (k = e)) as [->|Hne].
  - destruct (Bus.listeners b !! e) as [s|] eqn:Ee; [|done].
    rewrite entries_off, Ee, decide_True by done. apply values_set_delete.
  - destruct (Bus.listeners b !! k) as [s|] eqn:Ek; [|done].
    rewrite entries_off, decide_False; [done|].
    intros Ee. apply Hne. by apply (Hinj k e s).
Qed.

Lemma well_formed_new : Bus.well_formed Bus.new_bus.
Proof.
  split.
  - intros k1 k2 s H. unfold Bus.new_bus in H; cbn [Bus.listeners] in H.
    by rewrite lookup_empty in H.
  - intros k. unfold Bus.subscribers, Bus.new_bus; cbn [Bus.listeners].
    rewrite lookup_empty. split; [constructor|].
    intros w e f Hin. by apply elem_of_nil in Hin.
Qed.

Lemma well_formed_on e c b :
  Bus.well_formed b →
  (∀ w e' f, c = Bus.OnceWrapper w e' f → e' = e ∧ (w < Bus.closures b)%nat) →
  Bus.well_formed (Bus.on e c b).
Proof.
  intros Hwf Hc. split.
  - intros k1 k2 s. rewrite !listeners_on. destruct Hwf as [Hinj _].
    destruct (decide (k1 = e)) as [->|H1], (decide (k2 = e)) as [->|H2]; [done|..].
    + intros [= <-] H. destruct (Bus.listeners b !! e) as [s0|] eqn:Ee; cbn [default id] in H.
      * by apply (Hinj e k2 s0).
      * by apply new_set_unused in H.
    + intros H [= <-]. destruct (Bus.listeners b !! e) as [s0|] eqn:Ee; cbn [default id] in H.
      * by apply (Hinj k1 e s0).
      * by apply new_set_unused in H.
    + apply Hinj.
  - intros k. rewrite (subscribers_on k e c b Hwf), closures_on.
    destruct Hwf as [_ Hwf].
    destruct (decide (k = e)) as [->|Hne]; [|apply Hwf].
    destruct (decide (c ∈ Bus.subscribers e b)) as [Hin|Hout].
    + rewrite app_nil_r. apply Hwf.
    + split.
      * apply NoDup_app. split_and!; [apply Hwf| |apply NoDup_singleton].
        intros x Hx Hx'. apply list_elem_of_singleton in Hx'. by subst.
      * intros w e' f Hin. apply elem_of_app in Hin as [Hin|Hin].
        -- by apply (Hwf e) in Hin.
        -- apply list_elem_of_singleton in Hin. by apply (Hc w e' f).
Qed.

Lemma well_formed_off e c b : Bus.well_formed b → Bus.well_formed (Bus.off e c b).
Proof.
  intros Hwf. split.
  - rewrite listeners_off. apply Hwf.
  - intros k. rewrite (subscribers_off k e c b Hwf), closures_off.
    destruct Hwf as [_ Hwf].
    destruct (decide (k = e)) as [->|Hne]; [|apply Hwf].
    split.
    + apply NoDup_filter, Hwf.
    + intros w e' f Hin. apply list_elem_of_filter in Hin as [_ Hin].
      by apply (Hwf e) in Hin.
Qed.

Lemma well_formed_more_closures b :
  Bus.well_formed b →
  Bus.well_formed {| Bus.listeners := Bus.listeners b; Bus.sets := Bus.sets b;
                     Bus.closures := S (Bus.closures b) |}.
Proof.
  intros [Hinj Hwf]. split; [done|]. intros k. destruct (Hwf k) as [Hnd Hw].
  split; [done|]. intros w e f Hin. apply Hw in Hin as [? ?]. split; [done|].
  cbn. lia.
Qed.

Lemma well_formed_once e f b : Bus.well_formed b → Bus.well_formed (Bus.once e f b).
Proof.
  intros Hwf. unfold Bus.once. apply well_formed_on.
  - by apply well_formed_more_closures.
  - intros w e' g [= <- <- <-]. cbn. split; [done|lia].
Qed.

Lemma subscribers_once k e f b :
  Bus.well_formed b →
  Bus.subscribers k (Bus.once e f b)
  = if decide (k = e)
    then Bus.subscribers e b ++ [Bus.OnceWrapper (Bus.closures b) e f]
    else Bus.subscribers k b.
Proof.
  intros Hwf. unfold Bus.once.
  rewrite subscribers_on by by apply well_formed_more_closures.
  change (Bus.subscribers ?x {| Bus.listeners := Bus.listeners b; Bus.sets := Bus.sets b;
                                Bus.closures := S (Bus.closures b) |})
    with (Bus.subscribers x b).
  destruct (decide (k = e)) as [->|Hne]; [|done].
  destruct (decide (Bus.OnceWrapper (Bus.closures b) e f ∈ Bus.subscribers e b))
    as [Hin|_]; [|done].
  apply (proj2 Hwf e) in Hin as [_ Hlt]. lia.
Qed.

Lemma well_formed_clear ev b : Bus.well_formed b → Bus.well_formed (Bus.clear ev b).
Proof.
  intros [Hinj Hwf]. split.
  - intros k1 k2 s. unfold Bus.clear. destruct (Bus.truthy ev); cbn [Bus.listeners].
    + intros H1 H2. apply lookup_delete_Some in H1 as [_ H1].
      apply lookup_delete_Some in H2 as [_ H2]. by apply (Hinj k1 k2 s).
    + intros H. by rewrite lookup_empty in H.
  - intros k. rewrite subscribers_clear.
    assert (Bus.closures (Bus.clear ev b) = Bus.closures b) as ->.
    { unfold Bus.clear. by destruct (Bus.truthy ev). }
    assert (NoDup (@nil Bus.callback)
            ∧ ∀ w e f, Bus.OnceWrapper w e f ∈ @nil Bus.callback
                       → e = k ∧ (w < Bus.closures b)%nat) as Hnil.
    { split; [constructor|]. intros w e f Hin. by apply elem_of_nil in Hin. }
    destruct (Bus.truthy ev); [|done].
    destruct (decide (ev = Some k)); [done|apply Hwf].
Qed.

(** Whatever the listeners do, a task leaves the bus well formed. *)
Lemma well_formed_run {D : Type} (body : nat → Bus.argument D → list (Bus.request D))
    (fuel : nat) : ∀ t b r,
  Bus.well_formed b → Bus.run body fuel t b = Some r → Bus.well_formed (fst r).
Proof.
  induction fuel as [|n IH]; [done|]. intros t b r Hwf Hrun. cbn [Bus.run] in Hrun.
  destruct t as [[e f|e f|e f|e d|ev]|[|r0 l]|[f|w e f] a|s i a].
  - injection Hrun as <-. apply well_formed_on; [done|]. by intros w e' g.
  - injection Hrun as <-. by apply well_formed_off.
  - injection Hrun as <-. by apply well_formed_once.
  - apply bind_Some in Hrun as (r1 & E1 & Hrun).
    apply bind_Some in Hrun as (r2 & E2 & Hrun). injection Hrun as <-. cbn [fst].
    assert (Bus.well_formed (fst r1)) as Hwf1.
    { destruct (Bus.listeners b !! e); [by apply (IH _ _ _ Hwf E1)|].
      by injection E1 as <-. }
    destruct (Bus.listeners (fst r1) !! "*"); [by apply (IH _ _ _ Hwf1 E2)|].
    by injection E2 as <-.
  - injection Hrun as <-. by apply well_formed_clear.
  - by injection Hrun as <-.
  - apply bind_Some in Hrun as (r1 & E1 & Hrun).
    apply bind_Some in Hrun as (r2 & E2 & Hrun). injection Hrun as <-. cbn [fst].
    apply (IH _ _ _ (IH _ _ _ Hwf E1) E2).
  - apply bind_Some in Hrun as (r1 & E1 & Hrun). injection Hrun as <-. cbn [fst].
    apply (IH _ _ _ Hwf E1).
  - apply (IH _ _ _ (well_formed_off e (Bus.OnceWrapper w e f) b Hwf) Hrun).
  - destruct (Bus.entries s b !! i) as [[c|]|].
    + apply bind_Some in Hrun as (r1 & E1 & Hrun).
      apply bind_Some in Hrun as (r2 & E2 & Hrun). injection Hrun as <-. cbn [fst].
      apply (IH _ _ _ (IH _ _ _ Hwf E1) E2).
    + apply (IH _ _ _ Hwf Hrun).
    + by injection Hrun as <-.
Qed.

Lemma well_formed_history {D : Type} (body : nat → Bus.argument D → list (Bus.request D))
    (history : list (Bus.request D)) (fuel : nat) b calls :
  Bus.run body fuel (Bus.Script history) Bus.new_bus = Some (b, calls) →
  Bus.well_formed b.
Proof. intros H. apply (well_formed_run body fuel _ _ _ well_formed_new H). Qed.

Lemma elem_of_lasting x l : x ∈ Bus.lasting l ↔ x ∈ l ∧ Bus.is_wrapper x = false.
Proof.
  unfold Bus.lasting. rewrite !list_elem_of_In, filter_In, negb_true_iff. tauto.
Qed.

Lemma NoDup_lasting l : NoDup l → NoDup (Bus.lasting l).
Proof.
  induction 1 as [|x l Hx Hl IH]; cbn; [constructor|].
  destruct (Bus.is_wrapper x) eqn:E; cbn; [done|].
  constructor; [|done].
  intros Hin. apply Hx. exact (proj1 (proj1 (elem_of_lasting x l) Hin)).
Qed.

Lemma lasting_app l1 l2 : Bus.lasting (l1 ++ l2) = Bus.lasting l1 ++ Bus.lasting l2.
Proof. apply List.filter_app. Qed.

Lemma lasting_idemp l : Bus.lasting (Bus.lasting l) = Bus.lasting l.
Proof.
  induction l as [|x l IH]; [done|]. cbn.
  destruct (Bus.is_wrapper x) eqn:E; cbn; [done|]. rewrite E. cbn. by f_equal.
Qed.

Lemma quiet_elem {D : Type} (body : nat → Bus.argument D → list (Bus.request D)) a l c :
  Bus.quiet body a l = true → c ∈ l → body (Bus.target c) a = [].
Proof.
  unfold Bus.quiet. rewrite forallb_forall. intros H Hin.
  apply list_elem_of_In in Hin. apply H in Hin. by destruct (body (Bus.target c) a).
Qed.

Lemma quiet_sub {D : Type} (body : nat → Bus.argument D → list (Bus.request D)) a l l' :
  Bus.quiet body a l = true → (∀ c, c ∈ l' → c ∈ l) → Bus.quiet body a l' = true.
Proof.
  unfold Bus.quiet. rewrite !forallb_forall. intros H Hsub c Hin.
  apply H. apply list_elem_of_In, Hsub. by apply list_elem_of_In.
Qed.

Lemma run_for_each {D : Type} (body : nat → Bus.argument D → list (Bus.request D))
    n s i a b :
  Bus.run body (S n) (Bus.ForEach s i a) b
  = match Bus.entries s b !! i with
    | None => Some (b, [])
    | Some None => Bus.run body n (Bus.ForEach s (S i) a) b
    | Some (Some c) =>
        r1 ← Bus.run body n (Bus.Invoke c a) b;
        r2 ← Bus.run body n (Bus.ForEach s (S i) a) (fst r1);
        Some (fst r2, snd r1 ++ snd r2)
    end.
Proof. done. Qed.

Lemma run_emit {D : Type} (body : nat → Bus.argument D → list (Bus.request D))
    n e d b :
  Bus.run body (S n) (Bus.Request (Bus.Emit e d)) b
  = r1 ← match Bus.listeners b !! e with
         | Some s => Bus.run body n (Bus.ForEach s 0 (Bus.Data d)) b
         | None => Some (b, [])
         end;
    r2 ← match Bus.listeners (fst r1) !! "*" with
         | Some s => Bus.run body n (Bus.ForEach s 0 (Bus.EventAndData e d)) (fst r1)
         | None => Some (fst r1, [])
         end;
    Some (fst r2, snd r1 ++ snd r2).
Proof. done. Qed.

(** The call of a callback that does not call the bus. *)
Lemma invoke_quiet {D : Type} (body : nat → Bus.argument D → list (Bus.request D))
    n c a b :
  body (Bus.target c) a = [] →
  Bus.run body (S (S (S n))) (Bus.Invoke c a) b
  = Some (match c with
          | Bus.Fn _ => b
          | Bus.OnceWrapper _ e _ => Bus.off e c b
          end, [(Bus.target c, a)]).
Proof. intros H. destruct c; cbn in *; by rewrite H. Qed.

(** forEach over a Set whose callbacks do not call the bus: every
    callback from the entry [length pre] on is called once, in order,
    and the wrappers among them leave the Set. *)
Lemma for_each_quiet {D : Type} (body : nat → Bus.argument D → list (Bus.request D))
    (a : Bus.argument D) (k : string) (s : nat) : ∀ post pre b fuel,
  Bus.listeners b !! k = Some s →
  Bus.entries s b = pre ++ post →
  NoDup (Bus.values (pre ++ post)) →
  (∀ w e f, Bus.OnceWrapper w e f ∈ Bus.values post → e = k) →
  Bus.quiet body a (Bus.values post) = true →
  (length post + 4 ≤ fuel)%nat →
  ∃ b' post',
    Bus.run body fuel (Bus.ForEach s (length pre) a) b
    = Some (b', Bus.calls_of (Bus.values post) a)
    ∧ Bus.listeners b' = Bus.listeners b
    ∧ Bus.closures b' = Bus.closures b
    ∧ Bus.entries s b' = pre ++ post'
    ∧ Bus.values post' = Bus.lasting (Bus.values post)
    ∧ ∀ s', s' ≠ s → Bus.entries s' b' = Bus.entries s' b.
Proof.
  induction post as [|x post IH]; intros pre b fuel Hk Hent Hnd Hev Hq Hfuel.
  - destruct fuel as [|n]; [cbn in Hfuel; lia|]. rewrite run_for_each.
    rewrite Hent, app_nil_r, lookup_ge_None_2 by lia.
    exists b, []. by split_and!.
  - destruct fuel as [|n]; [cbn in Hfuel; lia|]. rewrite run_for_each.
    rewrite Hent, list_lookup_middle by done.
    cbn [length] in Hfuel.
    destruct x as [c|].
    + assert (Bus.values (Some c :: post) = c :: Bus.values post) as Hv by done.
      rewrite Hv in Hev, Hq.
      assert (body (Bus.target c) a = []) as Hbody.
      { apply (quiet_elem body a _ c Hq). by left. }
      assert (Bus.quiet body a (Bus.values post) = true) as Hq'.
      { apply (quiet_sub body a _ _ Hq). intros c' ?. by right. }
      rewrite values_app, Hv in Hnd.
      apply NoDup_app in Hnd as (Hpre & Hdisj & Hpost).
      apply NoDup_cons in Hpost as [Hfresh Hpost].
      destruct n as [|n1]; [lia|]. destruct n1 as [|n2]; [lia|].
      destruct n2 as [|n3]; [lia|].
      rewrite (invoke_quiet body n3 c a b Hbody).
      cbn [mbind option_bind fst snd].
      destruct c as [f|w e f].
      * (* a function from outside *)
        destruct (IH (pre ++ [Some (Bus.Fn f)]) b (S (S (S n3))))
          as (b' & post' & Hrun & Hl & Hc & He & Hvs & Ho).
        -- done.
        -- by rewrite <- app_assoc.
        -- rewrite <- app_assoc, values_app. cbn [app]. rewrite Hv.
           apply NoDup_app. split_and!; [done|done|by apply NoDup_cons].
        -- intros w e g Hin. apply (Hev w e g). by right.
        -- done.
        -- lia.
        -- rewrite length_app in Hrun. cbn [length] in Hrun.
           rewrite Nat.add_1_r in Hrun. rewrite Hrun. cbn [mbind option_bind fst snd].
           exists b', (Some (Bus.Fn f) :: post'). split_and!; [done|done|done| | |done].
           ++ by rewrite He, <- app_assoc.
           ++ change (Bus.values (Some (Bus.Fn f) :: post'))
                with (Bus.Fn f :: Bus.values post').
              by rewrite Hv, Hvs.
      * (* a wrapper of once *)
        assert (e = k) as ->. { apply (Hev w e f). by left. }
        set (c := Bus.OnceWrapper w k f) in *.
        assert (c ∉ Bus.values pre) as Hpre'.
        { intros Hin. apply (Hdisj _ Hin). by left. }
        destruct (IH (pre ++ [None]) (Bus.off k c b) (S (S (S n3))))
          as (b' & post' & Hrun & Hl & Hc & He & Hvs & Ho).
        -- by rewrite listeners_off.
        -- rewrite entries_off, decide_True by done.
           rewrite Hent, set_delete_app. cbn. rewrite decide_True by done.
           fold (Bus.set_delete c post).
           by rewrite !set_delete_absent, <- app_assoc.
        -- rewrite <- app_assoc, values_app. cbn [app].
           apply NoDup_app. split_and!; [done| |done].
           intros x Hx Hx'. apply (Hdisj _ Hx). by right.
        -- intros w' e g Hin. apply (Hev w' e g). by right.
        -- done.
        -- lia.
        -- rewrite length_app in Hrun. cbn [length] in Hrun.
           rewrite Nat.add_1_r in Hrun. rewrite Hrun. cbn [mbind option_bind fst snd].
           exists b', (None :: post'). split_and!.
           ++ done.
           ++ by rewrite Hl, listeners_off.
           ++ by rewrite Hc, closures_off.
           ++ by rewrite He, <- app_assoc.
           ++ change (Bus.values (None :: post')) with (Bus.values post').
              by rewrite Hv, Hvs.
           ++ intros s' Hs'. rewrite (Ho s' Hs'), entries_off.
              rewrite decide_False; [done|congruence].
    + (* an entry that was deleted *)
      destruct (IH (pre ++ [None]) b n)
        as (b' & post' & Hrun & Hl & Hc & He & Hvs & Ho).
      * done.
      * by rewrite <- app_assoc.
      * by rewrite <- app_assoc.
      * done.
      * done.
      * lia.
      * rewrite length_app in Hrun. cbn [length] in Hrun.
        rewrite Nat.add_1_r in Hrun. rewrite Hrun.
        exists b', (None :: post'). split_and!; [done|done|done| |done|done].
        by rewrite He, <- app_assoc.
Qed.

(** More fuel changes no result. *)
Lemma run_mono {D : Type} (body : nat → Bus.argument D → list (Bus.request D))
    (n : nat) : ∀ m t b r,
  Bus.run body n t b = Some r → (n ≤ m)%nat → Bus.run body m t b = Some r.
Proof.
  induction n as [|n IH]; [done|]. intros m t b r Hrun Hle.
  destruct m as [|m]; [lia|]. assert (n ≤ m)%nat as Hnm by lia.
  cbn [Bus.run] in *.
  destruct t as [[e f|e f|e f|e d|ev]|[|r0 l]|[f|w e f] a|s i a]; try done.
  - apply bind_Some in Hrun as (r1 & E1 & Hrun).
    apply bind_Some in Hrun as (r2 & E2 & Hrun).
    assert (match Bus.listeners b !! e with
            | Some s => Bus.run body m (Bus.ForEach s 0 (Bus.Data d)) b
            | None => Some (b, [])
            end = Some r1) as ->.
    { destruct (Bus.listeners b !! e); [by apply IH|done]. }
    cbn [mbind option_bind].
    assert (match Bus.listeners (fst r1) !! "*" with
            | Some s => Bus.run body m (Bus.ForEach s 0 (Bus.EventAndData e d)) (fst r1)
            | None => Some (fst r1, [])
            end = Some r2) as ->.
    { destruct (Bus.listeners (fst r1) !! "*"); [by apply IH|done]. }
    done.
  - apply bind_Some in Hrun as (r1 & E1 & Hrun).
    apply bind_Some in Hrun as (r2 & E2 & Hrun).
    rewrite (IH m _ _ _ E1 Hnm). cbn [mbind option_bind].
    by rewrite (IH m _ _ _ E2 Hnm).
  - apply bind_Some in Hrun as (r1 & E1 & Hrun).
    by rewrite (IH m _ _ _ E1 Hnm).
  - by apply IH.
  - destruct (Bus.entries s b !! i) as [[c|]|]; [|by apply IH|done].
    apply bind_Some in Hrun as (r1 & E1 & Hrun).
    apply bind_Some in Hrun as (r2 & E2 & Hrun).
    rewrite (IH m _ _ _ E1 Hnm). cbn [mbind option_bind].
    by rewrite (IH m _ _ _ E2 Hnm).
Qed.

(** One loop of emit over the Set of [k], whose callbacks do not call
    the bus. *)
Lemma for_each_key {D : Type} (body : nat → Bus.argument D → list (Bus.request D))
    (a : Bus.argument D) (k : string) (b : Bus.EventBus) :
  Bus.well_formed b →
  Bus.quiet body a (Bus.subscribers k b) = true →
  ∃ n b',
    (∀ fuel, (n ≤ fuel)%nat →
       match Bus.listeners b !! k with
       | Some s => Bus.run body fuel (Bus.ForEach s 0 a) b
       | None => Some (b, [])
       end = Some (b', Bus.calls_of (Bus.subscribers k b) a))
    ∧ Bus.listeners b' = Bus.listeners b
    ∧ Bus.closures b' = Bus.closures b
    ∧ (∀ k', Bus.subscribers k' b'
             = if decide (k' = k) then Bus.lasting (Bus.subscribers k b)
               else Bus.subscribers k' b)
    ∧ (∀ s, Bus.listeners b !! k ≠ Some s → Bus.entries s b' = Bus.entries s b).
Proof.
  intros Hwf Hq. unfold Bus.subscribers in Hq |- * at 1.
  destruct (Bus.listeners b !! k) as [s|] eqn:Ek.
  - destruct (for_each_quiet body a k s (Bus.entries s b) [] b
                (length (Bus.entries s b) + 4))
      as (b' & post' & Hrun & Hl & Hc & He & Hvs & Ho); [done|done|..].
    { cbn [app]. pose proof (proj1 (proj2 Hwf k)) as Hnd.
      unfold Bus.subscribers in Hnd. by rewrite Ek in Hnd. }
    { intros w e f Hin. pose proof (proj2 (proj2 Hwf k) w e f) as Hw.
      unfold Bus.subscribers in Hw. rewrite Ek in Hw. by apply Hw in Hin as [? _]. }
    { done. }
    { lia. }
    exists (length (Bus.entries s b) + 4)%nat, b'. split_and!; [|done|done| |].
    + intros fuel Hfuel. by apply (run_mono body _ fuel _ _ _ Hrun).
    + intros k'. unfold Bus.subscribers. rewrite Hl.
      destruct (decide (k' = k)) as [->|Hne].
      * by rewrite Ek, He.
      * destruct (Bus.listeners b !! k') as [s'|] eqn:Ek'; [|done].
        rewrite Ho; [done|]. intros ->. apply Hne. by apply (proj1 Hwf k' k s).
    + intros s' Hs'. apply Ho. congruence.
  - exists 0%nat, b. split_and!; [done|done|done| |done].
    intros k'. destruct (decide (k' = k)) as [->|Hne]; [|done].
    unfold Bus.subscribers. by rewrite Ek.
Qed.

Lemma well_formed_lasting k b b' :
  Bus.well_formed b →
  Bus.listeners b' = Bus.listeners b →
  Bus.closures b' = Bus.closures b →
  (∀ k', Bus.subscribers k' b'
         = if decide (k' = k) then Bus.lasting (Bus.subscribers k b)
           else Bus.subscribers k' b) →
  Bus.well_formed b'.
Proof.
  intros [Hinj Hwf] Hl Hc Hs. split; [by rewrite Hl|].
  intros k'. rewrite Hs, Hc. destruct (decide (k' = k)) as [->|]; [|apply Hwf].
  split; [apply NoDup_lasting, Hwf|].
  intros w e f Hin. apply elem_of_lasting in Hin as [Hin _]. by apply (Hwf k) in Hin.
Qed.

(** emit on a bus whose listeners of the event and of '*' do not call
    the bus. *)
Lemma emit_quiet {D : Type} (body : nat → Bus.argument D → list (Bus.request D))
    (e : string) (d : D) (b : Bus.EventBus) :
  Bus.well_formed b →
  Bus.quiet body (Bus.Data d) (Bus.subscribers e b) = true →
  Bus.quiet body (Bus.EventAndData e d) (Bus.wildcards e b) = true →
  ∃ n b',
    (∀ fuel, (n ≤ fuel)%nat →
       Bus.emit body fuel e d b
       = Some (b', Bus.calls_of (Bus.subscribers e b) (Bus.Data d)
                   ++ Bus.calls_of (Bus.wildcards e b) (Bus.EventAndData e d)))
    ∧ (∀ k, Bus.subscribers k b'
            = if decide (k = e ∨ k = "*") then Bus.lasting (Bus.subscribers k b)
              else Bus.subscribers k b)
    ∧ Bus.well_formed b'
    ∧ Bus.listeners b' = Bus.listeners b
    ∧ (∀ s, Bus.listeners b !! e ≠ Some s → Bus.listeners b !! "*" ≠ Some s →
            Bus.entries s b' = Bus.entries s b).
Proof.
  intros Hwf Hq1 Hq2.
  destruct (for_each_key body (Bus.Data d) e b Hwf Hq1)
    as (n1 & b1 & Hrun1 & Hl1 & Hc1 & Hs1 & Ho1).
  pose proof (well_formed_lasting e b b1 Hwf Hl1 Hc1 Hs1) as Hwf1.
  assert (Bus.subscribers "*" b1 = Bus.wildcards e b) as Hstar.
  { rewrite Hs1. unfold Bus.wildcards.
    destruct (decide (e = "*")) as [->|Hne]; [by rewrite decide_True|].
    by rewrite decide_False by congruence. }
  destruct (for_each_key body (Bus.EventAndData e d) "*" b1 Hwf1)
    as (n2 & b2 & Hrun2 & Hl2 & Hc2 & Hs2 & Ho2); [by rewrite Hstar|].
  exists (S (n1 + n2)), b2. split_and!.
  - intros fuel Hfuel. destruct fuel as [|m]; [lia|].
    unfold Bus.emit. rewrite run_emit, Hrun1 by lia. cbn [mbind option_bind fst snd].
    rewrite Hrun2 by lia. cbn [mbind option_bind fst snd]. by rewrite Hstar.
  - intros k. rewrite Hs2. destruct (decide (k = "*")) as [->|Hk].
    + rewrite Hstar, decide_True by tauto. unfold Bus.wildcards.
      destruct (decide (e = "*")); [apply lasting_idemp|done].
    + rewrite Hs1. destruct (decide (k = e)) as [->|Hke].
      * by rewrite decide_True by tauto.
      * by rewrite decide_False by tauto.
  - apply (well_formed_lasting "*" b1 b2 Hwf1 Hl2 Hc2 Hs2).
  - by rewrite Hl2, Hl1.
  - intros s He Hs. rewrite Ho2, Ho1; [done|done|]. by rewrite Hl1.
Qed.

(** Listeners that call the bus while an emit is running. The listener
    1 unsubscribes 2, which is then skipped, and 3 subscribes 4, which
    the same loop still reaches. *)
Example emit_follows_the_set_as_it_changes :
  let body := λ (f : nat) (a : Bus.argument nat),
                match f with
                | 1%nat => [Bus.Off "e" 2%nat]
                | 3%nat => [Bus.On "e" 4%nat]
                | _ => []
                end in
  snd <$> Bus.run body 20
            (Bus.Script [Bus.On "e" 1%nat; Bus.On "e" 2%nat; Bus.On "e" 3%nat;
                         Bus.Emit "e" 0%nat])
            Bus.new_bus
  = Some [(1%nat, Bus.Data 0%nat); (3%nat, Bus.Data 0%nat); (4%nat, Bus.Data 0%nat)].
Proof. vm_compute. reflexivity. Qed.

(** The listener 5 clears the event and subscribes 6: the loop goes on
    over the Set it started with and calls 7; the next emit finds the
    new Set and calls 6 alone. *)
Example emit_keeps_its_set_after_clear :
  let body := λ (f : nat) (a : Bus.argument nat),
                match f with
                | 5%nat => [Bus.Clear (Some "e"); Bus.On "e" 6%nat]
                | _ => []
                end in
  snd <$> Bus.run body 20
            (Bus.Script [Bus.On "e" 5%nat; Bus.On "e" 7%nat;
                         Bus.Emit "e" 0%nat; Bus.Emit "e" 1%nat])
            Bus.new_bus
  = Some [(5%nat, Bus.Data 0%nat); (7%nat, Bus.Data 0%nat); (6%nat, Bus.Data 1%nat)].
Proof. vm_compute. reflexivity. Qed.

(** X11. On a bus built by any sequence of calls, whatever the listeners
    did then: when the listeners of the event and of '*' do not call the
    bus, emit(event, data) calls every listener of the event once with
    the data, in the order of subscription, and then every listener of
    '*' once with { event, data }; a listener subscribed with once is
    unsubscribed by its call, so that emitting '*' itself reaches the
    once-listeners of '*' in the first round only. Afterwards the
    listeners of the event and of '*' are the ones not subscribed with
    once, and no other event has lost or gained a listener. *)
Theorem emit_calls_listeners_then_wildcards {D : Type}
    (body : nat → Bus.argument D → list (Bus.request D))
    (history : list (Bus.request D)) (fuel0 : nat) (b : Bus.EventBus)
    (calls0 : list (nat * Bus.argument D)) (event : string) (data : D) :
  Bus.run body fuel0 (Bus.Script history) Bus.new_bus = Some (b, calls0) →
  Bus.quiet body (Bus.Data data) (Bus.subscribers event b) = true →
  Bus.quiet body (Bus.EventAndData event data) (Bus.wildcards event b) = true →
  ∃ n b',
    (∀ fuel, (n ≤ fuel)%nat →
       Bus.emit body fuel event data b
       = Some (b', Bus.calls_of (Bus.subscribers event b) (Bus.Data data)
                   ++ Bus.calls_of (Bus.wildcards event b)
                                   (Bus.EventAndData event data)))
    ∧ ∀ k, Bus.subscribers k b'
           = if decide (k = event ∨ k = "*") then Bus.lasting (Bus.subscribers k b)
             else Bus.subscribers k b.
Proof.
  intros Hb Hq1 Hq2.
  destruct (emit_quiet body event data b (well_formed_history body _ _ _ _ Hb) Hq1 Hq2)
    as (n & b' & Hrun & Hs & _).
  by exists n, b'.
Qed.

(** A witness of X11: the once-listener 2 of 'x' is called after the
    listener 1 and before the listener 3 of '*', and is gone
    afterwards. *)
Lemma emit_calls_listeners_then_wildcards_witness :
  ∃ n b',
    (∀ fuel, (n ≤ fuel)%nat →
       Bus.emit Bus.sample_listeners fuel "x" 7%nat Bus.sample_bus
       = Some (b', [(1%nat, Bus.Data 7%nat); (2%nat, Bus.Data 7%nat);
                    (3%nat, Bus.EventAndData "x" 7%nat)]))
    ∧ Bus.subscribers "x" b' = [Bus.Fn 1].
Proof.
  destruct (emit_calls_listeners_then_wildcards Bus.sample_listeners Bus.sample_history
              20 Bus.sample_bus
              [(9%nat, Bus.Data 5%nat); (4%nat, Bus.Data 5%nat);
               (3%nat, Bus.EventAndData "routed" 5%nat);
               (3%nat, Bus.EventAndData "z" 5%nat)] "x" 7%nat)
    as (n & b' & Hrun & Hs).
  - vm_compute. reflexivity.
  - vm_compute. reflexivity.
  - vm_compute. reflexivity.
  - exists n, b'. split.
    + intros fuel Hfuel. rewrite (Hrun fuel Hfuel). reflexivity.
    + rewrite Hs. reflexivity.
Defined.

Lemma quiet_app {D : Type} (body : nat → Bus.argument D → list (Bus.request D)) a l1 l2 :
  Bus.quiet body a (l1 ++ l2) = Bus.quiet body a l1 && Bus.quiet body a l2.
Proof. apply forallb_app. Qed.

Lemma calls_of_app {D : Type} l1 l2 (a : Bus.argument D) :
  Bus.calls_of (l1 ++ l2) a = Bus.calls_of l1 a ++ Bus.calls_of l2 a.
Proof. apply map_app. Qed.

Lemma wildcards_once e f b :
  Bus.well_formed b → Bus.wildcards e (Bus.once e f b) = Bus.wildcards e b.
Proof.
  intros Hwf. unfold Bus.wildcards. rewrite (subscribers_once "*" e f b Hwf).
  destruct (decide (e = "*")) as [->|Hne].
  - rewrite decide_True by done. rewrite lasting_app. cbn. apply app_nil_r.
  - by rewrite decide_False by congruence.
Qed.

(** X12. once(event, f) on a bus built by any sequence of calls, when f
    and the listeners of the event and of '*' do not call the bus: the
    next emit of the event calls f with the data after the listeners
    that were there before, and leaves the bus as the same emit would
    have left it without the subscription, so f is not called again; and
    off(event, f) does not cancel the subscription, f is still
    called. *)
Theorem once_listener_runs_once {D : Type}
    (body : nat → Bus.argument D → list (Bus.request D))
    (history : list (Bus.request D)) (fuel0 : nat) (b : Bus.EventBus)
    (calls0 : list (nat * Bus.argument D)) (event : string) (f : nat) (data : D) :
  Bus.run body fuel0 (Bus.Script history) Bus.new_bus = Some (b, calls0) →
  Bus.quiet body (Bus.Data data) (Bus.subscribers event b) = true →
  Bus.quiet body (Bus.EventAndData event data) (Bus.wildcards event b) = true →
  body f (Bus.Data data) = [] →
  ∃ n b1 b0 b2 calls2,
    (∀ fuel, (n ≤ fuel)%nat →
       Bus.emit body fuel event data (Bus.once event f b)
       = Some (b1, Bus.calls_of (Bus.subscribers event b) (Bus.Data data)
                   ++ [(f, Bus.Data data)]
                   ++ Bus.calls_of (Bus.wildcards event b)
                                   (Bus.EventAndData event data))
       ∧ Bus.emit body fuel event data b
         = Some (b0, Bus.calls_of (Bus.subscribers event b) (Bus.Data data)
                     ++ Bus.calls_of (Bus.wildcards event b)
                                     (Bus.EventAndData event data))
       ∧ Bus.emit body fuel event data (Bus.off event (Bus.Fn f) (Bus.once event f b))
         = Some (b2, calls2))
    ∧ (∀ k, Bus.subscribers k b1 = Bus.subscribers k b0)
    ∧ (f, Bus.Data data) ∈ calls2.
Proof.
  intros Hb Hq1 Hq2 Hf.
  pose proof (well_formed_history body _ _ _ _ Hb) as Hwf.
  pose proof (well_formed_once event f b Hwf) as Hwf1.
  pose proof (well_formed_off event (Bus.Fn f) _ Hwf1) as Hwf2.
  set (W := Bus.OnceWrapper (Bus.closures b) event f).
  assert (Bus.subscribers event (Bus.once event f b) = Bus.subscribers event b ++ [W])
    as Hsub1.
  { by rewrite (subscribers_once event event f b Hwf), decide_True. }
  assert (Bus.quiet body (Bus.Data data) (Bus.subscribers event (Bus.once event f b))
          = true) as Hq1'.
  { rewrite Hsub1, quiet_app, Hq1. cbn. by rewrite Hf. }
  destruct (emit_quiet body event data b Hwf Hq1 Hq2) as (n0 & b0 & Hrun0 & Hs0 & _).
  destruct (emit_quiet body event data _ Hwf1 Hq1') as (n1 & b1 & Hrun1 & Hs1 & _).
  { by rewrite (wildcards_once event f b Hwf). }
  destruct (emit_quiet body event data _ Hwf2) as (n2 & b2 & Hrun2 & _).
  { apply (quiet_sub body _ _ _ Hq1'). intros c.
    rewrite (subscribers_off event event (Bus.Fn f) _ Hwf1), decide_True by done.
    intros Hin. by apply list_elem_of_filter in Hin as [_ Hin]. }
  { apply (quiet_sub body _ (Bus.wildcards event b)); [done|]. intros c.
    rewrite <- (wildcards_once event f b Hwf). unfold Bus.wildcards.
    rewrite (subscribers_off "*" event (Bus.Fn f) _ Hwf1).
    destruct (decide (event = "*")) as [->|Hne].
    - rewrite decide_True by done. rewrite !elem_of_lasting.
      intros [Hin ?]. split; [|done]. by apply list_elem_of_filter in Hin as [_ Hin].
    - by rewrite decide_False by congruence. }
  exists (n0 + n1 + n2)%nat, b1, b0, b2. eexists. split_and!.
  - intros fuel Hfuel. split_and!.
    + rewrite Hrun1 by lia. rewrite Hsub1, calls_of_app, (wildcards_once event f b Hwf).
      by rewrite <- app_assoc.
    + apply Hrun0. lia.
    + apply Hrun2. lia.
  - intros k. rewrite Hs1, Hs0, (subscribers_once k event f b Hwf).
    destruct (decide (k = event ∨ k = "*")) as [Hk|Hk]; [|by rewrite decide_False by tauto].
    destruct (decide (k = event)) as [->|Hne]; [|done].
    rewrite lasting_app. cbn. apply app_nil_r.
  - apply elem_of_app. left. unfold Bus.calls_of.
    apply (list_elem_of_fmap_2 (λ c, (Bus.target c, Bus.Data data)) _ W).
    rewrite (subscribers_off event event (Bus.Fn f) _ Hwf1), decide_True by done.
    apply list_elem_of_filter. split; [done|].
    rewrite Hsub1. apply elem_of_app. right. by apply list_elem_of_singleton.
Qed.

(** A witness of X12: once('x', 6) on the sample bus. *)
Lemma once_listener_runs_once_witness :
  ∃ n b1 b0 b2 calls2,
    (∀ fuel, (n ≤ fuel)%nat →
       Bus.emit Bus.sample_listeners fuel "x" 7%nat (Bus.once "x" 6 Bus.sample_bus)
       = Some (b1, [(1%nat, Bus.Data 7%nat); (2%nat, Bus.Data 7%nat);
                    (6%nat, Bus.Data 7%nat); (3%nat, Bus.EventAndData "x" 7%nat)])
       ∧ Bus.emit Bus.sample_listeners fuel "x" 7%nat Bus.sample_bus
         = Some (b0, [(1%nat, Bus.Data 7%nat); (2%nat, Bus.Data 7%nat);
                      (3%nat, Bus.EventAndData "x" 7%nat)])
       ∧ Bus.emit Bus.sample_listeners fuel "x" 7%nat
           (Bus.off "x" (Bus.Fn 6) (Bus.once "x" 6 Bus.sample_bus))
         = Some (b2, calls2))
    ∧ (∀ k, Bus.subscribers k b1 = Bus.subscribers k b0)
    ∧ (6%nat, Bus.Data 7%nat) ∈ calls2.
Proof.
  apply (once_listener_runs_once Bus.sample_listeners Bus.sample_history
           20 Bus.sample_bus
           [(9%nat, Bus.Data 5%nat); (4%nat, Bus.Data 5%nat);
            (3%nat, Bus.EventAndData "routed" 5%nat);
            (3%nat, Bus.EventAndData "z" 5%nat)] "x" 6%nat 7%nat).
  - vm_compute. reflexivity.
  - vm_compute. reflexivity.
  - vm_compute. reflexivity.
  - reflexivity.
Defined.

(** X15. handleMessage on a bus built by any sequence of calls: a message
    of type 'pong', of an empty type or of none reaches no listener and
    leaves the bus as it is. Any other message is emitted twice, as
    'ws:<type>' with its payload and as 'ws:message' with the whole
    message; when the listeners these two emits reach do not call the
    bus, every listener of '*' is called twice (a once-listener of '*'
    the first time only) and a lasting listener of 'ws:message' is
    called twice for a message whose type is 'message'. *)
Theorem incoming_message_is_emitted_twice
    (body : nat → Bus.argument Incoming.value → list (Bus.request Incoming.value))
    (history : list (Bus.request Incoming.value)) (fuel0 : nat) (b : Bus.EventBus)
    (calls0 : list (nat * Bus.argument Incoming.value)) (m : Incoming.message) :
  Bus.run body fuel0 (Bus.Script history) Bus.new_bus = Some (b, calls0) →
  match Incoming.type m with
  | Some t =>
      if decide (t = "pong" ∨ t = "")
      then ∀ fuel, Incoming.handleMessage body fuel m b = Some (b, [])
      else
        let typed := String.append "ws:" t in
        let p := Incoming.Payload (Incoming.payload m) in
        let again := if decide (t = "message")
                     then Bus.lasting (Bus.subscribers "ws:message" b)
                     else Bus.subscribers "ws:message" b in
        Bus.quiet body (Bus.Data p) (Bus.subscribers typed b) = true →
        Bus.quiet body (Bus.EventAndData typed p) (Bus.subscribers "*" b) = true →
        Bus.quiet body (Bus.Data (Incoming.Message m)) again = true →
        Bus.quiet body (Bus.EventAndData "ws:message" (Incoming.Message m))
                  (Bus.lasting (Bus.subscribers "*" b)) = true →
        ∃ n b',
          ∀ fuel, (n ≤ fuel)%nat →
            Incoming.handleMessage body fuel m b
            = Some (b', Bus.calls_of (Bus.subscribers typed b) (Bus.Data p)
                        ++ Bus.calls_of (Bus.subscribers "*" b) (Bus.EventAndData typed p)
                        ++ Bus.calls_of again (Bus.Data (Incoming.Message m))
                        ++ Bus.calls_of (Bus.lasting (Bus.subscribers "*" b))
                                        (Bus.EventAndData "ws:message"
                                           (Incoming.Message m)))
  | None => ∀ fuel, Incoming.handleMessage body fuel m b = Some (b, [])
  end.
Proof.
  intros Hb.
  pose proof (well_formed_history body _ _ _ _ Hb) as Hwf.
  unfold Incoming.handleMessage.
  destruct (Incoming.type m) as [t|] eqn:Ht; [|done].
  destruct (decide (t = "pong" ∨ t = "")) as [[->| ->]|Hno]; [done..|].
  rewrite bool_decide_eq_false_2 by (intros [= ->]; tauto).
  assert (Bus.truthy (Some t) = true) as ->.
  { cbn. destruct (String.eqb_spec t ""); [tauto|done]. }
  cbn [default id]. cbv zeta.
  set (typed := String.append "ws:" t).
  set (p := Incoming.Payload (Incoming.payload m)).
  assert (typed ≠ "*") as Hstar by done.
  intros Hq1 Hq2 Hq3 Hq4.
  assert (Bus.wildcards typed b = Bus.subscribers "*" b) as Hw1.
  { unfold Bus.wildcards. by rewrite decide_False. }
  destruct (emit_quiet body typed p b Hwf Hq1) as (n1 & b1 & Hrun1 & Hs1 & Hwf1 & _).
  { by rewrite Hw1. }
  assert (Bus.subscribers "ws:message" b1
          = if decide (t = "message") then Bus.lasting (Bus.subscribers "ws:message" b)
            else Bus.subscribers "ws:message" b) as Hs3.
  { rewrite Hs1. destruct (decide (t = "message")) as [->|Hne].
    - by rewrite decide_True by (by left).
    - rewrite decide_False; [done|]. intros [Heq|Heq]; [|done].
      apply Hne. subst typed. cbn in Heq. by injection Heq. }
  assert (Bus.wildcards "ws:message" b1 = Bus.lasting (Bus.subscribers "*" b)) as Hw2.
  { unfold Bus.wildcards. rewrite decide_False by done.
    rewrite Hs1. by rewrite decide_True by (by right). }
  destruct (emit_quiet body "ws:message" (Incoming.Message m) b1 Hwf1)
    as (n2 & b2 & Hrun2 & _).
  { by rewrite Hs3. }
  { by rewrite Hw2. }
  exists (n1 + n2)%nat, b2. intros fuel Hfuel.
  rewrite Hrun1 by lia. cbn [mbind option_bind fst snd].
  rewrite Hrun2 by lia. cbn [mbind option_bind fst snd].
  by rewrite Hw1, Hs3, Hw2, <- !app_assoc.
Qed.

(** A witness of X15: a message of a type that app.js does not route, on
    the bus of the dashboard. *)
Lemma incoming_message_is_emitted_twice_witness :
  let m := {| Incoming.type := Some "log"; Incoming.payload := Some "text" |} in
  ∃ n b',
    ∀ fuel, (n ≤ fuel)%nat →
      Incoming.handleMessage Incoming.routers fuel m Incoming.sample_bus
      = Some (b', [(7%nat, Bus.EventAndData "ws:log" (Incoming.Payload (Some "text")));
                   (7%nat, Bus.EventAndData "ws:message" (Incoming.Message m))]).
Proof.
  intros m.
  apply (incoming_message_is_emitted_twice Incoming.routers
           (Incoming.setupEventListeners
            ++ [Bus.On "*" 7%nat; Bus.On "system:metrics_update" 8%nat])
           10 Incoming.sample_bus [] m).
  - vm_compute. reflexivity.
  - vm_compute. reflexivity.
  - vm_compute. reflexivity.
  - vm_compute. reflexivity.
  - vm_compute. reflexivity.
Defined.

Lemma run_invoke_fn {D : Type} (body : nat → Bus.argument D → list (Bus.request D))
    n f a b :
  Bus.run body (S n) (Bus.Invoke (Bus.Fn f) a) b
  = r ← Bus.run body n (Bus.Script (body f a)) b; Some (fst r, (f, a) :: snd r).
Proof. done. Qed.

Lemma run_script_cons {D : Type} (body : nat → Bus.argument D → list (Bus.request D))
    n r l b :
  Bus.run body (S n) (Bus.Script (r :: l)) b
  = r1 ← Bus.run body n (Bus.Request r) b;
    r2 ← Bus.run body n (Bus.Script l) (fst r1);
    Some (fst r2, snd r1 ++ snd r2).
Proof. done. Qed.

(** forEach over entries that are all empty calls nothing. *)
Lemma for_each_tombstones {D : Type} (body : nat → Bus.argument D → list (Bus.request D))
    (a : Bus.argument D) (s : nat) : ∀ post pre b fuel,
  Bus.entries s b = pre ++ post →
  Bus.values post = [] →
  (length post + 1 ≤ fuel)%nat →
  Bus.run body fuel (Bus.ForEach s (length pre) a) b = Some (b, []).
Proof.
  induction post as [|x post IH]; intros pre b fuel Hent Hv Hfuel.
  - destruct fuel as [|n]; [cbn in Hfuel; lia|]. rewrite run_for_each.
    by rewrite Hent, app_nil_r, lookup_ge_None_2 by lia.
  - destruct fuel as [|n]; [cbn in Hfuel; lia|]. rewrite run_for_each.
    rewrite Hent, list_lookup_middle by done.
    destruct x as [c|]; [done|]. cbn [length] in Hfuel.
    pose proof (IH (pre ++ [None]) b n) as Hrun.
    rewrite length_app in Hrun. cbn [length] in Hrun.
    rewrite (Nat.add_1_r (length pre)) in Hrun. apply Hrun; [|done|lia].
    by rewrite <- app_assoc.
Qed.

(** forEach over a Set with one callback, whose call leaves the entries
    of the Set as they are. *)
Lemma for_each_single {D : Type} (body : nat → Bus.argument D → list (Bus.request D))
    (a : Bus.argument D) (s : nat) (c : Bus.callback) b1 calls n0 : ∀ post pre b,
  Bus.entries s b = pre ++ post →
  Bus.values post = [c] →
  Bus.run body n0 (Bus.Invoke c a) b = Some (b1, calls) →
  Bus.entries s b1 = Bus.entries s b →
  ∃ n, Bus.run body n (Bus.ForEach s (length pre) a) b = Some (b1, calls).
Proof.
  induction post as [|x post IH]; intros pre b Hent Hv Hinv Hsame; [done|].
  destruct x as [c'|].
  - injection Hv as -> Hv.
    exists (S (n0 + (length post + 1))). rewrite run_for_each.
    rewrite Hent, list_lookup_middle by done.
    rewrite (run_mono body n0 _ _ _ _ Hinv) by lia. cbn [mbind option_bind fst snd].
    pose proof (for_each_tombstones body a s post (pre ++ [Some c]) b1
                  (n0 + (length post + 1))) as Hrun.
    rewrite length_app in Hrun. cbn [length] in Hrun.
    rewrite (Nat.add_1_r (length pre)) in Hrun. rewrite Hrun; [|by rewrite Hsame, Hent, <- app_assoc|done|lia].
    cbn [mbind option_bind fst snd]. by rewrite app_nil_r.
  - destruct (IH (pre ++ [None]) b) as (n & Hrun); [by rewrite <- app_assoc|done..|].
    rewrite length_app in Hrun. cbn [length] in Hrun.
    rewrite (Nat.add_1_r (length pre)) in Hrun.
    exists (S n). rewrite run_for_each.
    by rewrite Hent, list_lookup_middle by done.
Qed.

(** X28. A message whose type has one listener, a router as app.js
    subscribes them, which emits another event with the payload: the
    router runs inside the first emit of handleMessage, so the listeners
    of the other event and of '*' are called before the listeners of '*'
    hear of 'ws:<type>', and a lasting listener of '*' is called three
    times for the one message, a once-listener of '*' for the routed
    event only. The other listeners reached do not call the bus. *)
Theorem routed_message_reaches_wildcards_three_times
    (body : nat → Bus.argument Incoming.value → list (Bus.request Incoming.value))
    (history : list (Bus.request Incoming.value)) (fuel0 : nat) (b : Bus.EventBus)
    (calls0 : list (nat * Bus.argument Incoming.value)) (m : Incoming.message)
    (t : string) (r : nat) (routed : string) :
  let typed := String.append "ws:" t in
  let p := Incoming.Payload (Incoming.payload m) in
  let whole := Incoming.Message m in
  Bus.run body fuel0 (Bus.Script history) Bus.new_bus = Some (b, calls0) →
  Incoming.type m = Some t →
  t ∉ ["pong"; ""; "message"] →
  routed ∉ [typed; "ws:message"; "*"] →
  Bus.subscribers typed b = [Bus.Fn r] →
  body r (Bus.Data p) = [Bus.Emit routed p] →
  Bus.quiet body (Bus.Data p) (Bus.subscribers routed b) = true →
  Bus.quiet body (Bus.EventAndData routed p) (Bus.subscribers "*" b) = true →
  Bus.quiet body (Bus.EventAndData typed p) (Bus.lasting (Bus.subscribers "*" b)) = true →
  Bus.quiet body (Bus.Data whole) (Bus.subscribers "ws:message" b) = true →
  Bus.quiet body (Bus.EventAndData "ws:message" whole)
            (Bus.lasting (Bus.subscribers "*" b)) = true →
  ∃ n b',
    ∀ fuel, (n ≤ fuel)%nat →
      Incoming.handleMessage body fuel m b
      = Some (b', (r, Bus.Data p)
                  :: Bus.calls_of (Bus.subscribers routed b) (Bus.Data p)
                  ++ Bus.calls_of (Bus.subscribers "*" b) (Bus.EventAndData routed p)
                  ++ Bus.calls_of (Bus.lasting (Bus.subscribers "*" b))
                                  (Bus.EventAndData typed p)
                  ++ Bus.calls_of (Bus.subscribers "ws:message" b) (Bus.Data whole)
                  ++ Bus.calls_of (Bus.lasting (Bus.subscribers "*" b))
                                  (Bus.EventAndData "ws:message" whole)).
Proof.
  intros typed p whole Hb Ht Htype Hrouted Hsub Hr Hq1 Hq2 Hq3 Hq4 Hq5.
  pose proof (well_formed_history body _ _ _ _ Hb) as Hwf.
  assert (t ≠ "pong" ∧ t ≠ "" ∧ t ≠ "message") as (Hpong & Hempty & Hmsg).
  { split_and!; intros ->; apply Htype; repeat constructor. }
  assert (routed ≠ typed ∧ routed ≠ "ws:message" ∧ routed ≠ "*") as (Hrt & Hrm & Hrs).
  { split_and!; intros ->; apply Hrouted; repeat constructor. }
  assert (typed ≠ "*") as Hstar by done.
  assert (typed ≠ "ws:message") as Htm.
  { intros Heq. apply Hmsg. unfold typed in Heq. cbn in Heq. by injection Heq. }
  (* the emit of the router *)
  destruct (emit_quiet body routed p b Hwf Hq1)
    as (nA & bA & HrunA & HsA & HwfA & HlA & HoA).
  { unfold Bus.wildcards. by rewrite decide_False. }
  unfold Bus.wildcards in HrunA. rewrite decide_False in HrunA by done.
  set (cA := Bus.calls_of (Bus.subscribers routed b) (Bus.Data p)
             ++ Bus.calls_of (Bus.subscribers "*" b) (Bus.EventAndData routed p)) in *.
  assert (Bus.run body (S (S (S nA))) (Bus.Invoke (Bus.Fn r) (Bus.Data p)) b
          = Some (bA, (r, Bus.Data p) :: cA)) as Hinv.
  { rewrite run_invoke_fn, Hr, run_script_cons.
    change (Bus.run body (S nA) (Bus.Request (Bus.Emit routed p)) b)
      with (Bus.emit body (S nA) routed p b).
    rewrite HrunA by lia. cbn. by rewrite app_nil_r. }
  (* the loop over the listeners of the typed event *)
  unfold Bus.subscribers in Hsub.
  destruct (Bus.listeners b !! typed) as [s|] eqn:Es; [|done].
  assert (Bus.entries s bA = Bus.entries s b) as Hsame.
  { apply HoA; intros E; [apply Hrt|apply Hstar]; by apply (proj1 Hwf _ _ s). }
  destruct (for_each_single body (Bus.Data p) s (Bus.Fn r) bA _ _
              (Bus.entries s b) [] b eq_refl Hsub Hinv Hsame) as (nC & HrunC).
  cbn [length] in HrunC.
  (* the loop over the listeners of '*' *)
  assert (Bus.subscribers "*" bA = Bus.lasting (Bus.subscribers "*" b)) as HstarA.
  { rewrite HsA. by rewrite decide_True by (by right). }
  destruct (for_each_key body (Bus.EventAndData typed p) "*" bA HwfA)
    as (nD & bD & HrunD & HlD & HcD & HsD & _); [by rewrite HstarA|].
  pose proof (well_formed_lasting "*" bA bD HwfA HlD HcD HsD) as HwfD.
  assert (∀ fuel, (S (nC + nD) ≤ fuel)%nat →
            Bus.emit body fuel typed p b
            = Some (bD, ((r, Bus.Data p) :: cA)
                        ++ Bus.calls_of (Bus.lasting (Bus.subscribers "*" b))
                                        (Bus.EventAndData typed p))) as Hfirst.
  { intros fuel Hfuel. destruct fuel as [|k]; [lia|].
    unfold Bus.emit. rewrite run_emit, Es.
    rewrite (run_mono body nC k _ _ _ HrunC) by lia. cbn [mbind option_bind fst snd].
    rewrite HrunD by lia. cbn [mbind option_bind fst snd]. by rewrite HstarA. }
  (* the emit of 'ws:message' *)
  assert (Bus.subscribers "ws:message" bD = Bus.subscribers "ws:message" b) as HsmD.
  { rewrite HsD, decide_False by done. rewrite HsA. rewrite decide_False; [done|].
    intros [Heq|Heq]; [by apply Hrm|done]. }
  assert (Bus.wildcards "ws:message" bD = Bus.lasting (Bus.subscribers "*" b)) as HwD.
  { unfold Bus.wildcards. rewrite decide_False by done.
    rewrite HsD, decide_True by done. rewrite HstarA. apply lasting_idemp. }
  destruct (emit_quiet body "ws:message" whole bD HwfD) as (nE & bE & HrunE & _).
  { by rewrite HsmD. }
  { by rewrite HwD. }
  exists (S (nC + nD) + nE)%nat, bE. intros fuel Hfuel.
  unfold Incoming.handleMessage. rewrite Ht.
  rewrite bool_decide_eq_false_2 by (intros [= ->]; tauto).
  assert (Bus.truthy (Some t) = true) as ->.
  { cbn. destruct (String.eqb_spec t ""); [tauto|done]. }
  cbn [default id]. fold typed. fold p. fold whole.
  rewrite Hfirst by lia. cbn [mbind option_bind fst snd].
  rewrite HrunE by lia. cbn [mbind option_bind fst snd].
  rewrite HsmD, HwD. subst cA. cbn [app]. by rewrite <- !app_assoc.
Qed.

(** A witness of X28: a message of type 'metrics' on the bus of the
    dashboard; the listener 7 of '*' is called three times. *)
Lemma routed_message_reaches_wildcards_three_times_witness :
  let m := {| Incoming.type := Some "metrics"; Incoming.payload := Some "42" |} in
  let p := Incoming.Payload (Some "42") in
  ∃ n b',
    ∀ fuel, (n ≤ fuel)%nat →
      Incoming.handleMessage Incoming.routers fuel m Incoming.sample_bus
      = Some (b', [(1%nat, Bus.Data p);
                   (8%nat, Bus.Data p);
                   (7%nat, Bus.EventAndData "system:metrics_update" p);
                   (7%nat, Bus.EventAndData "ws:metrics" p);
                   (7%nat, Bus.EventAndData "ws:message" (Incoming.Message m))]).
Proof.
  intros m p.
  apply (routed_message_reaches_wildcards_three_times Incoming.routers
           (Incoming.setupEventListeners
            ++ [Bus.On "*" 7%nat; Bus.On "system:metrics_update" 8%nat])
           10 Incoming.sample_bus [] m "metrics" 1%nat "system:metrics_update").
  - vm_compute. reflexivity.
  - reflexivity.
  - intros H. repeat (apply elem_of_cons in H as [H|H]; [discriminate H|]).
    by apply elem_of_nil in H.
  - intros H. repeat (apply elem_of_cons in H as [H|H]; [discriminate H|]).
    by apply elem_of_nil in H.
  - vm_compute. reflexivity.
  - reflexivity.
  - vm_compute. reflexivity.
  - vm_compute. reflexivity.
  - vm_compute. reflexivity.
  - vm_compute. reflexivity.
  - vm_compute. reflexivity.
Defined.

(** ** The WebSocket manager over any run *)

Lemma flush_loop_closed q w : Ws.flush_loop false q w = (q, w).
Proof. by destruct q. Qed.

Lemma set_ready_not_open s r m :
  r ≠ Ws.OPEN →
  Ws.isConnected m = false →
  Ws.isConnected (Ws.set_ready s r m) = false.
Proof.
  intros Hr Hm. unfold Ws.isConnected, Ws.readyState in *.
  cbn [Ws.set_ready Ws.put_sockets Ws.ws Ws.sockets].
  destruct (Ws.ws m) as [c |]; [| done].
  rewrite list_lookup_insert. case_decide as E; [by destruct r | done].
Qed.

Lemma queue_waits_set_ready s r m :
  r ≠ Ws.OPEN → queue_waits m → queue_waits (Ws.set_ready s r m).
Proof.
  intros Hr [Hm | Hq]; [left; by apply set_ready_not_open | by right].
Qed.

Lemma queue_waits_connect m :
  queue_waits m →
  queue_waits (Ws.connect m)
  ∧ Ws.messageQueue (Ws.connect m) = Ws.messageQueue m
  ∧ Ws.wire (Ws.connect m) = Ws.wire m.
Proof.
  intros Hinv. destruct (Ws.isConnected m) eqn:Hc.
  - unfold Ws.connect. by rewrite Hc.
  - destruct (connect_not_open m Hc) as (H1 & H2 & H3). split; [by left | done].
Qed.

Lemma onopen_flushes m :
  queue_waits (Ws.onopen m)
  ∧ Ws.wire (Ws.onopen m) ++ Ws.messageQueue (Ws.onopen m)
    = Ws.wire m ++ Ws.messageQueue m.
Proof.
  unfold Ws.onopen, Ws.flushQueue.
  set (m1 := Ws.put_should_reconnect true (Ws.put_attempts 0 (Ws.put_connecting false m))).
  change (Ws.messageQueue m1) with (Ws.messageQueue m).
  change (Ws.wire m1) with (Ws.wire m).
  assert (∀ q w, Ws.isConnected (Ws.startPing (Ws.put_queue q w m1)) = Ws.isConnected m1
                 ∧ Ws.messageQueue (Ws.startPing (Ws.put_queue q w m1)) = q
                 ∧ Ws.wire (Ws.startPing (Ws.put_queue q w m1)) = w) as Hping.
  { intros q w. unfold Ws.startPing, Ws.stopPing.
    cbn [Ws.put_queue Ws.pingInterval]. by destruct (Ws.pingInterval m1). }
  destruct (Ws.isConnected m1) eqn:Hc.
  - rewrite flush_loop_open. cbn [fst snd].
    destruct (Hping [] (Ws.wire m ++ Ws.messageQueue m)) as (_ & Hq & Hw).
    rewrite Hq, Hw. split; [by right | by rewrite app_nil_r].
  - rewrite flush_loop_closed. cbn [fst snd].
    destruct (Hping (Ws.messageQueue m) (Ws.wire m)) as (Hi & Hq & Hw).
    rewrite Hq, Hw. split; [left; by rewrite Hi | done].
Qed.

Lemma onclose_keeps c m :
  Ws.isConnected (fst (Ws.onclose c m)) = Ws.isConnected m
  ∧ Ws.messageQueue (fst (Ws.onclose c m)) = Ws.messageQueue m
  ∧ Ws.wire (fst (Ws.onclose c m)) = Ws.wire m.
Proof.
  unfold Ws.onclose, Ws.stopPing. cbn [Ws.put_connecting Ws.pingInterval].
  destruct (Ws.pingInterval m); cbn [Ws.shouldReconnect Ws.put_ping Ws.put_connecting];
    by destruct (Ws.shouldReconnect m && negb c).
Qed.

Lemma manager_step_keeps_messages m e :
  queue_waits m →
  queue_waits (Ws.step m e)
  ∧ Ws.wire (Ws.step m e) ++ Ws.messageQueue (Ws.step m e)
    = (Ws.wire m ++ Ws.messageQueue m) ++ sent_messages [e].
Proof.
  intros Hinv.
  destruct e as [msg | | s | s | s c | s | |]; cbn [Ws.step sent_messages omap];
    rewrite ?app_nil_r.
  - unfold Ws.send. destruct (Ws.isConnected m) eqn:Hc.
    + destruct Hinv as [Hm | Hq]; [congruence |].
      cbn [Ws.put_queue Ws.messageQueue Ws.wire]. rewrite Hq.
      split; [by right | by rewrite !app_nil_r].
    + destruct (send_while_not_open msg m Hc) as (H1 & H2 & H3).
      unfold Ws.send in H1, H2, H3. rewrite Hc in H1, H2, H3.
      rewrite H2, H3. split; [by left | by rewrite app_assoc].
  - destruct (queue_waits_connect m Hinv) as (H1 & H2 & H3). by rewrite H2, H3.
  - destruct (Ws.sockets m !! s) as [[] |]; try done.
    destruct (onopen_flushes (Ws.set_ready s Ws.OPEN m)) as [H1 H2].
    split; [done |]. by rewrite H2.
  - destruct (Ws.sockets m !! s) as [[] |]; try done.
    split; [by apply queue_waits_set_ready | done].
  - assert (queue_waits (fst (Ws.onclose c (Ws.set_ready s Ws.CLOSED m)))
            ∧ Ws.wire (fst (Ws.onclose c (Ws.set_ready s Ws.CLOSED m)))
              ++ Ws.messageQueue (fst (Ws.onclose c (Ws.set_ready s Ws.CLOSED m)))
              = Ws.wire m ++ Ws.messageQueue m) as Hclose.
    { destruct (onclose_keeps c (Ws.set_ready s Ws.CLOSED m)) as (H1 & H2 & H3).
      pose proof (queue_waits_set_ready s Ws.CLOSED m) as Hq.
      unfold queue_waits in *. rewrite H1, H2, H3. split; [by apply Hq | done]. }
    by destruct (Ws.sockets m !! s) as [[] |].
  - by destruct (Ws.sockets m !! s).
  - unfold Ws.reconnect_timer.
    destruct (queue_waits_connect (Ws.put_attempts (Ws.reconnectAttempts m + 1) m))
      as (H1 & H2 & H3); [done |].
    by rewrite H2, H3.
  - unfold Ws.disconnect, Ws.stopPing. cbn [Ws.put_should_reconnect Ws.pingInterval].
    destruct (Ws.pingInterval m); cbn [Ws.put_ping Ws.put_should_reconnect Ws.ws];
      destruct (Ws.ws m) as [c |] eqn:Hws; (split; [| done]).
    all: try (by left).
    all: destruct Hinv as [Hm | Hq]; [left | by right].
    all: unfold Ws.isConnected, Ws.readyState in *; cbn [Ws.ws Ws.put_ping
           Ws.put_should_reconnect Ws.sockets] in *; by rewrite ?Hws in *.
Qed.

Lemma manager_steps_keep_messages l : ∀ m,
  queue_waits m →
  queue_waits (Ws.steps l m)
  ∧ Ws.wire (Ws.steps l m) ++ Ws.messageQueue (Ws.steps l m)
    = (Ws.wire m ++ Ws.messageQueue m) ++ sent_messages l.
Proof.
  induction l as [| e l IH]; intros m Hinv.
  - cbn. by rewrite app_nil_r.
  - destruct (manager_step_keeps_messages m e Hinv) as [Hinv1 Heq1].
    destruct (IH _ Hinv1) as [Hinv2 Heq2].
    change (Ws.steps (e :: l) m) with (Ws.steps l (Ws.step m e)).
    split; [done |]. rewrite Heq2, Heq1, <- app_assoc. f_equal.
    unfold sent_messages. by rewrite <- omap_app.
Qed.

(** X16. Whatever happens to a manager - sends, connects, reconnect
    timers and disconnects in any order, and sockets that open, start to
    close, close or fail, be it the socket the manager holds or one it
    has replaced - no message given to send is lost, repeated or
    overtaken: what went to a socket followed by what waits in the
    queue is the list of the messages sent, in the order they were
    sent; and nothing waits in the queue while the socket of the
    manager is open. *)
Theorem no_message_lost_or_reordered (l : list Ws.event) :
  let m := Ws.steps l Ws.constructor in
  Ws.wire m ++ Ws.messageQueue m = sent_messages l
  ∧ (Ws.isConnected m = false ∨ Ws.messageQueue m = []).
Proof.
  intros m. destruct (manager_steps_keep_messages l Ws.constructor) as [Hinv Heq].
  - by left.
  - split; [| done]. exact Heq.
Qed.

(** X27. The queue of the manager has no bound: while the socket is not
    open, every send appends its message to the queue and hands nothing
    to a socket, however many messages are sent. *)
Theorem outbound_queue_has_no_bound (m : Ws.WebSocketManager) (msgs : list string) :
  Ws.isConnected m = false →
  Ws.messageQueue (Ws.steps (map Ws.Send msgs) m) = Ws.messageQueue m ++ msgs
  ∧ Ws.wire (Ws.steps (map Ws.Send msgs) m) = Ws.wire m
  ∧ Ws.isConnected (Ws.steps (map Ws.Send msgs) m) = false.
Proof.
  intros Hm. destruct (sends_while_not_open msgs m Hm) as (Ho & Hq & Hw). done.
Qed.

Lemma outbound_queue_has_no_bound_witness :
  Ws.messageQueue
    (Ws.steps (map Ws.Send ["subscribe"; "ping"; "ping"]) Ws.constructor)
  = [] ++ ["subscribe"; "ping"; "ping"].
Proof.
  apply (outbound_queue_has_no_bound Ws.constructor ["subscribe"; "ping"; "ping"]).
  reflexivity.
Defined.

Lemma Qred_inject_Z z :
  Qreduction.Qred (QArith_base.inject_Z z) = QArith_base.inject_Z z.
Proof.
  unfold Qreduction.Qred, QArith_base.inject_Z.
  pose proof (Z.ggcd_gcd z 1) as Hg.
  pose proof (Z.ggcd_correct_divisors z 1) as Hd.
  destruct (Z.ggcd z 1) as [g [a b]]. cbn [fst] in Hg.
  rewrite Z.gcd_1_r in Hg. subst g. destruct Hd as [Ha Hb].
  assert (a = z) as -> by lia. assert (b = 1) as -> by lia. reflexivity.
Qed.

Lemma Qmin_inject_Z u v :
  QArith_base.Qeq (Qminmax.Qmin (QArith_base.inject_Z u) (QArith_base.inject_Z v))
                  (QArith_base.inject_Z (Z.min u v)).
Proof.
  destruct (Z.le_ge_cases u v) as [H | H].
  - rewrite Z.min_l by done. apply Qminmax.Q.min_l. by rewrite <- QArith_base.Zle_Qle.
  - rewrite Z.min_r by lia. apply Qminmax.Q.min_r. rewrite <- QArith_base.Zle_Qle. lia.
Qed.

(** Without a negative exponent the delay is a whole number. *)
Lemma reconnect_delay_whole m :
  0 ≤ Ws.reconnectAttempts m →
  Ws.reconnect_delay m
  = QArith_base.inject_Z
      (Z.min (Ws.reconnectDelay m * 2 ^ Ws.reconnectAttempts m)
             (Ws.maxReconnectDelay m)).
Proof.
  intros Ha. unfold Ws.reconnect_delay.
  rewrite <- (Qred_inject_Z (Z.min _ _)).
  apply Qreduction.Qred_complete.
  rewrite <- Qmin_inject_Z.
  apply Qminmax.Q.min_compat; [| reflexivity].
  rewrite QArith_base.inject_Z_mult.
  apply QArith_base.Qmult_comp; [reflexivity |].
  symmetry. by apply Qpower.Zpower_Qpower.
Qed.

Lemma failed_round_fields m :
  Ws.shouldReconnect (failed_round m) = Ws.shouldReconnect m
  ∧ Ws.maxReconnectAttempts (failed_round m) = Ws.maxReconnectAttempts m
  ∧ Ws.reconnectDelay (failed_round m) = Ws.reconnectDelay m
  ∧ Ws.maxReconnectDelay (failed_round m) = Ws.maxReconnectDelay m
  ∧ (Ws.shouldReconnect m = true →
     Ws.reconnectAttempts (failed_round m)
     = if Ws.maxReconnectAttempts m <=? Ws.reconnectAttempts m
       then Ws.reconnectAttempts m else Ws.reconnectAttempts m + 1).
Proof.
  unfold failed_round, Ws.onclose, Ws.attemptReconnect, Ws.reconnect_timer,
    Ws.connect, Ws.stopPing.
  set (m0 := match Ws.ws m with
             | Some s => Ws.set_ready s Ws.CLOSED m
             | None => m
             end).
  assert (Ws.shouldReconnect m0 = Ws.shouldReconnect m
          ∧ Ws.maxReconnectAttempts m0 = Ws.maxReconnectAttempts m
          ∧ Ws.reconnectDelay m0 = Ws.reconnectDelay m
          ∧ Ws.maxReconnectDelay m0 = Ws.maxReconnectDelay m
          ∧ Ws.reconnectAttempts m0 = Ws.reconnectAttempts m) as (E1 & E2 & E3 & E4 & E5).
  { unfold m0. by destruct (Ws.ws m). }
  rewrite <- E1, <- E2, <- E3, <- E4, <- E5. clearbody m0. clear.
  cbn [Ws.put_connecting Ws.pingInterval Ws.shouldReconnect negb andb].
  destruct (Ws.shouldReconnect m0) eqn:Hs, (Ws.pingInterval m0);
    cbn [Ws.shouldReconnect Ws.put_ping Ws.put_connecting andb negb
         Ws.maxReconnectAttempts Ws.reconnectAttempts];
    rewrite ?Hs; cbn [andb];
    destruct (Ws.maxReconnectAttempts m0 <=? Ws.reconnectAttempts m0);
    cbv iota beta;
    repeat match goal with
           | |- context [if Ws.isConnected ?x then _ else _] =>
               destruct (Ws.isConnected x)
           end;
    cbn; rewrite ?Hs; split_and!; try done.
Qed.

Lemma failed_rounds_fields n : ∀ m,
  Ws.shouldReconnect m = true →
  0 ≤ Ws.reconnectAttempts m →
  Ws.shouldReconnect (failed_rounds n m) = true
  ∧ Ws.maxReconnectAttempts (failed_rounds n m) = Ws.maxReconnectAttempts m
  ∧ Ws.reconnectDelay (failed_rounds n m) = Ws.reconnectDelay m
  ∧ Ws.maxReconnectDelay (failed_rounds n m) = Ws.maxReconnectDelay m
  ∧ Ws.reconnectAttempts (failed_rounds n m)
    = Z.max (Ws.reconnectAttempts m)
        (Z.min (Ws.reconnectAttempts m + Z.of_nat n) (Ws.maxReconnectAttempts m)).
Proof.
  induction n as [| n IH]; intros m Hs Ha.
  - cbn [failed_rounds]. split_and!; try done. lia.
  - cbn [failed_rounds].
    destruct (failed_round_fields m) as (H1 & H2 & H3 & H4 & H5).
    specialize (H5 Hs).
    destruct (IH (failed_round m)) as (I1 & I2 & I3 & I4 & I5).
    + by rewrite H1.
    + rewrite H5. destruct (_ <=? _); lia.
    + rewrite I1, I2, I3, I4, I5, H2, H3, H4, H5. split_and!; try done.
      destruct (Z.leb_spec (Ws.maxReconnectAttempts m) (Ws.reconnectAttempts m)); lia.
Qed.

(** X17. The reconnect schedule of the manager. After a connection that
    was open, the close that follows [n] failed rounds sets the timer
    to min(reconnectDelay * 2^n, maxReconnectDelay) milliseconds while
    [n] is below maxReconnectAttempts, and sets no timer from then
    on. *)
Theorem reconnect_backoff_schedule (m : Ws.WebSocketManager) (n : nat) :
  Ws.shouldReconnect m = true →
  Ws.reconnectAttempts m = 0 →
  snd (Ws.onclose false (failed_rounds n m))
  = if Z.of_nat n <? Ws.maxReconnectAttempts m
    then Some (QArith_base.inject_Z
                 (Z.min (Ws.reconnectDelay m * 2 ^ Z.of_nat n)
                        (Ws.maxReconnectDelay m)))
    else None.
Proof.
  intros Hs Ha.
  destruct (failed_rounds_fields n m Hs) as (I1 & I2 & I3 & I4 & I5); [lia |].
  rewrite Ha in I5.
  set (r := failed_rounds n m) in *.
  assert (snd (Ws.onclose false r) = Ws.attemptReconnect r) as ->.
  { unfold Ws.onclose, Ws.stopPing. cbn [Ws.put_connecting Ws.pingInterval].
    destruct (Ws.pingInterval r);
      cbn [Ws.shouldReconnect Ws.put_ping Ws.put_connecting]; by rewrite I1. }
  unfold Ws.attemptReconnect. rewrite I2.
  destruct (Z.ltb_spec (Z.of_nat n) (Ws.maxReconnectAttempts m)) as [Hlt | Hge].
  - assert (Ws.reconnectAttempts r = Z.of_nat n) as Hr by lia.
    destruct (Z.leb_spec (Ws.maxReconnectAttempts m) (Ws.reconnectAttempts r));
      [lia |].
    rewrite reconnect_delay_whole by lia. by rewrite I3, I4, Hr.
  - destruct (Z.leb_spec (Ws.maxReconnectAttempts m) (Ws.reconnectAttempts r));
      [done | lia].
Qed.

Lemma reconnect_backoff_schedule_witness :
  snd (Ws.onclose false (failed_rounds 3 Ws.constructor))
  = Some (QArith_base.inject_Z 8000)
  ∧ snd (Ws.onclose false (failed_rounds 12 Ws.constructor)) = None.
Proof.
  split.
  - apply (reconnect_backoff_schedule Ws.constructor 3); reflexivity.
  - apply (reconnect_backoff_schedule Ws.constructor 12); reflexivity.
Defined.

Lemma manager_step_stays_disconnected m e :
  socket_opened e = false →
  Ws.shouldReconnect m = false →
  Ws.shouldReconnect (Ws.step m e) = false.
Proof.
  intros He Hs.
  assert (Hconn : ∀ x, Ws.shouldReconnect x = false →
                       Ws.shouldReconnect (Ws.connect x) = false).
  { intros x Hx. unfold Ws.connect.
    by destruct (Ws.isConnected x), (Ws.isConnecting x). }
  destruct e as [msg | | s | s | s c | s | |]; try done; cbn [Ws.step].
  - unfold Ws.send. destruct (Ws.isConnected m); [done |].
    cbv zeta. destruct (negb _); [by apply Hconn | done].
  - by apply Hconn.
  - by destruct (Ws.sockets m !! s) as [[] |].
  - assert (Ws.shouldReconnect (fst (Ws.onclose c (Ws.set_ready s Ws.CLOSED m)))
            = false) as Hc.
    { unfold Ws.onclose, Ws.stopPing. cbn [Ws.put_connecting Ws.pingInterval].
      destruct (Ws.pingInterval _);
        cbn [Ws.shouldReconnect Ws.put_ping Ws.put_connecting Ws.set_ready
             Ws.put_sockets]; by rewrite Hs. }
    by destruct (Ws.sockets m !! s) as [[] |].
  - by destruct (Ws.sockets m !! s).
  - by apply Hconn.
  - unfold Ws.disconnect, Ws.stopPing. cbn [Ws.put_should_reconnect Ws.pingInterval].
    destruct (Ws.pingInterval m); cbn; by destruct (Ws.ws m).
Qed.

Lemma disconnect_clears_should_reconnect m :
  Ws.shouldReconnect (Ws.disconnect m) = false.
Proof.
  unfold Ws.disconnect, Ws.stopPing. cbn [Ws.put_should_reconnect Ws.pingInterval].
  destruct (Ws.pingInterval m); cbn; by destruct (Ws.ws m).
Qed.

(** X18. After disconnect() no close sets the reconnect timer, clean or
    not, whatever is sent or connected in between, until a socket has
    opened again. *)
Theorem disconnect_stops_reconnecting (m : Ws.WebSocketManager) (l : list Ws.event)
    (wasClean : bool) :
  forallb (λ e, negb (socket_opened e)) l = true →
  snd (Ws.onclose wasClean (Ws.steps l (Ws.disconnect m))) = None.
Proof.
  intros Hl.
  assert (Ws.shouldReconnect (Ws.steps l (Ws.disconnect m)) = false) as Hs.
  { pose proof (disconnect_clears_should_reconnect m) as H0.
    revert H0. generalize (Ws.disconnect m) as m0. clear m.
    induction l as [| e l IH]; intros m0 H0; [done |].
    cbn in Hl. apply andb_true_iff in Hl as [He Hl].
    change (Ws.steps (e :: l) m0) with (Ws.steps l (Ws.step m0 e)).
    apply IH; [done |]. apply manager_step_stays_disconnected; [| done].
    by destruct (socket_opened e). }
  unfold Ws.onclose, Ws.stopPing. cbn [Ws.put_connecting Ws.pingInterval].
  destruct (Ws.pingInterval _);
    cbn [Ws.shouldReconnect Ws.put_ping Ws.put_connecting]; rewrite Hs; by cbn.
Qed.

Lemma disconnect_stops_reconnecting_witness :
  snd (Ws.onclose false
         (Ws.steps [Ws.Send "hello"; Ws.Closed 0 false; Ws.TimerFired]
                   (Ws.disconnect (Ws.steps [Ws.Connect; Ws.Opened 0] Ws.constructor))))
  = None.
Proof.
  apply (disconnect_stops_reconnecting
           (Ws.steps [Ws.Connect; Ws.Opened 0] Ws.constructor)
           [Ws.Send "hello"; Ws.Closed 0 false; Ws.TimerFired] false).
  reflexivity.
Defined.

(** ** The WebSocket service of the single-page dashboard *)

Lemma callbacks_on k ev cb s :
  Service.callbacks k (Service.on ev cb s)
  = if decide (k = ev) then Service.callbacks ev s ++ [cb] else Service.callbacks k s.
Proof.
  unfold Service.callbacks, Service.on; cbn [Service.listeners Service.put_listeners].
  destruct (decide (k = ev)) as [->|Hne].
  - by rewrite lookup_insert_eq.
  - by rewrite lookup_insert_ne.
Qed.

Lemma callbacks_off k ev cb s :
  Service.callbacks k (Service.off ev cb s)
  = if decide (k = ev) then Service.remove_first cb (Service.callbacks ev s)
    else Service.callbacks k s.
Proof.
  unfold Service.callbacks, Service.off.
  destruct (Service.listeners s !! ev) as [l|] eqn:E;
    cbn [Service.listeners Service.put_listeners].
  - destruct (decide (k = ev)) as [->|Hne].
    + by rewrite lookup_insert_eq.
    + by rewrite lookup_insert_ne.
  - destruct (decide (k = ev)) as [->|Hne]; [by rewrite E|done].
Qed.

Lemma count_remove_first cb x l :
  count_occ Nat.eq_dec (Service.remove_first cb l) x
  = if decide (x = cb) then Nat.pred (count_occ Nat.eq_dec l x)
    else count_occ Nat.eq_dec l x.
Proof.
  induction l as [|y l IH]; cbn [Service.remove_first].
  - by destruct (decide (x = cb)).
  - destruct (Nat.eqb_spec y cb) as [->|Hne].
    + destruct (decide (x = cb)) as [->|Hx].
      * by rewrite count_occ_cons_eq.
      * by rewrite count_occ_cons_neq by congruence.
    + cbn [count_occ]. destruct (Nat.eq_dec y x) as [->|Hyx].
      * rewrite IH. by destruct (decide (x = cb)).
      * done.
Qed.

(** X19. The listeners of the service are arrays: every on adds one call
    to what emit does, at the end and also for a function that is
    subscribed already; off takes away one subscription of the function,
    the earliest, and none of any other function. *)
Theorem service_off_removes_one_subscription {D : Type} (s : Service.WebSocketService)
    (ev : string) (cb x : nat) (data : D) :
  Service.emit ev data (Service.on ev cb s) = Service.emit ev data s ++ [(cb, data)]
  ∧ count_occ Nat.eq_dec (Service.callbacks ev (Service.off ev cb s)) x
    = (if decide (x = cb)
       then Nat.pred (count_occ Nat.eq_dec (Service.callbacks ev s) x)
       else count_occ Nat.eq_dec (Service.callbacks ev s) x)
  ∧ Service.emit ev data (Service.off ev cb (Service.on ev cb (Service.on ev cb s)))
    = if decide (cb ∈ Service.callbacks ev s)
      then Service.emit ev data (Service.off ev cb s) ++ [(cb, data); (cb, data)]
      else Service.emit ev data s ++ [(cb, data)].
Proof.
  split_and!.
  - unfold Service.emit. rewrite callbacks_on, decide_True by done.
    by rewrite map_app.
  - rewrite callbacks_off, decide_True by done. apply count_remove_first.
  - unfold Service.emit.
    repeat (rewrite ?callbacks_off, ?callbacks_on; rewrite decide_True by done).
    assert (∀ l t, Service.remove_first cb (l ++ cb :: t)
                   = if decide (cb ∈ l) then Service.remove_first cb l ++ cb :: t
                     else l ++ t) as Hrm.
    { induction l as [|y l IH]; intros t; cbn [Service.remove_first app].
      - rewrite Nat.eqb_refl. rewrite decide_False; [done|]. apply not_elem_of_nil.
      - destruct (Nat.eqb_spec y cb) as [->|Hne].
        + rewrite decide_True; [done|]. apply elem_of_cons. by left.
        + rewrite IH. destruct (decide (cb ∈ l)) as [Hin|Hout].
          * rewrite decide_True; [done|]. apply elem_of_cons. by right.
          * rewrite decide_False; [done|]. apply not_elem_of_cons. split; congruence. }
    rewrite <- app_assoc. cbn [app]. rewrite Hrm.
    destruct (decide (cb ∈ Service.callbacks ev s));
      rewrite ?decide_True by done; by rewrite map_app.
Qed.

Lemma service_step_closed s e :
  Service.is_opened e = false →
  Service.ws s ≠ Some Ws.OPEN →
  Service.wire s = [] →
  Service.ws (Service.step s e) ≠ Some Ws.OPEN ∧ Service.wire (Service.step s e) = [].
Proof.
  intros He Hws Hw.
  destruct e as [data| | | | |ev cb|ev cb]; try done; cbn [Service.step];
    try (by cbn).
  - unfold Service.send.
    destruct (Service.ws s) as [[]|] eqn:E; cbn; rewrite ?E; by try done.
  - unfold Service.onclose, Service.attemptReconnect.
    cbn [Service.put_ws Service.reconnectAttempts Service.maxReconnectAttempts].
    destruct (_ <? _); cbn; by destruct (Service.ws s).
  - unfold Service.off. by destruct (Service.listeners s !! ev).
Qed.

(** X20. The service has no queue: whatever is sent before a socket has
    opened is dropped, and nothing of it reaches the socket. *)
Theorem service_drops_messages_until_open (l : list Service.event) :
  forallb (λ e, negb (Service.is_opened e)) l = true →
  Service.wire (Service.steps l Service.constructor) = [].
Proof.
  intros Hl.
  assert (∀ s, Service.ws s ≠ Some Ws.OPEN → Service.wire s = [] →
               Service.ws (Service.steps l s) ≠ Some Ws.OPEN
               ∧ Service.wire (Service.steps l s) = []) as H.
  { induction l as [|e l IH]; intros s Hws Hw; [done|].
    cbn in Hl. apply andb_true_iff in Hl as [He Hl].
    change (Service.steps (e :: l) s) with (Service.steps l (Service.step s e)).
    destruct (service_step_closed s e) as [H1 H2]; [by destruct (Service.is_opened e)|done..|].
    by apply IH. }
  by apply H.
Qed.

Lemma service_drops_messages_until_open_witness :
  Service.wire (Service.steps [Service.Send "a"; Service.Connect; Service.Send "b"]
                              Service.constructor) = [].
Proof.
  apply (service_drops_messages_until_open
           [Service.Send "a"; Service.Connect; Service.Send "b"]).
  reflexivity.
Defined.

Lemma service_failed_round_fields s :
  Service.maxReconnectAttempts (Service.failed_round s) = Service.maxReconnectAttempts s
  ∧ Service.reconnectAttempts (Service.failed_round s)
    = if Service.reconnectAttempts s <? Service.maxReconnectAttempts s
      then Service.reconnectAttempts s + 1 else Service.reconnectAttempts s.
Proof.
  unfold Service.failed_round, Service.onclose, Service.attemptReconnect.
  cbn [Service.put_ws Service.reconnectAttempts Service.maxReconnectAttempts].
  by destruct (_ <? _).
Qed.

Lemma service_failed_rounds_fields n : ∀ s,
  0 ≤ Service.reconnectAttempts s →
  Service.maxReconnectAttempts (Service.failed_rounds n s) = Service.maxReconnectAttempts s
  ∧ Service.reconnectAttempts (Service.failed_rounds n s)
    = Z.max (Service.reconnectAttempts s)
        (Z.min (Service.reconnectAttempts s + Z.of_nat n) (Service.maxReconnectAttempts s)).
Proof.
  induction n as [|n IH]; intros s Ha; cbn [Service.failed_rounds].
  - split; [done|lia].
  - destruct (service_failed_round_fields s) as [H1 H2].
    destruct (IH (Service.failed_round s)) as [I1 I2].
    + rewrite H2. destruct (_ <? _); lia.
    + rewrite I1, I2, H1, H2. split; [done|].
      destruct (Z.ltb_spec (Service.reconnectAttempts s) (Service.maxReconnectAttempts s)); lia.
Qed.

(** X21. The reconnect schedule of the service. Every close counts, a
    clean one too: after a connection that was open, the close that
    follows [n] closes in a row sets the timer to 2000 * (n + 1)
    milliseconds while [n] is below maxReconnectAttempts, and sets no
    timer from then on. *)
Theorem service_reconnect_schedule (s : Service.WebSocketService) (n : nat) :
  Service.reconnectAttempts s = 0 →
  snd (Service.onclose (Service.failed_rounds n s))
  = if Z.of_nat n <? Service.maxReconnectAttempts s
    then Some (2000 * (Z.of_nat n + 1)) else None.
Proof.
  intros Ha. destruct (service_failed_rounds_fields n s) as [I1 I2]; [lia|].
  rewrite Ha in I2.
  unfold Service.onclose, Service.attemptReconnect.
  cbn [Service.put_ws Service.reconnectAttempts Service.maxReconnectAttempts].
  rewrite I1, I2.
  destruct (Z.ltb_spec (Z.of_nat n) (Service.maxReconnectAttempts s));
    destruct (Z.ltb_spec (Z.max 0 (Z.min (0 + Z.of_nat n) (Service.maxReconnectAttempts s)))
                (Service.maxReconnectAttempts s));
    try lia; try done; cbn.
  by replace (Z.max 0 (Z.min (0 + Z.of_nat n) (Service.maxReconnectAttempts s)))
       with (Z.of_nat n) by lia.
Qed.

Lemma service_reconnect_schedule_witness :
  snd (Service.onclose (Service.failed_rounds 2 Service.constructor)) = Some 6000
  ∧ snd (Service.onclose (Service.failed_rounds 5 Service.constructor)) = None.
Proof.
  split.
  - apply (service_reconnect_schedule Service.constructor 2). reflexivity.
  - apply (service_reconnect_schedule Service.constructor 5). reflexivity.
Defined.

(** ** Toasts *)

Lemma remove_first_others i l :
  StronglySorted Z.lt (map Toasts.id l) →
  Toasts.remove_first i l = Toasts.others i l.
Proof.
  induction l as [|t l IH]; [done|]. intros Hs.
  cbn [map] in Hs. apply StronglySorted_inv in Hs as [Hs Hlt].
  cbn [Toasts.remove_first Toasts.others List.filter].
  destruct (Z.eqb_spec (Toasts.id t) i) as [Heq|Hne]; cbn [negb].
  - fold (Toasts.others i l). symmetry.
    clear IH Hs. induction l as [|u l IH]; [done|].
    cbn [map] in Hlt. apply Forall_cons in Hlt as [Hu Hlt].
    cbn [Toasts.others List.filter].
    destruct (Z.eqb_spec (Toasts.id u) i); [lia|]. cbn [negb].
    f_equal. by apply IH.
  - fold (Toasts.others i l). f_equal. by apply IH.
Qed.

Lemma elem_of_others t i l : t ∈ Toasts.others i l ↔ t ∈ l ∧ Toasts.id t ≠ i.
Proof.
  unfold Toasts.others. rewrite !list_elem_of_In, filter_In, negb_true_iff.
  by rewrite Z.eqb_neq.
Qed.

Lemma others_sorted i l :
  StronglySorted Z.lt (map Toasts.id l) →
  StronglySorted Z.lt (map Toasts.id (Toasts.others i l)).
Proof.
  induction l as [|t l IH]; [done|]. cbn [map]. intros Hs.
  apply StronglySorted_inv in Hs as [Hs Hlt].
  cbn [Toasts.others List.filter]. fold (Toasts.others i l).
  destruct (negb (Toasts.id t =? i)); [|by apply IH].
  cbn [map]. constructor; [by apply IH|].
  apply Forall_forall. intros x Hx.
  apply list_elem_of_fmap in Hx as (u & -> & Hu).
  apply elem_of_others in Hu as [Hu _].
  rewrite Forall_forall in Hlt. apply Hlt. by apply list_elem_of_fmap_2.
Qed.

Lemma in_order_step s e : Toasts.in_order s → Toasts.in_order (Toasts.step s e).
Proof.
  intros (Hs & Hb & H0). destruct e as [message type|i]; cbn [Toasts.step].
  - unfold Toasts.addToast, Toasts.in_order; cbn [Toasts.toasts Toasts.toastId].
    split_and!; [| |lia].
    + rewrite map_app. cbn [map Toasts.id]. apply StronglySorted_app.
      split_and!; [|done|repeat constructor].
      intros x y Hx Hy. apply list_elem_of_singleton in Hy as ->.
      apply list_elem_of_fmap in Hx as (u & -> & Hu).
      rewrite Forall_forall in Hb. specialize (Hb u Hu). lia.
    + apply Forall_app. split.
      * eapply Forall_impl; [exact Hb|]. cbn. intros; lia.
      * apply Forall_singleton. cbn. lia.
  - unfold Toasts.removeToast, Toasts.in_order; cbn [Toasts.toasts Toasts.toastId].
    rewrite (remove_first_others i _ Hs). split_and!; [by apply others_sorted| |done].
    apply Forall_forall. intros t Ht. apply elem_of_others in Ht as [Ht _].
    rewrite Forall_forall in Hb. by apply Hb.
Qed.

Lemma in_order_steps l : ∀ s, Toasts.in_order s → Toasts.in_order (Toasts.steps l s).
Proof.
  induction l as [|e l IH]; intros s Hs; [done|].
  apply (IH (Toasts.step s e)). by apply in_order_step.
Qed.

Lemma in_order_setup : Toasts.in_order Toasts.setup.
Proof. split_and!; [constructor|constructor|done]. Qed.

(** X22. However toasts are added and removed, the ids of the toasts shown
    increase along the list, so no two toasts share an id, and
    removeToast(id) removes the toast of that id and no other: what is
    left is the list without it, in the same order. *)
Theorem toast_ids_are_unique (l : list Toasts.event) (i : Z) :
  let s := Toasts.steps l Toasts.setup in
  StronglySorted Z.lt (map Toasts.id (Toasts.toasts s))
  ∧ NoDup (map Toasts.id (Toasts.toasts s))
  ∧ Toasts.toasts (Toasts.removeToast i s) = Toasts.others i (Toasts.toasts s).
Proof.
  intros s. destruct (in_order_steps l Toasts.setup in_order_setup) as (Hs & Hb & H0).
  fold s in Hs, Hb, H0. split_and!; [done| |].
  - clear Hb. induction Hs as [|x xs Hs IH Hlt]; [constructor|].
    constructor; [|done]. intros Hin. rewrite Forall_forall in Hlt.
    specialize (Hlt x Hin). lia.
  - by apply remove_first_others.
Qed.

Lemma absent_steps i l : ∀ s,
  Toasts.in_order s →
  i ≤ Toasts.toastId s →
  (∀ t, t ∈ Toasts.toasts s → Toasts.id t ≠ i) →
  i ≤ Toasts.toastId (Toasts.steps l s)
  ∧ ∀ t, t ∈ Toasts.toasts (Toasts.steps l s) → Toasts.id t ≠ i.
Proof.
  induction l as [|e l IH]; intros s Hord Hi Habs; [done|].
  change (Toasts.steps (e :: l) s) with (Toasts.steps l (Toasts.step s e)).
  apply IH; [by apply in_order_step|..].
  - destruct e; cbn; lia.
  - destruct Hord as (Hs & _ & _).
    destruct e as [message type|j]; cbn [Toasts.step Toasts.addToast Toasts.removeToast
                                          Toasts.toasts].
    + intros t Ht. apply elem_of_app in Ht as [Ht|Ht]; [by apply Habs|].
      apply list_elem_of_singleton in Ht as ->. cbn. lia.
    + rewrite (remove_first_others j _ Hs). intros t Ht.
      apply elem_of_others in Ht as [Ht _]. by apply Habs.
Qed.

(** X23. An id is given out once. When the toast of an id that the
    counter has passed is removed, no later toast gets that id, so a
    second removeToast of it, such as the timer of a toast that was
    dismissed by hand, removes nothing, whatever was added and removed
    in between. *)
Theorem late_timer_removes_no_other_toast (l later : list Toasts.event) (i : Z) :
  let s := Toasts.steps l Toasts.setup in
  i ≤ Toasts.toastId s →
  Toasts.removeToast i (Toasts.steps later (Toasts.removeToast i s))
  = Toasts.steps later (Toasts.removeToast i s).
Proof.
  intros s Hi.
  pose proof (in_order_steps l Toasts.setup in_order_setup) as Hord. fold s in Hord.
  pose proof (in_order_step s (Toasts.RemoveToast i) Hord) as Hord1.
  cbn [Toasts.step] in Hord1.
  destruct (absent_steps i later (Toasts.removeToast i s) Hord1) as [_ Habs]; [done|..].
  { destruct Hord as (Hs & _ & _). cbn [Toasts.removeToast Toasts.toasts].
    rewrite (remove_first_others i _ Hs). intros t Ht.
    by apply elem_of_others in Ht as [_ ?]. }
  pose proof (in_order_steps later _ Hord1) as (Hs2 & _ & _).
  set (s2 := Toasts.steps later (Toasts.removeToast i s)) in *.
  unfold Toasts.removeToast. rewrite (remove_first_others i _ Hs2).
  destruct s2 as [ts n]. cbn [Toasts.toasts Toasts.toastId] in *. f_equal.
  clear Hs2. induction ts as [|t ts IH]; [done|].
  cbn [Toasts.others List.filter]. fold (Toasts.others i ts).
  destruct (Z.eqb_spec (Toasts.id t) i) as [Heq|Hne].
  - exfalso. apply (Habs t); [|done]. apply elem_of_cons. by left.
  - cbn [negb]. f_equal. apply IH. intros u Hu. apply Habs.
    apply elem_of_cons. by right.
Qed.

Lemma late_timer_removes_no_other_toast_witness :
  Toasts.removeToast 1
    (Toasts.steps [Toasts.AddToast "saved" "success"]
       (Toasts.removeToast 1 (Toasts.steps [Toasts.AddToast "hello" "info"] Toasts.setup)))
  = Toasts.steps [Toasts.AddToast "saved" "success"]
      (Toasts.removeToast 1 (Toasts.steps [Toasts.AddToast "hello" "info"] Toasts.setup)).
Proof.
  apply (late_timer_removes_no_other_toast [Toasts.AddToast "hello" "info"]
           [Toasts.AddToast "saved" "success"] 1).
  vm_compute. discriminate.
Defined.

(** ** The session cards and the texts of the board *)

(** X24. In every state a session card offers the actions of the session
    dialog in that state other than Complete and Fail, and no
    others. *)
Theorem card_offers_dialog_actions (state : string) :
  card_actions state = List.filter on_card (Board.modal_actions state).
Proof.
  unfold card_actions, Board.modal_actions. cbn [existsb].
  destruct (String.eqb_spec state "idle") as [->|H1]; [done|].
  destruct (String.eqb_spec state "working") as [->|H2]; [done|].
  destruct (String.eqb_spec state "paused") as [->|H3]; [done|].
  by destruct (String.eqb_spec state "waiting_for_approval") as [->|H4].
Qed.

Lemma substring_0_split n : ∀ t,
  ∃ rest, t = String.append (substring 0 n t) rest
          ∧ String.length (substring 0 n t) = Nat.min n (String.length t).
Proof.
  induction n as [|n IH]; intros t.
  - exists t. by destruct t.
  - destruct t as [|c t]; [by exists ""|].
    destruct (IH t) as (rest & Heq & Hlen). exists rest.
    cbn [substring String.length Nat.min]. split; [|by f_equal].
    change (String c t = String c (String.append (substring 0 n t) rest)).
    by f_equal.
Qed.

Lemma length_append s t :
  String.length (String.append s t) = (String.length s + String.length t)%nat.
Proof.
  induction s as [|c s IH]; [done|].
  change (S (String.length (String.append s t))
          = S (String.length s + String.length t)).
  by f_equal.
Qed.

(** X25. truncate(text, length) of the board returns the text itself when
    it has at most [length] characters, and otherwise the first [length]
    characters of the text followed by three dots: the result has
    length + 3 characters, which is more than the text has when the
    text is less than three characters over the length. The truncate of
    the backlog does the same, except that it turns the empty text into
    three dots when the length is negative. *)
Theorem truncate_keeps_a_prefix (t : string) (length : Z) :
  (if (length <? Z.of_nat (String.length t)) && negb (String.eqb t "")
   then ∃ rest, t = String.append (substring 0 (Z.to_nat length) t) rest
                ∧ truncate (Some t) length
                  = String.append (substring 0 (Z.to_nat length) t) "..."
                ∧ Z.of_nat (String.length (truncate (Some t) length))
                  = Z.max 0 length + 3
   else truncate (Some t) length = t)
  ∧ backlog_truncate t length
    = if String.eqb t "" && (length <? 0) then "..." else truncate (Some t) length.
Proof.
  unfold truncate, backlog_truncate.
  destruct (String.eqb_spec t "") as [->|Hx].
  - split; [by rewrite andb_false_r|]. cbn [String.length andb].
    change (Z.of_nat 0) with 0.
    destruct (length <? 0); [by destruct (Z.to_nat length)|done].
  - cbn [negb andb]. rewrite andb_true_r. split; [|done].
    destruct (Z.ltb_spec length (Z.of_nat (String.length t))) as [Hlt|Hge]; [|done].
    destruct (substring_0_split (Z.to_nat length) t) as (rest & Heq & Hlen).
    exists rest. split_and!; [done..|].
    rewrite length_append, Hlen. cbn. lia.
Qed.

(** X26. formatTime of a valid timestamp depends on the age now - date in
    milliseconds alone: 'just now' below one minute, and so for every
    timestamp in the future; whole minutes below one hour; whole hours
    below one day; whole days from then on. The three floors taken one
    after the other give the same numbers as one floor of the age
    divided by 60000, 3600000 and 86400000. *)
Theorem formatTime_thresholds (date now : Z) :
  let age := now - date in
  formatTime (At date) now
  = if age <? 60000 then "just now"
    else if age <? 3600000 then String.append (number (age / 60000)) "m ago"
    else if age <? 86400000 then String.append (number (age / 3600000)) "h ago"
    else String.append (number (age / 86400000)) "d ago".
Proof.
  intros age. unfold formatTime. fold age. cbv zeta.
  rewrite !Z.div_div by lia. change (60000 * 60) with 3600000.
  change (3600000 * 24) with 86400000.
  assert ((age / 60000 <? 1) = (age <? 60000)) as ->.
  { destruct (Z.ltb_spec (age / 60000) 1), (Z.ltb_spec age 60000);
      try done; exfalso; Z.div_mod_to_equations; lia. }
  assert ((age / 60000 <? 60) = (age <? 3600000)) as ->.
  { destruct (Z.ltb_spec (age / 60000) 60), (Z.ltb_spec age 3600000);
      try done; exfalso; Z.div_mod_to_equations; lia. }
  assert ((age / 3600000 <? 24) = (age <? 86400000)) as ->.
  { destruct (Z.ltb_spec (age / 3600000) 24), (Z.ltb_spec age 86400000);
      try done; exfalso; Z.div_mod_to_equations; lia. }
  done.
Qed.
